(** * psutils: N-up imposition (psnup.c, psspec.c, psutil.c)

    A shallow embedding of the DSC scanner, the page-body copier, the
    dimension parser, the layout optimiser, the spec builder and the
    imposition emitter [pstops], with the properties of the specification
    stated over them.

    Conventions.
    - [off_t], [long] and [int] values are [Z]; where C arithmetic could leave
      the type's range the model says so at the operation.
    - [double] values are IEEE-754 binary64 numbers ([PrimFloat.float]).
    - A stream is its byte content and a cursor; the output stream has a
      [room]: the number of bytes it still accepts (a full device makes
      [fwrite] come back short).
    - The module-level variables of psutil.c and psspec.c are the fields of
      one record [G] that every routine threads through; its field [memory]
      is the allocator's answer to [malloc] and [realloc]. *)

From Stdlib Require Import ZArith List Lia Bool Sorting.Sorted.
From Stdlib Require Import Strings.Byte Strings.String Strings.Ascii.
From Stdlib Require Import Floats.PrimFloat Floats.SpecFloat Floats.FloatOps.
From Stdlib Require Import Numbers.Cyclic.Int63.Uint63 Numbers.DecimalString.
From Stdlib Require Import Floats.FloatAxioms Numbers.DecimalPos.
Import ListNotations.
Open Scope Z_scope.

(* ================================================================== *)
(** ** C strings and characters *)

Module CStr.

Definition str (s : string) : list byte := list_byte_of_string s.

Definition nl : byte := x0a.
Definition NUL : byte := x00.

Definition len (l : list byte) : Z := Z.of_nat (List.length l).

(** [strlen]/[fputs] see a buffer up to its first NUL byte. *)
Fixpoint cstring (l : list byte) : list byte :=
  match l with
  | [] => []
  | b :: r => if Byte.eqb b NUL then [] else b :: cstring r
  end.

(** [strncmp(x, y, strlen(y)) == 0] for a literal [y] without NUL. *)
Fixpoint starts_with (y x : list byte) : bool :=
  match y, x with
  | [], _ => true
  | _ :: _, [] => false
  | c :: y', d :: x' => Byte.eqb c d && starts_with y' x'
  end.

(** [iscomment(x,y)] of psutil.c. *)
Definition iscomment (x : list byte) (y : string) : bool := starts_with (str y) x.

Definition code (b : byte) : Z := Z.of_N (Byte.to_N b).

Definition isdigit (b : byte) : bool := (48 <=? code b) && (code b <=? 57).

(** The C locale's [isspace]: space, \t \n \v \f \r. *)
Definition isspace (b : byte) : bool :=
  (code b =? 32) || ((9 <=? code b) && (code b <=? 13)).

(** [*s] for a NUL-terminated string held as the list of its bytes. *)
Definition peek (l : list byte) : byte := hd NUL l.

(** The bytes from offset [p] on. *)
Definition from (p : Z) (l : list byte) : list byte := skipn (Z.to_nat p) l.

End CStr.
Import CStr.

(* ================================================================== *)
(** ** stdio streams *)

Module Stdio.

(** Size of the line buffers ([BUFSIZ] of <stdio.h>; the value of glibc). *)
Definition BUFSIZ : Z := 8192.

Record IFILE := { content : list byte; fpos : Z }.
Record OFILE := { written : list byte; room : Z }.

Definition ftello (f : IFILE) : Z := fpos f.

(** [fseeko(f, off, SEEK_SET)]: a negative offset is refused and leaves the
    cursor where it was. *)
Definition fseeko (off : Z) (f : IFILE) : IFILE :=
  if off <? 0 then f else {| content := content f; fpos := off |}.

(** What is left to read at the cursor. *)
Definition rest (f : IFILE) : list byte := from (fpos f) (content f).

(** The bytes one [fgets] of an [n]-byte buffer takes from [l]: through the
    first newline, and never more than [n] bytes. *)
Fixpoint take_line (n : nat) (l : list byte) : list byte :=
  match n, l with
  | O, _ => []
  | _, [] => []
  | S n', b :: r => if Byte.eqb b nl then [b] else b :: take_line n' r
  end.

(** [fgets(buffer, BUFSIZ, f)]: [None] is NULL (nothing left to read). *)
Definition fgets (f : IFILE) : option (list byte) * IFILE :=
  match rest f with
  | [] => (None, f)
  | _ :: _ =>
      let line := take_line (Z.to_nat (BUFSIZ - 1)) (rest f) in
      (Some line, {| content := content f; fpos := fpos f + len line |})
  end.

(** [fread(buffer, 1, n, f)]: the bytes read (fewer than [n] at the end of
    the stream). *)
Definition fread (n : Z) (f : IFILE) : list byte * IFILE :=
  let got := firstn (Z.to_nat n) (rest f) in
  (got, {| content := content f; fpos := fpos f + len got |}).

(** [fwrite(buffer, 1, n, f)]: the number of bytes the stream accepted. *)
Definition fwrite (bs : list byte) (f : OFILE) : Z * OFILE :=
  let ok := firstn (Z.to_nat (room f)) bs in
  (len ok, {| written := written f ++ ok; room := room f - len ok |}).

(** [fputs(s, f)]: [true] is EOF (the stream did not take the whole string). *)
Definition fputs (s : list byte) (f : OFILE) : bool * OFILE :=
  let (n, f') := fwrite (cstring s) f in
  (n <? len (cstring s), f').

End Stdio.
Import Stdio.

(* ================================================================== *)
(** ** psutil.c: making the input seekable *)

Module Seekable.

(** The [do .. while (r > 0)] of [seekable]: [fwrite] again from where the
    last one stopped until the chunk [p] is out; [None] is the [return NULL]
    for a write that takes nothing.  Every turn that goes on took at least
    one byte, so [length p] turns always suffice. *)
Fixpoint write_all (fuel : nat) (p : list byte) (ft : OFILE) : option OFILE :=
  match fuel with
  | O => None
  | S fuel' =>
      let (w, ft) := fwrite p ft in
      if w =? 0 then None
      else
        let p := skipn (Z.to_nat w) p in
        if 0 <? len p then write_all fuel' p ft else Some ft
  end.

(** [while ((r = fread(p = buffer, 1, BUFSIZ, fp)) > 0) { ... }]: a turn
    that goes on read at least one byte, so one turn more than there are
    bytes left always suffices. *)
Fixpoint slurp (fuel : nat) (fp : IFILE) (ft : OFILE) : option OFILE :=
  match fuel with
  | O => None
  | S fuel' =>
      let (buf, fp) := fread BUFSIZ fp in
      if 0 <? len buf then
        match write_all (List.length buf) buf ft with
        | None => None
        | Some ft => slurp fuel' fp ft
        end
      else Some ft
  end.

(** [seekable(fp)].  [can_seek] says whether [fp] takes the three
    positioning calls of the test; [tmpfile] is the room of the file
    [tmpfile()] makes, [None] when it makes none.  A stream that is not
    positioned holds in [rest] what is still to come.  The result [None] is
    NULL; the temporary file is handed back rewound, as an input. *)
Definition seekable (can_seek : bool) (tmpfile : option Z) (fp : IFILE)
  : option IFILE :=
  if can_seek then Some fp
  else
    match tmpfile with
    | None => None
    | Some room =>
        match slurp (S (List.length (rest fp))) fp
                    {| written := []; room := room |} with
        | None => None
        | Some ft => Some {| content := written ft; fpos := 0 |}
        end
    end.

End Seekable.

(* ================================================================== *)
(** ** The module-level variables *)

(** The variables of psutil.c and psspec.c that the routines share.  With
    them goes what the routines ask of the environment beyond the two
    streams: [memory n] tells whether [malloc] or [realloc] grants a table
    of [n] cells of type [off_t]. *)
Record G := mkG {
  infile : IFILE;
  outfile : OFILE;
  bytes : Z;                    (* psutil.c: static long bytes *)
  pagescmt : Z;
  headerpos : Z;
  endsetup : Z;
  beginprocset : Z;
  endprocset : Z;
  outputpage : Z;
  maxpages : Z;
  pageptr : list Z;             (* the malloc'ed table, [maxpages] cells *)
  pages : Z;
  pagelabel : list byte;
  pageno : Z;
  width : float;                (* psspec.c: double width, height *)
  height : float;
  memory : Z -> bool            (* the allocator *)
}.

(** The assignments to one variable. *)

Definition set_infile (v : IFILE) (g : G) : G :=
  let 'mkG _ a2 a3 a4 a5 a6 a7 a8 a9 a10 a11 a12 a13 a14 a15 a16 a17 := g in
  mkG v a2 a3 a4 a5 a6 a7 a8 a9 a10 a11 a12 a13 a14 a15 a16 a17.

Definition set_outfile (v : OFILE) (g : G) : G :=
  let 'mkG a1 _ a3 a4 a5 a6 a7 a8 a9 a10 a11 a12 a13 a14 a15 a16 a17 := g in
  mkG a1 v a3 a4 a5 a6 a7 a8 a9 a10 a11 a12 a13 a14 a15 a16 a17.

Definition set_bytes (v : Z) (g : G) : G :=
  let 'mkG a1 a2 _ a4 a5 a6 a7 a8 a9 a10 a11 a12 a13 a14 a15 a16 a17 := g in
  mkG a1 a2 v a4 a5 a6 a7 a8 a9 a10 a11 a12 a13 a14 a15 a16 a17.

Definition set_pagescmt (v : Z) (g : G) : G :=
  let 'mkG a1 a2 a3 _ a5 a6 a7 a8 a9 a10 a11 a12 a13 a14 a15 a16 a17 := g in
  mkG a1 a2 a3 v a5 a6 a7 a8 a9 a10 a11 a12 a13 a14 a15 a16 a17.

Definition set_headerpos (v : Z) (g : G) : G :=
  let 'mkG a1 a2 a3 a4 _ a6 a7 a8 a9 a10 a11 a12 a13 a14 a15 a16 a17 := g in
  mkG a1 a2 a3 a4 v a6 a7 a8 a9 a10 a11 a12 a13 a14 a15 a16 a17.

Definition set_endsetup (v : Z) (g : G) : G :=
  let 'mkG a1 a2 a3 a4 a5 _ a7 a8 a9 a10 a11 a12 a13 a14 a15 a16 a17 := g in
  mkG a1 a2 a3 a4 a5 v a7 a8 a9 a10 a11 a12 a13 a14 a15 a16 a17.

Definition set_beginprocset (v : Z) (g : G) : G :=
  let 'mkG a1 a2 a3 a4 a5 a6 _ a8 a9 a10 a11 a12 a13 a14 a15 a16 a17 := g in
  mkG a1 a2 a3 a4 a5 a6 v a8 a9 a10 a11 a12 a13 a14 a15 a16 a17.

Definition set_endprocset (v : Z) (g : G) : G :=
  let 'mkG a1 a2 a3 a4 a5 a6 a7 _ a9 a10 a11 a12 a13 a14 a15 a16 a17 := g in
  mkG a1 a2 a3 a4 a5 a6 a7 v a9 a10 a11 a12 a13 a14 a15 a16 a17.

Definition set_outputpage (v : Z) (g : G) : G :=
  let 'mkG a1 a2 a3 a4 a5 a6 a7 a8 _ a10 a11 a12 a13 a14 a15 a16 a17 := g in
  mkG a1 a2 a3 a4 a5 a6 a7 a8 v a10 a11 a12 a13 a14 a15 a16 a17.

Definition set_maxpages (v : Z) (g : G) : G :=
  let 'mkG a1 a2 a3 a4 a5 a6 a7 a8 a9 _ a11 a12 a13 a14 a15 a16 a17 := g in
  mkG a1 a2 a3 a4 a5 a6 a7 a8 a9 v a11 a12 a13 a14 a15 a16 a17.

Definition set_pageptr (v : list Z) (g : G) : G :=
  let 'mkG a1 a2 a3 a4 a5 a6 a7 a8 a9 a10 _ a12 a13 a14 a15 a16 a17 := g in
  mkG a1 a2 a3 a4 a5 a6 a7 a8 a9 a10 v a12 a13 a14 a15 a16 a17.

Definition set_pages (v : Z) (g : G) : G :=
  let 'mkG a1 a2 a3 a4 a5 a6 a7 a8 a9 a10 a11 _ a13 a14 a15 a16 a17 := g in
  mkG a1 a2 a3 a4 a5 a6 a7 a8 a9 a10 a11 v a13 a14 a15 a16 a17.

Definition set_pagelabel (v : list byte) (g : G) : G :=
  let 'mkG a1 a2 a3 a4 a5 a6 a7 a8 a9 a10 a11 a12 _ a14 a15 a16 a17 := g in
  mkG a1 a2 a3 a4 a5 a6 a7 a8 a9 a10 a11 a12 v a14 a15 a16 a17.

Definition set_pageno (v : Z) (g : G) : G :=
  let 'mkG a1 a2 a3 a4 a5 a6 a7 a8 a9 a10 a11 a12 a13 _ a15 a16 a17 := g in
  mkG a1 a2 a3 a4 a5 a6 a7 a8 a9 a10 a11 a12 a13 v a15 a16 a17.

Definition set_width (v : float) (g : G) : G :=
  let 'mkG a1 a2 a3 a4 a5 a6 a7 a8 a9 a10 a11 a12 a13 a14 _ a16 a17 := g in
  mkG a1 a2 a3 a4 a5 a6 a7 a8 a9 a10 a11 a12 a13 a14 v a16 a17.

Definition set_height (v : float) (g : G) : G :=
  let 'mkG a1 a2 a3 a4 a5 a6 a7 a8 a9 a10 a11 a12 a13 a14 a15 _ a17 := g in
  mkG a1 a2 a3 a4 a5 a6 a7 a8 a9 a10 a11 a12 a13 a14 a15 v a17.

(** How a routine ends: it returns, it stops the process with a diagnostic
    ([message(FATAL,..)], [die], [usage], [argerror]), or it leaves what C
    defines (an access outside an array, a signed overflow, a division by
    zero). *)
Inductive outcome (A : Type) : Type :=
| Ok (a : A) (g : G)
| Fatal (msg : string) (g : G)
| Undefined (why : string).
Arguments Ok {A} a g.
Arguments Fatal {A} msg g.
Arguments Undefined {A} why.

Definition bind {A B} (m : outcome A) (k : A -> G -> outcome B) : outcome B :=
  match m with
  | Ok a g => k a g
  | Fatal msg g => Fatal msg g
  | Undefined why => Undefined why
  end.

Notation "'do' x , g <- m ; k" := (bind m (fun x g => k))
  (at level 10, x name, g name, m at level 100, k at level 200).

(* ================================================================== *)
(** ** psutil.c: the page-body copier *)

Module Copier.

(** The [while (bytes_left > 0)] loop of [fcopy]: at most [BUFSIZ] bytes a
    turn.  Every turn takes at least one byte off [bytes_left], so
    [Z.to_nat bytes_left] turns always suffice ([copy_chunks_fuel]). *)
Fixpoint copy_chunks (fuel : nat) (bytes_left : Z) (g : G) : Z * G :=
  if bytes_left <=? 0 then (1, g)
  else match fuel with
  | O => (1, g)
  | S fuel' =>
      let numtocopy := if BUFSIZ <? bytes_left then BUFSIZ else bytes_left in
      let (buf, fin) := fread numtocopy (infile g) in
      let g := set_infile fin g in
      if len buf <? numtocopy then (0, g)
      else
        let (w, fout) := fwrite buf (outfile g) in
        let g := set_outfile fout g in
        if w <? numtocopy then (0, g)
        else copy_chunks fuel' (bytes_left - numtocopy)
                         (set_bytes (bytes g + numtocopy) g)
  end.

(** [fcopy(upto, NULL)]. *)
Definition fcopy_plain (upto : Z) (g : G) : Z * G :=
  let here := ftello (infile g) in
  let bytes_left := upto - here in
  copy_chunks (Z.to_nat bytes_left) bytes_left g.

(** [while ( *ignorelist > 0 && *ignorelist < here) ignorelist++;]
    The list holds the cells before the terminating 0, so reading past its
    end reads the terminator. *)
Fixpoint skip_ignored (ign : list Z) (here : Z) : list Z :=
  match ign with
  | [] => []
  | e :: r => if (0 <? e) && (e <? here) then skip_ignored r here else ign
  end.

(** The second loop of [fcopy]: copy up to the next ignored offset, read one
    line and drop it.  The first component is 0 where the source has
    [return 0].  A turn moves the cursor [ignorelist] at least one cell on,
    so [length ign] turns always suffice ([ignore_loop_fuel]). *)
Fixpoint ignore_loop (fuel : nat) (ign : list Z) (upto : Z) (g : G)
  : Z * G :=
  let e := hd 0 ign in
  if (0 <? e) && (e <? upto) then
    match fuel with
    | O => (0, g)
    | S fuel' =>
        let (r, g) := fcopy_plain e g in
        if r =? 0 then (0, g)
        else match fgets (infile g) with
        | (None, fin) => (0, set_infile fin g)
        | (Some _, fin) =>
            let g := set_infile fin g in
            let here := ftello (infile g) in
            ignore_loop fuel' (skip_ignored (tl ign) here) upto g
        end
    end
  else (1, g).

(** [fcopy(upto, ignorelist)]; [None] is a NULL [ignorelist]. *)
Definition fcopy (upto : Z) (ignorelist : option (list Z)) (g : G) : Z * G :=
  match ignorelist with
  | None => fcopy_plain upto g
  | Some ign =>
      let here := ftello (infile g) in
      let ign := skip_ignored ign here in
      let (r, g) := ignore_loop (List.length ign) ign upto g in
      if r =? 0 then (0, g) else fcopy_plain upto g
  end.

(** *** The copier as the specification words it

    Walk the positions from [here] up to [upto]; a position that is an
    ignored offset starts a dropped line (what one [fgets] takes there), every
    other position outside a dropped line is copied. *)

Definition line_at (c : list byte) (p : Z) : list byte :=
  take_line (Z.to_nat (BUFSIZ - 1)) (from p c).

Fixpoint copy_range_from (c : list byte) (ign : list Z) (n : nat) (pos : Z)
    (skip : Z) : list byte :=
  match n with
  | O => []
  | S n' =>
      if 0 <? skip then copy_range_from c ign n' (pos + 1) (skip - 1)
      else if existsb (Z.eqb pos) ign
      then copy_range_from c ign n' (pos + 1) (len (line_at c pos) - 1)
      else firstn 1 (from pos c) ++ copy_range_from c ign n' (pos + 1) 0
  end.

Definition copy_range (c : list byte) (ign : list Z) (here upto : Z)
  : list byte :=
  copy_range_from c ign (Z.to_nat (upto - here)) here 0.

End Copier.

(* ================================================================== *)
(** ** printf conversions and C casts *)

Module Fmt.

(** [%d]. *)
Definition fmt_d (n : Z) : list byte :=
  str (DecimalString.NilZero.string_of_int (Z.to_int n)).

(** [10^6 * m * 2^e] rounded to the nearest integer, ties to even. *)
Definition micro (m e : Z) : Z :=
  let num := m * 1000000 in
  if 0 <=? e then num * 2 ^ e
  else
    let d := 2 ^ (- e) in
    let q := num / d in
    let r := num mod d in
    if (d <? 2 * r) || ((d =? 2 * r) && Z.odd q) then q + 1 else q.

Definition pad6 (n : Z) : list byte :=
  let s := fmt_d n in
  repeat "0"%byte (6 - List.length s) ++ s.

(** [%f]: six decimals, the exact binary value rounded to nearest-even. *)
Definition fmt_f (x : float) : list byte :=
  match Prim2SF x with
  | S754_nan => str "nan"
  | S754_infinity s => str (if s then "-inf" else "inf")
  | S754_zero s => str (if s then "-0.000000" else "0.000000")
  | S754_finite s m e =>
      let n := micro (Z.pos m) e in
      (if s then str "-" else []) ++ fmt_d (n / 1000000) ++ str "."
        ++ pad6 (n mod 1000000)
  end.

Definition INT_MAX : Z := 2147483647.
Definition INT_MIN : Z := -2147483648.
Definition LONG_MAX : Z := 9223372036854775807.
Definition LONG_MIN : Z := -9223372036854775808.

(** [(int) x] for a double: the value with its fraction dropped; [None]
    where the result is outside [int] (not defined by C). *)
Definition int_of_double (x : float) : option Z :=
  match Prim2SF x with
  | S754_zero _ => Some 0
  | S754_finite s m e =>
      let a := if 0 <=? e then Z.pos m * 2 ^ e else Z.pos m / 2 ^ (- e) in
      let v := if s then - a else a in
      if (INT_MIN <=? v) && (v <=? INT_MAX) then Some v else None
  | _ => None
  end.

(** [(double) n] for a [long] or an [int]. *)
Definition double_of_Z (n : Z) : float :=
  if n <? 0 then PrimFloat.opp (PrimFloat.of_uint63 (Uint63.of_Z (- n)))
  else PrimFloat.of_uint63 (Uint63.of_Z n).

(** The value of a run of decimal digits, and what follows it. *)
Fixpoint digits_value (acc : Z) (s : list byte) : Z * list byte :=
  match s with
  | [] => (acc, [])
  | c :: r => if isdigit c then digits_value (acc * 10 + (code c - 48)) r
              else (acc, s)
  end.

Fixpoint skip_space (s : list byte) : list byte :=
  match s with
  | [] => []
  | c :: r => if isspace c then skip_space r else s
  end.

(** [strtol(s, NULL, 10)]: white space, a sign, digits; out-of-range values
    stick at the ends of [long]. *)
Definition atol (s : list byte) : Z :=
  let s := skip_space (cstring s) in
  let (neg, s) := match s with
                  | c :: r => if Byte.eqb c "-"%byte then (true, r)
                              else if Byte.eqb c "+"%byte then (false, r)
                              else (false, s)
                  | [] => (false, s)
                  end in
  let v := fst (digits_value 0 s) in
  let v := if neg then - v else v in
  Z.max LONG_MIN (Z.min LONG_MAX v).

(** Conversion of a [long] to [int]: the low 32 bits. *)
Definition to_int (n : Z) : Z := (n + 2 ^ 31) mod 2 ^ 32 - 2 ^ 31.

Definition atoi (s : list byte) : Z := to_int (atol s).

End Fmt.
Import Fmt.

(* ================================================================== *)
(** ** psutil.c: the DSC scanner *)

Module Scanner.

(** A cell of an [off_t] array; [None] is an access outside the array. *)
Definition load (i : Z) (l : list Z) : option Z :=
  if i <? 0 then None else nth_error l (Z.to_nat i).

Fixpoint update (n : nat) (v : Z) (l : list Z) : list Z :=
  match l, n with
  | [], _ => []
  | _ :: r, O => v :: r
  | x :: r, S n' => x :: update n' v r
  end.

Definition store (i v : Z) (l : list Z) : option (list Z) :=
  if (0 <=? i) && (i <? Z.of_nat (List.length l))
  then Some (update (Z.to_nat i) v l)
  else None.

(** The locals of [scanpages]: [nesting], and the caller's [sizeheaders]
    array: [szcap] is its number of cells ([None] for a NULL pointer),
    [szs] the offsets stored so far, the terminating 0 after them. *)
Record locals := mkLocals {
  nesting : Z;
  szcap : option Z;
  szs : list Z
}.

(** [if (sizeheaders) { *(sizeheaders++) = record; *sizeheaders = 0; }]
    The source does not test for room: the write past the last cell is
    outside what C defines. *)
Definition push_sizeheader (record : Z) (l : locals) (g : G) : outcome locals :=
  match szcap l with
  | None => Ok l g
  | Some cap =>
      if Z.of_nat (List.length (szs l)) + 1 <? cap
      then Ok (mkLocals (nesting l) (szcap l) (szs l ++ [record])) g
      else Undefined "sizeheaders overrun"
  end.

(** The [%%Page:] branch: double the table when it is full, then
    [pageptr[pages++] = record].  [maxpages *= 2] is an [int]
    multiplication; [realloc] returns NULL where the allocator does not
    grant the new table, and the scan stops with [out of memory].  (A fresh
    cell holds 0 and is never read before it is written.) *)
Definition push_page (record : Z) (g : G) : outcome unit :=
  do _, g <-
    (if maxpages g - 1 <=? pages g then
       if (maxpages g * 2 <? INT_MIN) || (INT_MAX <? maxpages g * 2)
       then Undefined "int overflow"
       else if memory g (maxpages g * 2)
       then Ok tt (set_pageptr (pageptr g ++ repeat 0 (Z.to_nat (maxpages g)))
                               (set_maxpages (maxpages g * 2) g))
       else Fatal "out of memory" (set_maxpages (maxpages g * 2) g)
     else Ok tt g);
  match store (pages g) record (pageptr g) with
  | Some t => Ok tt (set_pages (pages g + 1) (set_pageptr t g))
  | None => Undefined "pageptr overrun"
  end.

(** The body of the scanning loop for the line [buffer] read at offset
    [record]; [g] is the state after the [fgets].  The boolean is [true]
    where the source has [break]. *)
Definition scan_line (record : Z) (buffer : list byte) (l : locals) (g : G)
  : outcome (bool * locals) :=
  let comment := skipn 2 buffer in
  let keep (g : G) := Ok (false, l) g in
  let nest (n : Z) := Ok (false, mkLocals n (szcap l) (szs l)) g in
  let size := do l', g' <- push_sizeheader record l g; Ok (false, l') g' in
  if Byte.eqb (peek buffer) "%"%byte then
    if Byte.eqb (nth 1 buffer NUL) "%"%byte then
      if (nesting l =? 0) && iscomment comment "Page:" then
        do _, g' <- push_page record g; Ok (false, l) g'
      else if (headerpos g =? 0) && iscomment comment "BoundingBox:" then size
      else if (headerpos g =? 0) && iscomment comment "HiResBoundingBox:" then size
      else if (headerpos g =? 0) && iscomment comment "DocumentPaperSizes:" then size
      else if (headerpos g =? 0) && iscomment comment "DocumentMedia:" then size
      else if (headerpos g =? 0) && iscomment comment "Pages:" then
        keep (set_pagescmt record g)
      else if (headerpos g =? 0) && iscomment comment "EndComments" then
        keep (set_headerpos (ftello (infile g)) g)
      else if iscomment comment "BeginDocument" || iscomment comment "BeginBinary"
              || iscomment comment "BeginFile" then
        nest (nesting l + 1)
      else if iscomment comment "EndDocument" || iscomment comment "EndBinary"
              || iscomment comment "EndFile" then
        nest (nesting l - 1)
      else if (nesting l =? 0) && iscomment comment "EndSetup" then
        keep (set_endsetup record g)
      else if (nesting l =? 0) && iscomment comment "BeginProlog" then
        keep (set_headerpos (ftello (infile g)) g)
      else if (nesting l =? 0) && iscomment comment "BeginProcSet: PStoPS" then
        keep (set_beginprocset record g)
      else if negb (beginprocset g =? 0) && (endprocset g =? 0)
              && iscomment comment "EndProcSet" then
        keep (set_endprocset (ftello (infile g)) g)
      else if (nesting l =? 0)
              && (iscomment comment "Trailer" || iscomment comment "EOF") then
        Ok (true, l) (set_infile (fseeko record (infile g)) g)
      else keep g
    else if (headerpos g =? 0) && negb (Byte.eqb (nth 1 buffer NUL) "!"%byte) then
      keep (set_headerpos record g)
    else keep g
  else if headerpos g =? 0 then keep (set_headerpos record g)
  else keep g.

(** [while (record = ftello(infile), fgets(buffer, BUFSIZ, infile) != NULL)].
    Every [fgets] that succeeds takes at least one byte, so one turn more
    than there are bytes left always suffices ([scan_loop_fuel]). *)
Fixpoint scan_loop (fuel : nat) (l : locals) (g : G) : outcome locals :=
  match fuel with
  | O => Ok l g
  | S fuel' =>
      let record := ftello (infile g) in
      match fgets (infile g) with
      | (None, _) => Ok l g
      | (Some buffer, fin) =>
          do r, g' <- scan_line record buffer l (set_infile fin g);
          if fst r then Ok (snd r) g' else scan_loop fuel' (snd r) g'
      end
  end.

(** [scanpages(sizeheaders)] up to the end of the loop: the terminator
    goes into [sizeheaders], the table is allocated ([malloc] returns NULL
    where the allocator does not grant it), the input rewound. *)
Definition scan (sizeheaders : option Z) (g : G) : outcome locals :=
  if match sizeheaders with Some cap => cap <? 1 | None => false end
  then Undefined "sizeheaders overrun"
  else if negb (memory g (maxpages g)) then Fatal "out of memory" g
  else
    let g := set_pages 0 (set_pageptr (repeat 0 (Z.to_nat (maxpages g))) g) in
    let g := set_infile (fseeko 0 (infile g)) g in
    scan_loop (S (List.length (content (infile g)))) (mkLocals 0 sizeheaders []) g.

(** The two statements after the loop: the trailer sentinel and the clamp
    of [endsetup]. *)
Definition finish (g : G) : outcome unit :=
  match store (pages g) (ftello (infile g)) (pageptr g) with
  | None => Undefined "pageptr overrun"
  | Some t =>
      let g := set_pageptr t g in
      match load 0 (pageptr g) with
      | None => Undefined "pageptr overrun"
      | Some p0 =>
          if (endsetup g =? 0) || (p0 <? endsetup g)
          then Ok tt (set_endsetup p0 g)
          else Ok tt g
      end
  end.

(** [scanpages(sizeheaders)]; the result is what the caller's array holds
    before its terminating 0. *)
Definition scanpages (sizeheaders : option Z) (g : G) : outcome (list Z) :=
  do l, g1 <- scan sizeheaders g;
  do _, g2 <- finish g1;
  Ok (szs l) g2.

End Scanner.

(* ================================================================== *)
(** ** psutil.c: seeking and writing *)

Module Writer.
Import Copier Scanner.

(** The label of a [%%Page:] line that opens with a parenthesis: [s] is the
    text after it, [paren] the count of open parentheses.  The result is the
    text through the closing parenthesis and what follows; [None] is the end
    of the line reached first. *)
Fixpoint paren_label (s : list byte) (paren : nat)
  : option (list byte * list byte) :=
  match paren with
  | O => Some ([], s)
  | S p =>
      match s with
      | [] => None
      | c :: r =>
          let paren' := if Byte.eqb c "("%byte then S (S p)
                        else if Byte.eqb c ")"%byte then p else S p in
          match paren_label r paren' with
          | Some (lab, after) => Some (c :: lab, after)
          | None => None
          end
      end
  end.

(** [for (end = start; !isspace( *end); end++);] -- [None] when the line
    ends before any white space: the loop then runs on past the string. *)
Fixpoint word_label (s : list byte) : option (list byte * list byte) :=
  match s with
  | [] => None
  | c :: r =>
      if isspace c then Some ([], s)
      else match word_label r with
           | Some (lab, after) => Some (c :: lab, after)
           | None => None
           end
  end.

(** [seekpage(p)].  Where a label of one word runs to the end of the
    line's text, the loop of the source reads on in [buffer] behind the
    string, in what earlier reads left there; the model does not follow it
    there and answers [Undefined]. *)
Definition seekpage (p : Z) (g : G) : outcome unit :=
  match load p (pageptr g) with
  | None => Undefined "pageptr overrun"
  | Some off =>
      let g := set_infile (fseeko off (infile g)) g in
      match fgets (infile g) with
      | (Some buffer, fin) =>
          let g := set_infile fin g in
          if iscomment buffer "%%Page:" then
            let start := skip_space (skipn 7 (cstring buffer)) in
            if Byte.eqb (peek start) "("%byte then
              match paren_label (tl start) 1 with
              | None => Fatal "Bad page label while seeking page" g
              | Some (lab, after) =>
                  Ok tt (set_pageno (atoi after)
                           (set_pagelabel ("("%byte :: lab) g))
              end
            else
              match word_label start with
              | None => Undefined "page label runs past the line"
              | Some (lab, after) =>
                  Ok tt (set_pageno (atoi after) (set_pagelabel lab g))
              end
          else Fatal "I/O error seeking page" g
      | (None, fin) => Fatal "I/O error seeking page" (set_infile fin g)
      end
  end.

(** [writestring(s)]: the result of [fputs] is not looked at. *)
Definition writestring (s : list byte) (g : G) : G :=
  let (_, fout) := fputs s (outfile g) in
  set_bytes (bytes g + len (cstring s)) (set_outfile fout g).

(** Modelled from the spec: [writestringf], the formatted write of the
    output writer, is not among the sources; the formatted text goes through
    [writestring]. *)
Definition writestringf (formatted : list byte) (g : G) : G :=
  writestring formatted g.

(** [writepageheader(label, page)]: the line is formatted into the
    [BUFSIZ]-byte [buffer] (the progress note goes to the log). *)
Definition writepageheader (label : list byte) (page : Z) (g : G)
  : outcome unit :=
  let g := set_outputpage (outputpage g + 1) g in
  let text := str "%%Page: " ++ cstring label ++ str " "
                ++ fmt_d (outputpage g) ++ [nl] in
  if BUFSIZ <=? len text then Undefined "buffer overrun"
  else Ok tt (writestring text g).

(** The loop of [writepagesetup].  A turn takes at least one byte, so one
    turn more than there are bytes left always suffices. *)
Fixpoint pagesetup_loop (fuel : nat) (g : G) : outcome unit :=
  match fuel with
  | O => Fatal "I/O error reading page setup" g
  | S fuel' =>
      match fgets (infile g) with
      | (None, fin) => Fatal "I/O error reading page setup" (set_infile fin g)
      | (Some buffer, fin) =>
          let g := set_infile fin g in
          if starts_with (str "PStoPSxform") buffer then Ok tt g
          else
            let (eof, fout) := fputs buffer (outfile g) in
            let g := set_outfile fout g in
            if eof then Fatal "I/O error writing page setup" g
            else pagesetup_loop fuel'
                   (set_bytes (bytes g + len (cstring buffer)) g)
      end
  end.

Definition writepagesetup (g : G) : outcome unit :=
  if beginprocset g =? 0 then Ok tt g
  else pagesetup_loop (S (List.length (rest (infile g)))) g.

(** [writepagebody(p)]. *)
Definition writepagebody (p : Z) (g : G) : outcome unit :=
  match load (p + 1) (pageptr g) with
  | None => Undefined "pageptr overrun"
  | Some upto =>
      let (r, g) := fcopy upto None g in
      if r =? 0 then Fatal "I/O error writing page" g else Ok tt g
  end.

(** [writeheadermedia(p, ignore, width, height)]. *)
Definition writeheadermedia (p : Z) (ignore : option (list Z))
    (width height : float) (g : G) : outcome unit :=
  let g := set_infile (fseeko 0 (infile g)) g in
  do _, g <-
    (if pagescmt g =? 0 then Ok tt g
     else
       let (r, g) := fcopy (pagescmt g) ignore g in
       if r =? 0 then Fatal "I/O error in header" g
       else match fgets (infile g) with
       | (None, fin) => Fatal "I/O error in header" (set_infile fin g)
       | (Some _, fin) =>
           let g := set_infile fin g in
           do _, g <-
             (if PrimFloat.ltb (-1)%float width && PrimFloat.ltb (-1)%float height then
                match int_of_double width, int_of_double height with
                | Some w, Some h =>
                    let g := writestring
                      (str "%%DocumentMedia: plain " ++ fmt_d w ++ str " "
                         ++ fmt_d h ++ str " 0 () ()" ++ [nl]) g in
                    Ok tt (writestring
                      (str "%%BoundingBox: 0 0 " ++ fmt_d w ++ str " "
                         ++ fmt_d h ++ [nl]) g)
                | _, _ => Undefined "double outside int"
                end
              else Ok tt g);
           Ok tt (writestring (str "%%Pages: " ++ fmt_d p ++ str " 0" ++ [nl]) g)
       end);
  let (r, g) := fcopy (headerpos g) ignore g in
  if r =? 0 then Fatal "I/O error in header" g else Ok tt g.

(** [writeprolog()]. *)
Definition writeprolog (g : G) : outcome unit :=
  let (r, g) := fcopy (endsetup g) None g in
  if r =? 0 then Fatal "I/O error in prologue" g else Ok tt g.

(** [writepartprolog()]; the result is [!beginprocset]. *)
Definition writepartprolog (g : G) : outcome bool :=
  do _, g <-
    (if beginprocset g =? 0 then Ok tt g
     else
       let (r, g) := fcopy (beginprocset g) None g in
       if r =? 0 then Fatal "I/O error in prologue" g else Ok tt g);
  let g := if endprocset g =? 0 then g
           else set_infile (fseeko (endprocset g) (infile g)) g in
  do _, g <- writeprolog g;
  Ok (beginprocset g =? 0) g.

(** [writesetup()]. *)
Definition writesetup (g : G) : outcome unit :=
  match load 0 (pageptr g) with
  | None => Undefined "pageptr overrun"
  | Some upto =>
      let (r, g) := fcopy upto None g in
      if r =? 0 then Fatal "I/O error in prologue" g else Ok tt g
  end.

(** The loop of [writetrailer]: line by line to the end of the input. *)
Fixpoint trailer_loop (fuel : nat) (g : G) : G :=
  match fuel with
  | O => g
  | S fuel' =>
      match fgets (infile g) with
      | (None, fin) => set_infile fin g
      | (Some buffer, fin) =>
          trailer_loop fuel' (writestring buffer (set_infile fin g))
      end
  end.

Definition writetrailer (g : G) : outcome unit :=
  match load (pages g) (pageptr g) with
  | None => Undefined "pageptr overrun"
  | Some off =>
      let g := set_infile (fseeko off (infile g)) g in
      Ok tt (trailer_loop (S (List.length (rest (infile g)))) g)
  end.

(** [writepage(p)]: the argument [p+1] of [writepageheader] only goes to
    the log; the comment carries the running count [outputpage]. *)
Definition writepage (p : Z) (g : G) : outcome unit :=
  do _, g <- seekpage p g;
  if INT_MAX <? p + 1 then Undefined "int overflow"
  else
    do _, g <- writepageheader (pagelabel g) (p + 1) g;
    writepagebody p g.

(** [writeheader(p, ignore)]. *)
Definition writeheader (p : Z) (ignore : option (list Z)) (g : G)
  : outcome unit :=
  writeheadermedia p ignore (-1)%float (-1)%float g.

(** [writeemptypage()]. *)
Definition writeemptypage (g : G) : G :=
  let g := set_outputpage (outputpage g + 1) g in
  let g := writestring (str "%%Page: * " ++ fmt_d (outputpage g) ++ [nl]) g in
  let g := if beginprocset g =? 0 then g
           else writestring (str "PStoPSxform concat" ++ [nl]) g in
  writestring (str "showpage" ++ [nl]) g.

End Writer.

(* ================================================================== *)
(** ** psspec.c: page specs, dimensions, the emitter *)

Module Psspec.
Import Copier Scanner Writer.

(** Modelled from the spec: psspec.h, with the flag macros, is not among the
    sources.  The spec gives a spec's [flags] as a subset of
    SCALE, OFFSET, ROTATE, HFLIP, VFLIP, GSAVE, ADD_NEXT, REVERSED; the
    routines below take the eight masks as a parameter [h] and test and set
    them the way the source does ([flags & M], [flags |= M]). *)
Record psspec_h := mkFlags {
  SCALE : Z; OFFSET : Z; ROTATE : Z; HFLIP : Z; VFLIP : Z; GSAVE : Z;
  ADD_NEXT : Z; REVERSED : Z
}.

(** The masks of the concrete runs.  ADD_NEXT, ROTATE, HFLIP, VFLIP, SCALE,
    OFFSET and REVERSED are seven bits; GSAVE is no bit of its own but the
    mask of the five flags that ask for a transformation,
    [ROTATE|HFLIP|VFLIP|SCALE|OFFSET].  That is what the sources need of
    it: no routine in them ORs GSAVE into a spec, and [pstops] writes no
    transformation unless [flags & GSAVE] holds. *)
Definition flag_bits : psspec_h :=
  mkFlags 16 32 2 4 8 (Z.lor 2 (Z.lor 4 (Z.lor 8 (Z.lor 16 32)))) 1 64.

(** The masks are usable as flags: none is empty and no two share a bit. *)
Definition flag_list (h : psspec_h) : list Z :=
  [SCALE h; OFFSET h; ROTATE h; HFLIP h; VFLIP h; ADD_NEXT h; REVERSED h].

Definition distinct_flags (h : psspec_h) : Prop :=
  Forall (fun m => m <> 0) (flag_list h) /\
  forall i j a b, (i < j)%nat ->
    nth_error (flag_list h) i = Some a -> nth_error (flag_list h) j = Some b ->
    Z.land a b = 0.

(** What the sources need of the mask GSAVE.  No routine in them ORs GSAVE
    into a spec, and [pstops] tests [flags & GSAVE] before it writes any of
    the transformations that OFFSET, ROTATE, HFLIP, VFLIP and SCALE ask
    for: GSAVE is the mask of those five flags. *)
Definition gsave_mask (h : psspec_h) : Prop :=
  GSAVE h
  = Z.lor (ROTATE h)
      (Z.lor (HFLIP h) (Z.lor (VFLIP h) (Z.lor (SCALE h) (OFFSET h)))).

(** [flags & M] as a condition. *)
Definition has (flags m : Z) : bool := negb (Z.land flags m =? 0).

Record PageSpec := mkSpec {
  sp_pageno : Z; sp_flags : Z; sp_rotate : Z;
  sp_xoff : float; sp_yoff : float; sp_scale : float
}.

(** [newspec()] ([malloc] is taken to succeed); the [next] link is the
    rest of the list the spec stands in. *)
Definition newspec : PageSpec := mkSpec 0 0 0 0%float 0%float 1%float.

Definition or_flag (m : Z) (s : PageSpec) : PageSpec :=
  mkSpec (sp_pageno s) (Z.lor (sp_flags s) m) (sp_rotate s)
         (sp_xoff s) (sp_yoff s) (sp_scale s).

(** *** Dimension parsing *)

(** [parseint(sp)]: the number and the rest of the string. *)
Definition parseint (s : list byte) (g : G) : outcome (Z * list byte) :=
  let num := atol s in
  let s' := snd (digits_value 0 (cstring s)) in
  if Nat.eqb (List.length s') (List.length (cstring s)) then Fatal "argerror" g
  else Ok (num, s') g.

Section Dimensions.

(** [atof] of the C library, taken as given. *)
Variable atof : list byte -> float.

(** [isdigit( *s) || *s == '-' || *s == '.'] *)
Definition number_char (c : byte) : bool :=
  isdigit c || Byte.eqb c "-"%byte || Byte.eqb c "."%byte.

(** [while (isdigit( *s) || *s == '-' || *s == '.') s++;] *)
Fixpoint number_run (s : list byte) : list byte :=
  match s with
  | [] => []
  | c :: r => if number_char c then number_run r else s
  end.

(** [parsedouble(sp)]. *)
Definition parsedouble (s : list byte) (g : G) : outcome (float * list byte) :=
  let num := atof s in
  let s' := number_run (cstring s) in
  if Nat.eqb (List.length s') (List.length (cstring s)) then Fatal "argerror" g
  else Ok (num, s') g.

(** [parsedimen(sp)]. *)
Definition parsedimen (s : list byte) (g : G) : outcome (float * list byte) :=
  do r, g <- parsedouble s g;
  let num := fst r in
  let s := snd r in
  if starts_with (str "pt") s then Ok (num, skipn 2 s) g
  else if starts_with (str "in") s then Ok ((num * 72)%float, skipn 2 s) g
  else if starts_with (str "cm") s then
    Ok ((num * 0x1.c58b162c58b16p+4)%float, skipn 2 s) g  (* 28.346456692913385211 *)
  else if starts_with (str "mm") s then
    Ok ((num * 0x1.6ad5ab56ad5abp+1)%float, skipn 2 s) g  (* 2.8346456692913385211 *)
  else if Byte.eqb (peek s) "w"%byte then
    if PrimFloat.ltb (width g) 0 then Fatal "width not set" g
    else Ok ((num * width g)%float, skipn 1 s) g
  else if Byte.eqb (peek s) "h"%byte then
    if PrimFloat.ltb (height g) 0 then Fatal "height not set" g
    else Ok ((num * height g)%float, skipn 1 s) g
  else Ok (num, s) g.

(** [singledimen(str)]. *)
Definition singledimen (s : list byte) (g : G) : outcome float :=
  do r, g <- parsedimen s g;
  match snd r with
  | [] => Ok (fst r) g
  | _ :: _ => Fatal "usage" g
  end.

End Dimensions.

(** *** The PStoPS procset *)

Definition prologue : list byte :=
     str "userdict begin[/showpage/erasepage/copypage]{dup where{pop d"
  ++ str "up load type/operatortype eq{ /PStoPSenablepage cvx 1 index "
  ++ str "load 1 array astore cvx {} bind /ifelse cvx 4 array astore c"
  ++ str "vx def}{pop}ifelse}{pop}ifelse}forall /PStoPSenablepage true"
  ++ str " def[/letter/legal/executivepage/a4/a4small/b5/com10envelope"
  ++ str "%nullify /monarchenvelope/c5envelope/dlenvelope/lettersmall/"
  ++ str "note%paper /folio/quarto/a5]{dup where{dup wcheck{exch{}put}"
  ++ str "%operators {pop{}def}ifelse}{pop}ifelse}forall/setpagedevice"
  ++ str " {pop}bind 1 index where{dup wcheck{3 1 roll put} {pop def}i"
  ++ str "felse}{def}ifelse/PStoPSmatrix matrix currentmatrix def/PSto"
  ++ str "PSxform matrix def/PStoPSclip{clippath}def/defaultmatrix{PSt"
  ++ str "oPSmatrix exch PStoPSxform exch concatmatrix}bind def/initma"
  ++ str "trix{matrix defaultmatrix setmatrix}bind def/initclip[{matri"
  ++ str "x currentmatrix PStoPSmatrix setmatrix [{currentpoint}stoppe"
  ++ str "d{$error/newerror false put{newpath}} {/newpath cvx 3 1 roll"
  ++ str "/moveto cvx 4 array astore cvx}ifelse] {[/newpath cvx{/movet"
  ++ str "o cvx}{/lineto cvx} {/curveto cvx}{/closepath cvx}pathforall"
  ++ str "]cvx exch pop} stopped{$error/errorname get/invalidaccess eq"
  ++ str "{cleartomark $error/newerror false put cvx exec}{stop}ifelse"
  ++ str "}if}bind aload pop /initclip dup load dup type dup/operatort"
  ++ str "ype eq{pop exch pop} {dup/arraytype eq exch/packedarraytype "
  ++ str "eq or  {dup xcheck{exch pop aload pop}{pop cvx}ifelse}  {pop"
  ++ str " cvx}ifelse}ifelse {newpath PStoPSclip clip newpath exec set"
  ++ str "matrix} bind aload pop]cvx def/initgraphics{initmatrix newpa"
  ++ str "th initclip 1 setlinewidth 0 setlinecap 0 setlinejoin []0 se"
  ++ str "tdash 0 setgray 10 setmiterlimit}bind defend"
  ++ [nl].

Definition xform_line : list byte :=
  str "userdict/PStoPSxform PStoPSmatrix matrix currentmatrix"
  ++ str " matrix invertmatrix matrix concatmatrix"
  ++ str " matrix invertmatrix put" ++ [nl].

(** *** The emitter *)

(** [if (writepartprolog()) { writestring("userdict/PStoPSxform ..."); }] *)
Definition write_prolog_xform (g : G) : outcome unit :=
  do w, g <- writepartprolog g;
  Ok tt (if w then writestring xform_line g else g).

(** [int] arithmetic: [None] is a result outside [int] or a division by
    zero, which C leaves undefined. *)
Definition in_int (n : Z) : option Z :=
  if (INT_MIN <=? n) && (n <=? INT_MAX) then Some n else None.

Definition int_div (a b : Z) : option Z :=
  if b =? 0 then None else in_int (Z.quot a b).

Definition opt_bind {A B} (o : option A) (k : A -> option B) : option B :=
  match o with Some a => k a | None => None end.

(** [((pages+modulo-1)/modulo)*modulo]. *)
Definition maxpage_of (pages modulo : Z) : option Z :=
  opt_bind (in_int (pages + modulo)) (fun a =>
  opt_bind (in_int (a - 1)) (fun b =>
  opt_bind (int_div b modulo) (fun q =>
  in_int (q * modulo)))).

Section Emitter.

Variable h : psspec_h.

(** The page a spec stands for in the group that starts at [thispg]. *)
Definition actual_page (maxpage thispg modulo : Z) (ps : PageSpec) : Z :=
  if has (sp_flags ps) (REVERSED h)
  then maxpage - thispg - modulo + sp_pageno ps
  else thispg + sp_pageno ps.

(** The [do .. while] that writes the label: [np] runs along the list for
    as long as ADD_NEXT is set and there is a next spec. *)
Fixpoint label_chain (sep : byte) (maxpage thispg modulo : Z)
    (nps : list PageSpec) : list byte :=
  match nps with
  | [] => []
  | np :: rest =>
      sep :: fmt_d (actual_page maxpage thispg modulo np)
        ++ (if has (sp_flags np) (ADD_NEXT h)
            then label_chain ","%byte maxpage thispg modulo rest
            else [])
  end.

(** The statements under [if (ps->flags & GSAVE)]. *)
Definition write_transform (ps : PageSpec) (draw : float) (g : G) : G :=
  let g := writestring (str "PStoPSmatrix setmatrix" ++ [nl]) g in
  let g := if has (sp_flags ps) (OFFSET h)
           then writestringf (fmt_f (sp_xoff ps) ++ str " "
                                ++ fmt_f (sp_yoff ps) ++ str " translate"
                                ++ [nl]) g
           else g in
  let g := if has (sp_flags ps) (ROTATE h)
           then writestringf (fmt_d (sp_rotate ps) ++ str " rotate" ++ [nl]) g
           else g in
  let g := if has (sp_flags ps) (HFLIP h)
           then writestringf (str "[ -1 0 0 1 "
                                ++ fmt_f (width g * sp_scale ps)%float
                                ++ str " 0 ] concat" ++ [nl]) g
           else g in
  let g := if has (sp_flags ps) (VFLIP h)
           then writestringf (str "[ 1 0 0 -1 0 "
                                ++ fmt_f (height g * sp_scale ps)%float
                                ++ str " ] concat" ++ [nl]) g
           else g in
  let g := if has (sp_flags ps) (SCALE h)
           then writestringf (fmt_f (sp_scale ps) ++ str " dup scale" ++ [nl]) g
           else g in
  let g := writestring
             (str "userdict/PStoPSmatrix matrix currentmatrix put" ++ [nl]) g in
  if PrimFloat.ltb 0 (width g) && PrimFloat.ltb 0 (height g) then
    let g := writestringf
               (str "userdict/PStoPSclip{0 0 moveto " ++ fmt_f (width g)
                  ++ str " 0 rlineto 0 " ++ fmt_f (height g)
                  ++ str " rlineto -" ++ fmt_f (width g)
                  ++ str " 0 rlineto closepath}put initclip" ++ [nl]) g in
    if PrimFloat.ltb 0 draw
    then writestringf
           (str "gsave clippath 0 setgray " ++ fmt_f draw
              ++ str " setlinewidth stroke grestore" ++ [nl]) g
    else g
  else g.

(** What is written for a page that is not in the input.  The source has
    the literal ["PStoPSxform concat\] continued on the next line with
    [showpage\n"]: the backslash joins the two lines of the literal. *)
Definition blank_page_text : list byte :=
  str "PStoPSxform concat" ++ str "showpage" ++ [nl].

(** The body of the loop over the specs, for the spec [ps] followed by
    [rest].  The locals are [add_last] and [pageindex]. *)
Definition emit_spec (maxpage thispg modulo : Z) (draw : float)
    (ps : PageSpec) (rest : list PageSpec) (add_last : bool) (pageindex : Z)
    (g : G) : outcome (bool * Z) :=
  let actualpg := actual_page maxpage thispg modulo ps in
  do _, g <- (if actualpg <? pages g then seekpage actualpg g else Ok tt g);
  do pageindex, g <-
    (if add_last then Ok pageindex g
     else
       let label := label_chain "("%byte maxpage thispg modulo (ps :: rest)
                      ++ str ")" in
       if BUFSIZ <=? len label then Undefined "pagelabel overrun"
       else
         let g := set_pagelabel label g in
         do _, g <- writepageheader (pagelabel g) (pageindex + 1) g;
         Ok (pageindex + 1) g);
  let g := writestring (str "userdict/PStoPSsaved save put" ++ [nl]) g in
  let g := if has (sp_flags ps) (GSAVE h) then write_transform ps draw g
           else g in
  let add_last := has (sp_flags ps) (ADD_NEXT h) in
  let g := if add_last
           then writestring (str "/PStoPSenablepage false def" ++ [nl]) g
           else g in
  do _, g <-
    (if actualpg <? pages g then
       do _, g <- writepagesetup g;
       let g := writestring (str "PStoPSxform concat" ++ [nl]) g in
       writepagebody actualpg g
     else Ok tt (writestring blank_page_text g));
  Ok (add_last, pageindex) (writestring (str "PStoPSsaved restore" ++ [nl]) g).

(** [for (ps = specs; ps != NULL; ps = ps->next)]. *)
Fixpoint spec_loop (maxpage thispg modulo : Z) (draw : float)
    (specs : list PageSpec) (add_last : bool) (pageindex : Z) (g : G)
  : outcome Z :=
  match specs with
  | [] => Ok pageindex g
  | ps :: rest =>
      do r, g <- emit_spec maxpage thispg modulo draw ps rest add_last
                   pageindex g;
      spec_loop maxpage thispg modulo draw rest (fst r) (snd r) g
  end.

(** [for (thispg = 0; thispg < maxpage; thispg += modulo)].  With
    [modulo >= 1] the loop is over after [maxpage] turns at most
    ([page_loop_fuel]); with a negative [modulo] it only stops when [thispg]
    leaves [int]. *)
Fixpoint page_loop (fuel : nat) (maxpage thispg modulo : Z) (draw : float)
    (specs : list PageSpec) (pageindex : Z) (g : G) : outcome unit :=
  if thispg <? maxpage then
    match fuel with
    | O => Undefined "thispg leaves int"
    | S fuel' =>
        do pageindex, g <- spec_loop maxpage thispg modulo draw specs false
                             pageindex g;
        page_loop fuel' maxpage (thispg + modulo) modulo draw specs
                  pageindex g
    end
  else Ok tt g.

(** [pstops(modulo, pps, nobind, specs, draw, ignorelist)]. *)
Definition pstops (modulo pps : Z) (nobind : bool) (specs : list PageSpec)
    (draw : float) (ignorelist : option (list Z)) (g : G) : outcome unit :=
  match maxpage_of (pages g) modulo with
  | None => Undefined "maxpage"
  | Some maxpage =>
      match opt_bind (int_div maxpage modulo) (fun q => in_int (q * pps)) with
      | None => Undefined "page count"
      | Some total =>
          do _, g <- writeheadermedia total ignorelist (width g) (height g) g;
          let g := writestring (str "%%BeginProcSet: PStoPS") g in
          let g := if nobind then writestring (str "-nobind") g else g in
          let g := writestring (str " 1 15" ++ [nl]) g in
          let g := writestring prologue g in
          let g := if nobind then writestring (str "/bind{}def" ++ [nl]) g
                   else g in
          let g := writestring (str "%%EndProcSet" ++ [nl]) g in
          do _, g <- write_prolog_xform g;
          do _, g <- writesetup g;
          do _, g <- page_loop (Z.to_nat maxpage) maxpage 0 modulo draw specs
                       0 g;
          writetrailer g
      end
  end.

End Emitter.

End Psspec.

(* ================================================================== *)
(** ** psnup.c *)

Module Psnup.
Import Copier Scanner Writer Psspec.

(** The loop of [nextdiv]: [while (++n <= m) if (m % n == 0) return n;].
    [n] grows by one a turn, so [m - n] turns are all the loop can make. *)
Fixpoint nextdiv_loop (fuel : nat) (n m : Z) : Z :=
  match fuel with
  | O => 0
  | S fuel' =>
      let n := n + 1 in
      if n <=? m then
        if Z.rem m n =? 0 then n else nextdiv_loop fuel' n m
      else 0
  end.

(** [nextdiv(n, m)]: the next larger exact divisor of [m], or 0. *)
Definition nextdiv (n m : Z) : Z := nextdiv_loop (Z.to_nat (m - n)) n m.

(** [MIN] of minmax.h. *)
Definition MIN (a b : float) : float := if PrimFloat.ltb a b then a else b.

(** What the options leave behind. *)
Record config := mkConfig {
  nup : Z;
  draw : float;
  uscale : float;
  margin : float;
  border : float;
  tolerance : float;
  column : bool;
  flip : bool;
  leftright : bool;
  topbottom : bool
}.

(** The options' defaults, for [nup] pages a sheet. *)
Definition default_config (n : Z) : config :=
  mkConfig n 0 0 0 0 100000 false false true true.

(** The locals the layout search sets. *)
Record layout := mkLayout {
  best : float;
  scale : float;
  hshift : float;
  vshift : float;
  horiz : Z;
  vert : Z;
  rotate : bool
}.

Section Layout.

Variable cfg : config.
Variables ppwid pphgt : float.
(** The globals [width] and [height]. *)
Variables width height : float.

Local Open Scope float_scope.

(** The body of the search loop for the divisor [hor]. *)
Definition try_layout (hor : Z) (l : layout) : layout :=
  let ver := Z.quot (nup cfg) hor in
  let dhor := double_of_Z hor in
  let dver := double_of_Z ver in
  (* try normal orientation first *)
  let scl := MIN (pphgt / (height * dver)) (ppwid / (width * dhor)) in
  let optim := (ppwid - scl * width * dhor) * (ppwid - scl * width * dhor)
             + (pphgt - scl * height * dver) * (pphgt - scl * height * dver) in
  let l :=
    if PrimFloat.ltb optim (best l) then
      let scale := MIN ((pphgt - 2 * border cfg * dver) / (height * dver))
                       ((ppwid - 2 * border cfg * dhor) / (width * dhor)) in
      mkLayout optim scale
        ((ppwid / dhor - width * scale) / 2)
        ((pphgt / dver - height * scale) / 2)
        (to_int hor) (to_int ver) (flip cfg)
    else l in
  (* try rotated orientation *)
  let scl := MIN (pphgt / (width * dhor)) (ppwid / (height * dver)) in
  let optim := (pphgt - scl * width * dhor) * (pphgt - scl * width * dhor)
             + (ppwid - scl * height * dver) * (ppwid - scl * height * dver) in
  if PrimFloat.ltb optim (best l) then
    let scale := MIN ((pphgt - 2 * border cfg * dhor) / (width * dhor))
                     ((ppwid - 2 * border cfg * dver) / (height * dver)) in
    mkLayout optim scale
      ((ppwid / dver - height * scale) / 2)
      ((pphgt / dhor - width * scale) / 2)
      (to_int ver) (to_int hor) (negb (flip cfg))
  else l.

Local Close Scope float_scope.

(** [for (hor = 1; hor; hor = nextdiv(hor, nup))].  [hor] grows every
    turn and [nextdiv] gives 0 past [nup]. *)
Fixpoint search (fuel : nat) (hor : Z) (l : layout) : layout :=
  if hor =? 0 then l
  else match fuel with
  | O => l
  | S fuel' => search fuel' (nextdiv hor (nup cfg)) (try_layout hor l)
  end.

Definition find_layout : layout :=
  search (S (Z.to_nat (nup cfg))) 1
         (mkLayout (tolerance cfg) 1 0 0 0 0 false).

End Layout.

Section Builder.

Variable h : psspec_h.
(** The loop reads [nup], [uscale] and [margin] of the options; the
    traversal flags are the ones left after the rotation exchange. *)
Variable cfg : config.
Variables ppwid pphgt : float.
Variable l : layout.
Variables column leftright topbottom : bool.

(** [across] and [up] for [page]. *)
Definition across_of (page : Z) : Z :=
  if column
  then if leftright then Z.quot page (vert l)
       else horiz l - 1 - Z.quot page (vert l)
  else if leftright then Z.rem page (horiz l)
       else horiz l - 1 - Z.rem page (horiz l).

Definition up_of (page : Z) : Z :=
  if column
  then if topbottom then vert l - 1 - Z.rem page (vert l)
       else Z.rem page (vert l)
  else if topbottom then vert l - 1 - Z.quot page (horiz l)
       else Z.quot page (horiz l).

Local Open Scope float_scope.

(** The assignments to [*tail] up to [tail->flags |= OFFSET]. *)
Definition fill_spec (page : Z) (tail : PageSpec) : PageSpec :=
  let across := across_of page in
  let up := up_of page in
  let tail :=
    if rotate l then
      mkSpec (sp_pageno tail) (Z.lor (sp_flags tail) (ROTATE h)) 90
        (margin cfg + double_of_Z (across + 1) * ppwid / double_of_Z (horiz l)
           - hshift l)
        (sp_yoff tail) (sp_scale tail)
    else
      mkSpec (sp_pageno tail) (sp_flags tail) (sp_rotate tail)
        (margin cfg + double_of_Z across * ppwid / double_of_Z (horiz l)
           + hshift l)
        (sp_yoff tail) (sp_scale tail) in
  let tail :=
    mkSpec (to_int page) (Z.lor (sp_flags tail) (SCALE h)) (sp_rotate tail)
      (sp_xoff tail) (sp_yoff tail)
      (if PrimFloat.ltb 0 (uscale cfg) then uscale cfg else scale l) in
  mkSpec (sp_pageno tail) (Z.lor (sp_flags tail) (OFFSET h)) (sp_rotate tail)
    (sp_xoff tail)
    (margin cfg + double_of_Z up * pphgt / double_of_Z (vert l) + vshift l)
    (sp_scale tail).

Local Close Scope float_scope.

(** [for (page = 0; page < nup; )] with [tail] the spec being filled; the
    result is the list from [tail] on.  [page] grows by one a turn. *)
Fixpoint build_from (fuel : nat) (page : Z) (tail : PageSpec)
  : list PageSpec :=
  if page <? nup cfg then
    match fuel with
    | O => [tail]
    | S fuel' =>
        let tail := fill_spec page tail in
        if page + 1 <? nup cfg
        then or_flag (ADD_NEXT h) tail :: build_from fuel' (page + 1) newspec
        else [tail]
    end
  else [tail].

(** The list [specs] after the loop. *)
Definition build_specs : list PageSpec :=
  build_from (Z.to_nat (nup cfg)) 0 newspec.

(** The cells the loop divides by are not zero. *)
Definition cells_defined : bool :=
  (nup cfg <=? 0) || (negb (horiz l =? 0) && negb (vert l =? 0)).

End Builder.

(** [if (rotate) { ... }]: [column], [leftright] and [topbottom] after the
    exchange for a rotated layout. *)
Definition traversal (cfg : config) (l : layout) : bool * bool * bool :=
  if rotate l
  then (negb (column cfg), topbottom cfg, negb (leftright cfg))
  else (column cfg, leftright cfg, topbottom cfg).

(** The list [specs] that [main] hands to [pstops]. *)
Definition main_specs (h : psspec_h) (cfg : config) (ppwid pphgt : float)
    (l : layout) : list PageSpec :=
  let '(column', leftright', topbottom') := traversal cfg l in
  build_specs h cfg ppwid pphgt l column' leftright' topbottom'.

(** [main] from the subtraction of the margins on, for the options in
    [cfg], the input page size options [iwidth], [iheight], and
    [sizeheaders] of 20 cells.  What [main] does before (the option loop,
    the paper size look-up, the opening of the two files) only fills [cfg]
    and [g]. *)
Definition run (h : psspec_h) (cfg : config) (iwidth iheight : float)
    (g : G) : outcome unit :=
  let ppwid := (width g - margin cfg * 2)%float in
  let pphgt := (height g - margin cfg * 2)%float in
  if PrimFloat.leb ppwid 0 || PrimFloat.leb pphgt 0
  then Fatal "paper margins are too large" g
  else
    do sizeheaders, g <- scanpages (Some 20) g;
    let g := if PrimFloat.ltb 0 iwidth && PrimFloat.eqb (width g) (-1)
             then set_width iwidth g else g in
    let g := if PrimFloat.ltb 0 iheight && PrimFloat.eqb (height g) (-1)
             then set_height iheight g else g in
    let l := find_layout cfg ppwid pphgt (width g) (height g) in
    if PrimFloat.eqb (best l) (tolerance cfg)
    then Fatal "can't find acceptable layout" g
    else
      let g := if flip cfg
               then set_height (width g) (set_width (height g) g) else g in
      if cells_defined cfg l then
        pstops h (to_int (nup cfg)) 1 false (main_specs h cfg ppwid pphgt l)
               (draw cfg) (Some sizeheaders) g
      else Undefined "division by zero".

End Psnup.

(* ================================================================== *)
(** ** Vocabulary of the statements *)

Import Copier Scanner Writer Psspec Psnup.

(** A state a run can reach: the cursor and the room are not negative. *)
Definition wf (g : G) : Prop := 0 <= fpos (infile g) /\ 0 <= room (outfile g).

(** [g] after the bytes [w] went to the output, with the input cursor at
    [p]. *)
Definition after (g : G) (p : Z) (w : list byte) : G :=
  set_bytes (bytes g + len w)
    (set_outfile {| written := written (outfile g) ++ w;
                    room := room (outfile g) - len w |}
       (set_infile {| content := content (infile g); fpos := p |} g)).

(** [n] bytes of [c] from the offset [a]. *)
Definition slice (c : list byte) (a n : Z) : list byte :=
  firstn (Z.to_nat n) (from a c).

(** The bytes of [c] at the offsets [a], .., [b - 1]. *)
Definition between (c : list byte) (a b : Z) : list byte :=
  firstn (Z.to_nat (b - a)) (from a c).

(** An ignore list as [fcopy] expects it: offsets in ascending order, all
    positive (the array ends at its first 0). *)
Definition ascending (ign : list Z) : Prop :=
  StronglySorted Z.le ign /\ Forall (fun e => 0 < e) ign.

(** The offsets of an [ignorelist] argument; a NULL pointer has none. *)
Definition entries (ignorelist : option (list Z)) : list Z :=
  match ignorelist with Some l => l | None => [] end.

(** The two loops of [fcopy] after the first skip. *)
Definition fcopy_from (fuel : nat) (ign : list Z) (upto : Z) (g : G) : Z * G :=
  let (r, g1) := ignore_loop fuel ign upto g in
  if r =? 0 then (0, g1) else fcopy_plain upto g1.

(** No read and no write falls short on the way to [upto]: the input
    reaches [upto] (or nothing is to be read) and the output has room for
    the bytes [w]. *)
Definition can_copy (upto : Z) (g : G) (w : list byte) : Prop :=
  (upto <= fpos (infile g) \/ upto <= len (content (infile g)))
  /\ len w <= room (outfile g).

(** What the routines of the emitter leave alone, and how the output
    grows: [d] is the number of [%%Page:] comments written. *)
Record frame (d : Z) (g g' : G) : Prop := mkFrame {
  fr_pages : pages g' = pages g;
  fr_pagescmt : pagescmt g' = pagescmt g;
  fr_outputpage : outputpage g' = outputpage g + d;
  fr_written : exists t, written (outfile g') = written (outfile g) ++ t;
  fr_room : room (outfile g') <= room (outfile g);
  fr_room0 : 0 <= room (outfile g) -> 0 <= room (outfile g')
}.

(** One group: every spec but the last has ADD_NEXT. *)
Fixpoint one_group (h : psspec_h) (specs : list PageSpec) : Prop :=
  match specs with
  | [] => False
  | [ps] => has (sp_flags ps) (ADD_NEXT h) = false
  | ps :: rest => has (sp_flags ps) (ADD_NEXT h) = true /\ one_group h rest
  end.

(** The rewritten [%%Pages:] comment. *)
Definition pages_line (p : Z) : list byte :=
  str "%%Pages: " ++ fmt_d p ++ str " 0" ++ [nl].

Definition no_nul (l : list byte) : bool :=
  forallb (fun x => negb (Byte.eqb x NUL)) l.

(** The spec the builder makes for [page]. *)
Definition nth_spec (h : psspec_h) (cfg : config) (ppwid pphgt : float)
    (l : layout) (column leftright topbottom : bool) (page : Z) : PageSpec :=
  if page + 1 <? nup cfg
  then or_flag (ADD_NEXT h)
         (fill_spec h cfg ppwid pphgt l column leftright topbottom page newspec)
  else fill_spec h cfg ppwid pphgt l column leftright topbottom page newspec.

(** The flags word the builder leaves in a spec. *)
Definition built_flags (h : psspec_h) (rot last : bool) : Z :=
  Z.lor (Z.lor (Z.lor (Z.lor 0 (if rot then ROTATE h else 0)) (SCALE h))
               (OFFSET h))
        (if last then 0 else ADD_NEXT h).

(** The line at the head of [l], through its newline. *)
Fixpoint whole_line (l : list byte) : list byte :=
  match l with
  | [] => []
  | b :: r => if Byte.eqb b nl then [b] else b :: whole_line r
  end.

(** The copier in the words of the specification, to compare [fcopy]
    with: walk the positions from [here] up to [upto]; a position that is
    an ignored offset starts a dropped line, the whole line through its
    newline, however long; every other position outside a dropped line is
    copied. *)
Fixpoint drop_lines_from (c : list byte) (ign : list Z) (n : nat) (pos : Z)
    (skip : Z) : list byte :=
  match n with
  | O => []
  | S n' =>
      if 0 <? skip then drop_lines_from c ign n' (pos + 1) (skip - 1)
      else if existsb (Z.eqb pos) ign
      then drop_lines_from c ign n' (pos + 1)
             (len (whole_line (from pos c)) - 1)
      else firstn 1 (from pos c) ++ drop_lines_from c ign n' (pos + 1) 0
  end.

Definition drop_lines (c : list byte) (ign : list Z) (here upto : Z)
  : list byte :=
  drop_lines_from c ign (Z.to_nat (upto - here)) here 0.

(** The page table has a free cell after the pages counted so far. *)
Definition table_ok (g : G) : Prop :=
  1 <= maxpages g /\ Z.of_nat (List.length (pageptr g)) = maxpages g
  /\ 0 <= pages g <= maxpages g - 1.

(** What the scan keeps true of the procset marks: [endprocset] is an
    offset already read, and it is only recorded after [beginprocset]. *)
Definition procset_ok (g : G) : Prop :=
  0 <= endprocset g <= fpos (infile g)
  /\ (beginprocset g = 0 -> endprocset g = 0).

(** A layout that is a grid for [n] pages, or the one the search starts
    from. *)
Definition grid_or_none (n : Z) (l : layout) : Prop :=
  (horiz l = 0 /\ vert l = 0) \/ (0 < horiz l /\ horiz l * vert l = n).

(** *** Concrete runs *)

Module Scenario.

(** Four A4 pages. *)
Definition doc4 : list byte := str "%!PS-Adobe-3.0
%%Pages: 4
%%BoundingBox: 0 0 595 842
%%EndComments
%%BeginProlog
/x 1 def
%%EndProlog
%%BeginSetup
%%EndSetup
%%Page: 1 1
(p1) show showpage
%%Page: 2 2
(p2) show showpage
%%Page: 3 3
(p3) show showpage
%%Page: 4 4
(p4) show showpage
%%Trailer
%%EOF
".

(** One page. *)
Definition doc1 : list byte := str "%!PS-Adobe-3.0
%%Pages: 1
%%EndComments
%%Page: 1 1
(p1) show showpage
%%Trailer
".

(** Three pages. *)
Definition doc3 : list byte := str "%!PS-Adobe-3.0
%%Pages: 3
%%EndComments
%%Page: 1 1
(p1) show showpage
%%Page: 2 2
(p2) show showpage
%%Page: 3 3
(p3) show showpage
%%Trailer
".

(** One page that went through the emitter before: the prolog holds a
    PStoPS procset. *)
Definition doc_chained : list byte := str "%!PS-Adobe-3.0
%%Pages: 1
%%EndComments
%%BeginProlog
%%BeginProcSet: PStoPS 1 15
userdict begin end
%%EndProcSet
/x 1 def
%%EndProlog
%%BeginSetup
%%EndSetup
%%Page: (0) 1
userdict/PStoPSsaved save put
PStoPSxform concat
(p1) show showpage
PStoPSsaved restore
%%Trailer
".

(** One page, and no [%%Pages:] comment in the header. *)
Definition doc_bare : list byte := str "%!PS-Adobe-3.0
%%BoundingBox: 0 0 10 10
%%EndComments
%%Page: 1 1
showpage
".

(** A header whose [%%BoundingBox:] line, at offset 5, has 8215 bytes:
    more than one [fgets] of a [BUFSIZ]-byte buffer takes. *)
Definition doc_long_line : list byte :=
  str "%!PS" ++ [nl] ++ str "%%BoundingBox:" ++ repeat "0"%byte (Z.to_nat 8200) ++ [nl]
    ++ str "%%EndComments" ++ [nl].

(** The state [main] starts from with the input [c] and A4 output; every
    allocation is granted. *)
Definition start (c : list byte) : G :=
  mkG {| content := c; fpos := 0 |} {| written := []; room := 100000 |}
      0 0 0 0 0 0 0 100 [] 0 [] 0 595 842 (fun _ => true).

Definition state_of {A} (o : outcome A) (g0 : G) : G :=
  match o with Ok _ g => g | Fatal _ g => g | Undefined _ => g0 end.

Definition output {A} (o : outcome A) : list byte :=
  match o with
  | Ok _ g => written (outfile g)
  | Fatal _ g => written (outfile g)
  | Undefined _ => []
  end.

Definition finished {A} (o : outcome A) : bool :=
  match o with Ok _ _ => true | _ => false end.

Fixpoint lines_from (cur : list byte) (l : list byte) : list (list byte) :=
  match l with
  | [] => match cur with [] => [] | _ => [rev cur] end
  | b :: r => if Byte.eqb b nl then rev cur :: lines_from [] r
              else lines_from (b :: cur) r
  end.

Definition lines (l : list byte) : list (list byte) := lines_from [] l.

(** The [%%Page:] comments of an output. *)
Definition page_comments (out : list byte) : list (list byte) :=
  filter (starts_with (str "%%Page:")) (lines out).

Fixpoint contains (needle hay : list byte) : bool :=
  starts_with needle hay
  || match hay with [] => false | _ :: r => contains needle r end.

(** [psnup -2 -pa4] on [c]. *)
Definition psnup_2 (c : list byte) : outcome unit :=
  run flag_bits (default_config 2) (-1) (-1) (start c).

(** The layout [psnup -N -pa4] chooses. *)
Definition a4_layout (n : Z) : layout :=
  find_layout (default_config n) 595 842 595 842.

(** The specs [psnup -N -pa4] builds. *)
Definition a4_specs (n : Z) : list PageSpec :=
  main_specs flag_bits (default_config n) 595 842 (a4_layout n).

(** The state after the scan of [c]. *)
Definition scanned (c : list byte) : G :=
  state_of (scanpages (Some 20) (start c)) (start c).

End Scenario.


(* ================================================================== *)
(** ** Vocabulary of the further properties *)

(** The exact divisors of [n] among [a], [a+1], .., [a+count-1], in
    ascending order. *)
Definition divisors_in (n : Z) (a count : nat) : list Z :=
  filter (fun d => Z.rem n d =? 0) (map Z.of_nat (seq a count)).

(** The exact divisors of [n], in ascending order. *)
Definition divisors (n : Z) : list Z := divisors_in n 1 (Z.to_nat n).

(** The offsets of the pages counted so far: the first [pages] cells of
    the page table. *)
Definition page_offsets (g : G) : list Z :=
  firstn (Z.to_nat (pages g)) (pageptr g).

(** A line that opens with a given DSC comment. *)
Definition dsc (line : list byte) (keyword : string) : bool :=
  starts_with (str "%%") line && iscomment (skipn 2 line) keyword.

(** The header comments whose offsets the scan hands to [sizeheaders]. *)
Definition size_comment (line : list byte) : bool :=
  dsc line "BoundingBox:" || dsc line "HiResBoundingBox:"
  || dsc line "DocumentPaperSizes:" || dsc line "DocumentMedia:".

(** What the scanning loop keeps true with the cursor at [pos]: the page
    table has room, the page offsets and the size header offsets ascend,
    every one is the offset of a line already read that opens with its
    comment, and a size header lies before the end of the header. *)
Record scan_inv (c : list byte) (pos : Z) (l : locals) (g : G) : Prop := {
  si_content : content (infile g) = c;
  si_pos : 0 <= pos <= len c;
  si_table : table_ok g;
  si_sorted : StronglySorted Z.lt (page_offsets g);
  si_pages : Forall (fun r => 0 <= r < pos /\ dsc (line_at c r) "Page:" = true)
                    (page_offsets g);
  si_sizes_sorted : StronglySorted Z.lt (szs l);
  si_sizes : Forall (fun r => 0 <= r < pos /\ size_comment (line_at c r) = true
                              /\ (headerpos g <> 0 -> r < headerpos g))
                    (szs l);
  si_cap : forall cap, szcap l = Some cap ->
             Z.of_nat (List.length (szs l)) < cap
}.

(** The value of a decimal numeral read digit by digit after [acc]. *)
Fixpoint uint_value (acc : Z) (u : Decimal.uint) : Z :=
  match u with
  | Decimal.Nil => acc
  | Decimal.D0 l => uint_value (acc * 10 + 0) l
  | Decimal.D1 l => uint_value (acc * 10 + 1) l
  | Decimal.D2 l => uint_value (acc * 10 + 2) l
  | Decimal.D3 l => uint_value (acc * 10 + 3) l
  | Decimal.D4 l => uint_value (acc * 10 + 4) l
  | Decimal.D5 l => uint_value (acc * 10 + 5) l
  | Decimal.D6 l => uint_value (acc * 10 + 6) l
  | Decimal.D7 l => uint_value (acc * 10 + 7) l
  | Decimal.D8 l => uint_value (acc * 10 + 8) l
  | Decimal.D9 l => uint_value (acc * 10 + 9) l
  end.

(** The numbers [first], [first+1], .. ([n] of them) as a page label
    holds them: the first after [sep], the others after commas. *)
Fixpoint label_numbers (sep : byte) (first : Z) (n : nat) : list byte :=
  match n with
  | O => []
  | S n' => sep :: fmt_d first ++ label_numbers ","%byte (first + 1) n'
  end.

(** [n] lines of [c] from the offset [pos] on, as [fgets] takes them. *)
Fixpoint lines_at (n : nat) (c : list byte) (pos : Z) : list (list byte) :=
  match n with
  | O => []
  | S n' => line_at c pos :: lines_at n' c (pos + len (line_at c pos))
  end.

(** The comment [writepageheader] writes for [label] and the count [n]. *)
Definition page_comment (label : list byte) (n : Z) : list byte :=
  str "%%Page: " ++ label ++ str " " ++ fmt_d n ++ [nl].

(** The label [pstops] composes for the sheet of the [n] pages from
    [thispg] on. *)
Definition sheet_label (thispg : Z) (n : nat) : list byte :=
  label_numbers "("%byte thispg n ++ str ")".

(** The text of consecutive sheets: each opens with its page comment, the
    label that of the group of [modulo] pages it holds, the number one more
    than the sheet before it; [bodies] are the texts that follow the
    comments. *)
Fixpoint sheets (label : Z -> list byte) (count thispg modulo : Z)
    (bodies : list (list byte)) : list byte :=
  match bodies with
  | [] => []
  | b :: r =>
      page_comment (label thispg) (count + 1) ++ b
        ++ sheets label (count + 1) (thispg + modulo) modulo r
  end.

(** A label that is one word: not empty, no white space, no NUL, and no
    opening parenthesis at its head. *)
Definition word_label_ok (label : list byte) : bool :=
  negb (Nat.eqb (List.length label) 0)
  && negb (Byte.eqb (peek label) "("%byte)
  && forallb (fun c => negb (isspace c) && negb (Byte.eqb c NUL)) label.

(** The inside of a label in parentheses, as [pstops] writes it: no NUL
    and no parenthesis. *)
Definition paren_body_ok (body : list byte) : bool :=
  forallb (fun c => negb (Byte.eqb c NUL) && negb (Byte.eqb c "("%byte)
                    && negb (Byte.eqb c ")"%byte)) body.

(** The two size comments [writeheadermedia] writes for a paper of [w] by
    [h] points. *)
Definition media_lines (w h : Z) : list byte :=
  (str "%%DocumentMedia: plain " ++ fmt_d w ++ str " " ++ fmt_d h
     ++ str " 0 () ()" ++ [nl])
  ++ (str "%%BoundingBox: 0 0 " ++ fmt_d w ++ str " " ++ fmt_d h ++ [nl]).

(** The state after the scan of [c] and [seekpage(p)]. *)
Definition at_page (c : list byte) (p : Z) : G :=
  Scenario.state_of (seekpage p (Scenario.scanned c)) (Scenario.scanned c).

(** The procset [pstops] writes after the header; [-nobind] adds the two
    texts that disable [bind]. *)
Definition procset_text (nobind : bool) : list byte :=
  str "%%BeginProcSet: PStoPS" ++ (if nobind then str "-nobind" else [])
  ++ (str " 1 15" ++ [nl]) ++ prologue
  ++ (if nobind then str "/bind{}def" ++ [nl] else [])
  ++ (str "%%EndProcSet" ++ [nl]).
(* ================================================================== *)
(** ** Proofs *)

(** *** Lists, lengths and the chunk loop *)

Lemma len_nonneg l : 0 <= len l.
Proof. unfold len. lia. Qed.

Lemma len_app a b : len (a ++ b) = len a + len b.
Proof. unfold len. rewrite length_app. lia. Qed.

Lemma len_firstn n l : 0 <= n -> len (firstn (Z.to_nat n) l) = Z.min n (len l).
Proof. intros. unfold len. rewrite length_firstn. lia. Qed.

Lemma len_from p c : 0 <= p -> len (from p c) = Z.max 0 (len c - p).
Proof. intros. unfold len, from. rewrite length_skipn. lia. Qed.

Lemma from_add p a c : 0 <= p -> 0 <= a -> from (p + a) c = skipn (Z.to_nat a) (from p c).
Proof.
  intros. unfold from. rewrite skipn_skipn. f_equal. lia.
Qed.

Lemma firstn_plus {A} (a b : nat) (l : list A) :
  firstn (a + b) l = firstn a l ++ firstn b (skipn a l).
Proof.
  revert l; induction a as [|a IH]; intros [|x l]; cbn [Nat.add firstn skipn app];
    try reflexivity.
  - now destruct b.
  - now rewrite IH.
Qed.

Ltac fields := cbn [infile outfile bytes pagescmt headerpos endsetup beginprocset
  endprocset outputpage maxpages pageptr pages pagelabel pageno width height
  memory
  content fpos written room set_infile set_outfile set_bytes set_pagescmt
  set_headerpos set_endsetup set_beginprocset set_endprocset set_outputpage
  set_maxpages set_pageptr set_pages set_pagelabel set_pageno set_width
  set_height] in *.

Lemma after_id g : after g (fpos (infile g)) [] = g.
Proof.
  destruct g as [[c p] [w r] b]. unfold after. fields.
  rewrite app_nil_r. change (len []) with 0. rewrite Z.sub_0_r, Z.add_0_r. reflexivity.
Qed.

Lemma after_after g p w q v : after (after g p w) q v = after g q (w ++ v).
Proof.
  destruct g as [[c p0] [w0 r] b]. unfold after. fields.
  rewrite len_app, app_assoc. f_equal. all: try lia. f_equal. lia.
Qed.

Lemma copy_chunks_spec fuel : forall bl g,
  wf g -> (Z.to_nat bl <= fuel)%nat ->
  let n := Z.max 0 bl in
  (n <= len (rest (infile g)) /\ n <= room (outfile g) ->
     copy_chunks fuel bl g = (1, after g (fpos (infile g) + n) (slice (content (infile g)) (fpos (infile g)) n)))
  /\ (~ (n <= len (rest (infile g)) /\ n <= room (outfile g)) ->
     fst (copy_chunks fuel bl g) = 0).
Proof.
  induction fuel as [|fuel IH]; intros bl g [Hp Hr] Hf n.
  - assert (bl <= 0) by lia. assert (n = 0) by lia.
    cbn [copy_chunks]. destruct (Z.leb_spec bl 0); try lia.
    split.
    + intros _. replace n with 0 by lia. rewrite Z.add_0_r. unfold slice. cbn [Z.to_nat firstn].
      now rewrite after_id.
    + intros Hn. exfalso. apply Hn. pose proof (len_nonneg (rest (infile g))). lia.
  - cbn [copy_chunks]. destruct (Z.leb_spec bl 0) as [Hle|Hgt].
    + assert (n = 0) by lia. split.
      * intros _. replace n with 0 by lia. rewrite Z.add_0_r. unfold slice. cbn [Z.to_nat firstn].
        now rewrite after_id.
      * intros Hn. exfalso. apply Hn. pose proof (len_nonneg (rest (infile g))). lia.
    + assert (Hn : n = bl) by lia.
      set (k := if BUFSIZ <? bl then BUFSIZ else bl).
      assert (Hk : 1 <= k <= bl).
      { unfold k. destruct (Z.ltb_spec BUFSIZ bl); unfold BUFSIZ in *; lia. }
      unfold fread. cbv zeta.
      set (got := firstn (Z.to_nat k) (rest (infile g))).
      assert (Hgot : len got = Z.min k (len (rest (infile g)))).
      { unfold got. apply len_firstn. lia. }
      destruct (Z.ltb_spec (len got) k) as [Hshort|Hfull].
      { split; [intros [H1 H2]; lia | intros _; reflexivity]. }
      unfold fwrite. cbv zeta.
      assert (Eo : forall x, outfile (set_infile x g) = outfile g) by (intros; destruct g; reflexivity).
      rewrite Eo.
      set (ok := firstn (Z.to_nat (room (outfile g))) got).
      assert (Hok : len ok = Z.min (room (outfile g)) (len got)).
      { unfold ok. apply len_firstn. lia. }
      destruct (Z.ltb_spec (len ok) k) as [Hshort|Hfull'].
      { split; [intros [H1 H2]; lia | intros _; reflexivity]. }
      assert (Hokgot : ok = got).
      { unfold ok. apply firstn_all2. unfold len in *. lia. }
      assert (Hlg : len got = k) by lia.
      match goal with |- context [copy_chunks fuel _ ?g1] => set (g1' := g1) end.
      assert (Eg1 : g1' = after g (fpos (infile g) + k) got).
      { unfold g1', after. rewrite Hokgot, Hlg.
        destruct g as [[c p0] [w0 r] b]; reflexivity. }
      rewrite Eg1.
      assert (Hwf1 : wf (after g (fpos (infile g) + k) got)).
      { unfold wf, after. destruct g as [[c p0] [w0 r] b]. fields. lia. }
      specialize (IH (bl - k) _ Hwf1 ltac:(lia)). cbv zeta in IH.
      assert (Hrest : rest (infile (after g (fpos (infile g) + k) got))
                      = skipn (Z.to_nat k) (rest (infile g))).
      { unfold after, rest. destruct g as [[c p0] [w0 r] b]. fields. apply from_add; lia. }
      rewrite Hrest in IH.
      assert (Hl2 : len (skipn (Z.to_nat k) (rest (infile g))) = len (rest (infile g)) - k).
      { unfold len. rewrite length_skipn. unfold len in *. lia. }
      rewrite Hl2 in IH.
      assert (Er : room (outfile (after g (fpos (infile g) + k) got)) = room (outfile g) - len got).
      { unfold after. destruct g as [[c p0] [w0 r] b]. reflexivity. }
      rewrite Er in IH.
      assert (Ef : fpos (infile (after g (fpos (infile g) + k) got)) = fpos (infile g) + k).
      { unfold after. destruct g as [[c p0] [w0 r] b]. reflexivity. }
      assert (Ec : content (infile (after g (fpos (infile g) + k) got)) = content (infile g)).
      { unfold after. destruct g as [[c p0] [w0 r] b]. reflexivity. }
      rewrite Ef, Ec in IH.
      destruct IH as [IH1 IH2]. split.
      * intros [H1 H2]. rewrite IH1 by lia. f_equal. rewrite after_after. f_equal.
        { lia. }
        { unfold slice, got, rest.
          replace (Z.max 0 (bl - k)) with (bl - k) by lia.
          replace (Z.to_nat n) with (Z.to_nat k + Z.to_nat (bl - k))%nat by lia.
          rewrite firstn_plus. f_equal. f_equal. apply from_add; lia. }
      * intros Hno. apply IH2. lia.
Qed.

(** *** The walk of the specification and lines *)

Lemma walk_ext c ign ign' n : forall pos skip,
  (forall p, pos <= p -> existsb (Z.eqb p) ign = existsb (Z.eqb p) ign') ->
  copy_range_from c ign n pos skip = copy_range_from c ign' n pos skip.
Proof.
  induction n as [|n IH]; intros pos skip H; [reflexivity|].
  cbn [copy_range_from]. rewrite (H pos) by lia.
  rewrite !(IH (pos + 1)) by (intros; apply H; lia). reflexivity.
Qed.

Lemma walk_skip c ign n : forall pos skip, 0 <= skip ->
  copy_range_from c ign n pos skip
  = copy_range_from c ign (n - Z.to_nat skip) (pos + skip) 0.
Proof.
  induction n as [|n IH]; intros pos skip H; [reflexivity|].
  cbn [copy_range_from]. destruct (Z.ltb_spec 0 skip).
  - rewrite IH by lia. replace (S n - Z.to_nat skip)%nat with (n - Z.to_nat (skip - 1))%nat by lia.
    f_equal. lia.
  - assert (skip = 0) by lia. subst skip. rewrite Z.add_0_r.
    replace (S n - Z.to_nat 0)%nat with (S n) by lia. cbn [copy_range_from]. reflexivity.
Qed.

Lemma walk_plain c ign b (a : nat) : forall pos, 0 <= pos ->
  (forall p, pos <= p < pos + Z.of_nat a -> existsb (Z.eqb p) ign = false) ->
  copy_range_from c ign (a + b) pos 0
  = firstn a (from pos c) ++ copy_range_from c ign b (pos + Z.of_nat a) 0.
Proof.
  induction a as [|a IH]; intros pos Hp H.
  - simpl. f_equal. lia.
  - cbn [Nat.add copy_range_from]. rewrite (H pos) by lia. cbn [Z.ltb Z.compare].
    change (0 <? 0) with false. cbv iota.
    rewrite IH by (try lia; intros; apply H; lia).
    rewrite app_assoc. f_equal.
    + change (S a) with (1 + a)%nat. rewrite firstn_plus. f_equal.
      f_equal. rewrite (from_add pos 1) by lia. reflexivity.
    + f_equal. lia.
Qed.

Lemma walk_plain_all c ign (a : nat) pos : 0 <= pos ->
  (forall p, pos <= p < pos + Z.of_nat a -> existsb (Z.eqb p) ign = false) ->
  copy_range_from c ign a pos 0 = firstn a (from pos c).
Proof.
  intros. replace a with (a + 0)%nat at 1 by lia. rewrite walk_plain by assumption.
  simpl. apply app_nil_r.
Qed.

Lemma take_line_length n l : (List.length (take_line n l) <= Nat.min n (List.length l))%nat.
Proof.
  revert l; induction n as [|n IH]; intros [|b r]; simpl; try lia.
  destruct (Byte.eqb b nl); simpl; [lia|]. specialize (IH r). lia.
Qed.

Lemma take_line_nonempty n b r : (1 <= List.length (take_line (S n) (b :: r)))%nat.
Proof. simpl. destruct (Byte.eqb b nl); simpl; lia. Qed.

Lemma line_at_bounds c p : 0 <= p -> p < len c ->
  1 <= len (line_at c p) /\ p + len (line_at c p) <= len c.
Proof.
  intros Hp Hl. unfold line_at.
  pose proof (take_line_length (Z.to_nat (BUFSIZ - 1)) (from p c)) as H.
  pose proof (len_from p c Hp) as Hf.
  destruct (from p c) as [|b r] eqn:E.
  - unfold len in Hf at 1. simpl in Hf. lia.
  - replace (Z.to_nat (BUFSIZ - 1)) with (S (Z.to_nat (BUFSIZ - 2))) in * by (unfold BUFSIZ; lia).
    pose proof (take_line_nonempty (Z.to_nat (BUFSIZ - 2)) b r).
    unfold len in *. lia.
Qed.

Lemma fgets_some f : 0 <= fpos f -> fpos f < len (content f) ->
  fgets f = (Some (line_at (content f) (fpos f)),
             {| content := content f; fpos := fpos f + len (line_at (content f) (fpos f)) |}).
Proof.
  intros Hp Hl. unfold fgets, rest, line_at.
  pose proof (len_from _ (content f) Hp) as Hf.
  destruct (from (fpos f) (content f)) eqn:E; [|reflexivity].
  unfold len in Hf at 1; simpl in Hf. lia.
Qed.

Lemma fgets_none f : 0 <= fpos f -> len (content f) <= fpos f -> fgets f = (None, f).
Proof.
  intros Hp Hl. unfold fgets, rest.
  pose proof (len_from _ (content f) Hp) as Hf.
  destruct (from (fpos f) (content f)) eqn:E; [reflexivity|].
  unfold len in Hf at 1; simpl in Hf. lia.
Qed.

Lemma skip_ignored_props ign here : ascending ign ->
  ascending (skip_ignored ign here)
  /\ Forall (fun e => here <= e) (skip_ignored ign here)
  /\ (List.length (skip_ignored ign here) <= List.length ign)%nat
  /\ (forall p, here <= p -> existsb (Z.eqb p) ign = existsb (Z.eqb p) (skip_ignored ign here)).
Proof.
  intros [Hs Hpos]. induction ign as [|e r IH].
  - simpl. repeat split; auto; constructor.
  - inversion Hs as [|? ? Hs' Hle]; subst. inversion Hpos as [|? ? He Hpos']; subst.
    specialize (IH Hs' Hpos'). cbn [skip_ignored].
    destruct (Z.ltb_spec 0 e); try lia. cbn [andb].
    destruct (Z.ltb_spec e here).
    + destruct IH as (A & B & C & D). repeat split; auto.
      * apply A. * apply A.
      * simpl; lia.
      * intros p Hp. cbn [existsb]. rewrite <- D by assumption.
        destruct (Z.eqb_spec p e); [lia|reflexivity].
    + repeat split; auto.
      constructor; [lia|]. rewrite Forall_forall in *. intros x Hx. specialize (Hle x Hx). lia.
Qed.

(** *** The copier against the walk *)

Lemma fcopy_plain_spec upto g : wf g ->
  let n := Z.max 0 (upto - fpos (infile g)) in
  (n <= len (rest (infile g)) /\ n <= room (outfile g) ->
     fcopy_plain upto g
     = (1, after g (fpos (infile g) + n) (slice (content (infile g)) (fpos (infile g)) n)))
  /\ (~ (n <= len (rest (infile g)) /\ n <= room (outfile g)) ->
     fst (fcopy_plain upto g) = 0).
Proof.
  intros Hwf. unfold fcopy_plain, ftello. apply copy_chunks_spec; [assumption|lia].
Qed.

Lemma after_fields g p w :
  infile (after g p w) = {| content := content (infile g); fpos := p |}
  /\ outfile (after g p w) = {| written := written (outfile g) ++ w;
                                room := room (outfile g) - len w |}
  /\ bytes (after g p w) = bytes g + len w.
Proof. destruct g as [[c p0] [w0 r] b]. repeat split. Qed.

Lemma copy_range_plain c ign here upto : 0 <= here ->
  (forall p, here <= p < upto -> existsb (Z.eqb p) ign = false) ->
  copy_range c ign here upto = slice c here (Z.max 0 (upto - here)).
Proof.
  intros Hh H. unfold copy_range, slice.
  rewrite walk_plain_all by (try assumption; intros; apply H; lia).
  f_equal. lia.
Qed.

Lemma existsb_ge (ign : list Z) p :
  Forall (fun e => p < e) ign -> existsb (Z.eqb p) ign = false.
Proof.
  induction 1 as [|e r He _ IH]; [reflexivity|]. cbn [existsb]. rewrite IH.
  destruct (Z.eqb_spec p e); [lia|reflexivity].
Qed.

Lemma fcopy_from_exit fuel ign upto g : wf g ->
  Forall (fun e => upto <= e) ign ->
  let w := copy_range (content (infile g)) ign (fpos (infile g)) upto in
  (can_copy upto g w -> exists p', fcopy_from fuel ign upto g = (1, after g p' w))
  /\ (~ can_copy upto g w -> fst (fcopy_from fuel ign upto g) = 0).
Proof.
  intros Hwf Hge w.
  assert (El : ignore_loop fuel ign upto g = (1, g)).
  { destruct fuel; cbn [ignore_loop]; destruct ign as [|e r]; cbn [hd];
      try reflexivity; inversion Hge; subst;
      destruct (Z.ltb_spec e upto); try lia; rewrite andb_false_r; reflexivity. }
  unfold fcopy_from. rewrite El. change (1 =? 0) with false. cbv iota.
  assert (Ew : w = slice (content (infile g)) (fpos (infile g))
                     (Z.max 0 (upto - fpos (infile g)))).
  { unfold w. apply copy_range_plain; [apply Hwf|].
    intros p Hp. apply existsb_ge. rewrite Forall_forall in *. intros x Hx.
    specialize (Hge x Hx). lia. }
  destruct (fcopy_plain_spec upto g Hwf) as [S1 S2].
  set (n := Z.max 0 (upto - fpos (infile g))) in *.
  assert (Hlw : len w = Z.min n (len (rest (infile g)))).
  { rewrite Ew. unfold slice. apply len_firstn. lia. }
  assert (Hav : len (rest (infile g)) = Z.max 0 (len (content (infile g)) - fpos (infile g))).
  { apply len_from, Hwf. }
  unfold can_copy. split.
  - intros [H1 H2]. eexists. rewrite S1 by lia. rewrite Ew. reflexivity.
  - intros Hno. apply S2. intros [H1 H2]. apply Hno. lia.
Qed.

Lemma copy_range_step c e r here upto L : 0 <= here -> here <= e -> e < upto ->
  Forall (fun x => e <= x) r -> ascending r -> 1 <= L ->
  L = len (line_at c e) ->
  copy_range c (e :: r) here upto
  = slice c here (e - here) ++ copy_range c (skip_ignored r (e + L)) (e + L) upto.
Proof.
  intros Hh Hle Hlt Hr Ha HL EL. unfold copy_range, slice.
  replace (Z.to_nat (upto - here)) with (Z.to_nat (e - here) + S (Z.to_nat (upto - e - 1)))%nat by lia.
  rewrite walk_plain; try assumption.
  2:{ intros p Hp. cbn [existsb]. destruct (Z.eqb_spec p e); [lia|]. cbn [orb].
      apply existsb_ge. rewrite Forall_forall in *. intros x Hx. specialize (Hr x Hx). lia. }
  f_equal. replace (here + Z.of_nat (Z.to_nat (e - here))) with e by lia.
  cbn [copy_range_from]. change (0 <? 0) with false. cbv iota.
  cbn [existsb]. rewrite Z.eqb_refl. cbn [orb]. rewrite <- EL.
  rewrite walk_skip by lia.
  replace (e + 1 + (L - 1)) with (e + L) by lia.
  replace (Z.to_nat (upto - e - 1) - Z.to_nat (L - 1))%nat with (Z.to_nat (upto - (e + L))) by lia.
  apply walk_ext. intros p Hp. cbn [existsb]. destruct (Z.eqb_spec p e); [lia|]. cbn [orb].
  apply skip_ignored_props; assumption.
Qed.

Lemma fcopy_from_spec fuel : forall ign upto g,
  wf g -> ascending ign -> Forall (fun e => fpos (infile g) <= e) ign ->
  (List.length ign <= fuel)%nat ->
  let w := copy_range (content (infile g)) ign (fpos (infile g)) upto in
  (can_copy upto g w -> exists p', fcopy_from fuel ign upto g = (1, after g p' w))
  /\ (~ can_copy upto g w -> fst (fcopy_from fuel ign upto g) = 0).
Proof.
  induction fuel as [|fuel IH]; intros ign upto g Hwf Hasc Hge Hlen.
  - destruct ign; [|cbn in Hlen; lia]. apply fcopy_from_exit; [assumption|constructor].
  - destruct ign as [|e r]; [apply fcopy_from_exit; [assumption|constructor]|].
    destruct Hasc as [Hs Hpos].
    inversion Hs as [|? ? Hs' Hle]; subst. inversion Hpos as [|? ? He Hpos']; subst.
    inversion Hge as [|? ? Hhe Hge']; subst.
    destruct (Z.ltb_spec e upto) as [Hlt|Hnlt].
    2:{ apply fcopy_from_exit; [assumption|]. constructor; [lia|].
        rewrite Forall_forall in *. intros x Hx. specialize (Hle x Hx). lia. }
    intros w. unfold can_copy.
    pose proof Hwf as [Hp0 Hr0].
    set (c := content (infile g)) in *. set (here := fpos (infile g)) in *.
    destruct (fcopy_plain_spec e g Hwf) as [S1 S2]. fold here c in S1, S2.
    replace (Z.max 0 (e - here)) with (e - here) in S1, S2 by lia.
    replace (here + (e - here)) with e in S1 by lia.
    assert (Hav : len (rest (infile g)) = Z.max 0 (len c - here)).
    { apply len_from, Hwf. }
    set (s := slice c here (e - here)) in *.
    assert (Hls : len s = Z.min (e - here) (len (rest (infile g)))).
    { unfold s, slice. apply len_firstn. lia. }
    assert (Hunf : fcopy_from (S fuel) (e :: r) upto g
      = let (r0, g0) := fcopy_plain e g in
        if r0 =? 0 then (0, g0)
        else match fgets (infile g0) with
             | (None, fin) => (0, set_infile fin g0)
             | (Some _, fin) =>
                 let g1 := set_infile fin g0 in
                 fcopy_from fuel (skip_ignored r (ftello (infile g1))) upto g1
             end).
    { unfold fcopy_from. cbn [ignore_loop hd tl].
      destruct (Z.ltb_spec 0 e); try lia. destruct (Z.ltb_spec e upto); try lia.
      cbn [andb]. destruct (fcopy_plain e g) as [r0 g0].
      destruct (r0 =? 0); [reflexivity|].
      destruct (fgets (infile g0)) as [[b|] fin]; reflexivity. }
    rewrite Hunf. clear Hunf.
    assert (Hpre : len s <= len w).
    { unfold w, copy_range, s, slice.
      replace (Z.to_nat (upto - here)) with (Z.to_nat (e - here) + Z.to_nat (upto - e))%nat by lia.
      rewrite walk_plain; try assumption.
      + rewrite len_app. pose proof (len_nonneg (copy_range_from c (e :: r) (Z.to_nat (upto - e)) (here + Z.of_nat (Z.to_nat (e - here))) 0)). lia.
      + intros p Hp. cbn [existsb]. destruct (Z.eqb_spec p e); [lia|]. cbn [orb].
        apply existsb_ge. rewrite Forall_forall in *. intros x Hx. specialize (Hle x Hx). lia. }
    destruct (Z_le_dec (e - here) (len (rest (infile g)))) as [Hread|Hshort];
      [destruct (Z_le_dec (e - here) (room (outfile g))) as [Hroom|Hfull]|].
    2,3: (split; [intros [[H1|H1] H2]; lia|]; intros _;
          destruct (fcopy_plain e g) as [r0 g0] eqn:E;
          assert (r0 = 0) by (exact (S2 ltac:(lia))); subst r0; reflexivity).
    rewrite S1 by lia. change (1 =? 0) with false. cbv iota.
    destruct (after_fields g e s) as (Ei & Eo & Eb). rewrite Ei. fold c.
    destruct (Z_le_dec (len c) e) as [Heof|Hne].
    { rewrite fgets_none by (cbn [fpos content]; lia). split.
      - intros [[H1|H1] H2]; lia.
      - intros _. reflexivity. }
    rewrite fgets_some by (cbn [fpos content]; lia). cbn [content fpos]. cbv zeta.
    set (L := len (line_at c e)).
    destruct (line_at_bounds c e ltac:(lia) ltac:(lia)) as [HL1 HL2]. fold L in HL1, HL2.
    assert (Eg2 : set_infile {| content := c; fpos := e + L |} (after g e s) = after g (e + L) s).
    { unfold after, c. destruct g as [[c0 p0] [w0 r0] b]. reflexivity. }
    rewrite Eg2. destruct (after_fields g (e + L) s) as (Ei2 & Eo2 & Eb2).
    unfold ftello. rewrite Ei2. cbn [fpos].
    assert (Hw : w = s ++ copy_range c (skip_ignored r (e + L)) (e + L) upto).
    { unfold w, s. apply copy_range_step; try assumption; try lia;
        try reflexivity; try (split; assumption). }
    set (w2 := copy_range c (skip_ignored r (e + L)) (e + L) upto) in *.
    destruct (skip_ignored_props r (e + L) (conj Hs' Hpos')) as (A & B & C & D).
    assert (Hwf2 : wf (after g (e + L) s)).
    { unfold wf. rewrite Ei2, Eo2. cbn [fpos room]. lia. }
    specialize (IH (skip_ignored r (e + L)) upto (after g (e + L) s) Hwf2 A).
    unfold can_copy in IH. rewrite ?Ei2, ?Eo2 in IH. cbn [fpos content room] in IH.
    specialize (IH B ltac:(cbn in Hlen; lia)). cbv zeta in IH. fold c in IH. fold w2 in IH.
    destruct IH as [IH1 IH2].
    assert (Hlw : len w = len s + len w2) by (rewrite Hw; apply len_app).
    split.
    + intros [[H1|H1] H2]; try lia.
      destruct IH1 as [p' Ep]; [lia|]. exists p'. rewrite Ep, after_after, Hw. reflexivity.
    + intros Hno. apply IH2. intros [H1 H2]. apply Hno. lia.
Qed.

(** *** What the routines leave alone *)

Lemma frame_refl g : frame 0 g g.
Proof. split; try reflexivity; try lia. exists []. now rewrite app_nil_r. Qed.

Lemma frame_trans d1 d2 g1 g2 g3 :
  frame d1 g1 g2 -> frame d2 g2 g3 -> frame (d1 + d2) g1 g3.
Proof.
  intros [A1 A2 A3 [t1 A4] A5 A6] [B1 B2 B3 [t2 B4] B5 B6].
  split; try congruence; try lia; auto.
  exists (t1 ++ t2). now rewrite B4, A4, app_assoc.
Qed.

Lemma frame_step g1 g2 g3 d : frame 0 g1 g2 -> frame d g2 g3 -> frame d g1 g3.
Proof. intros A B. exact (frame_trans _ _ _ _ _ A B). Qed.

Lemma frame_then g1 g2 g3 d : frame d g1 g2 -> frame 0 g2 g3 -> frame d g1 g3.
Proof. intros A B. replace d with (d + 0) by lia. exact (frame_trans _ _ _ _ _ A B). Qed.

Ltac frame_setter g :=
  destruct g; split; fields; try reflexivity; try lia; auto;
  exists []; now rewrite app_nil_r.

Lemma frame_set_infile f g : frame 0 g (set_infile f g).
Proof. frame_setter g. Qed.
Lemma frame_set_pagelabel f g : frame 0 g (set_pagelabel f g).
Proof. frame_setter g. Qed.
Lemma frame_set_pageno f g : frame 0 g (set_pageno f g).
Proof. frame_setter g. Qed.
Lemma frame_set_bytes f g : frame 0 g (set_bytes f g).
Proof. frame_setter g. Qed.

Lemma fwrite_frame bs g n f :
  fwrite bs (outfile g) = (n, f) -> frame 0 g (set_outfile f g).
Proof.
  unfold fwrite. intros E. injection E as _ <-.
  pose proof (len_nonneg (firstn (Z.to_nat (room (outfile g))) bs)) as H0.
  assert (0 <= room (outfile g) -> len (firstn (Z.to_nat (room (outfile g))) bs) <= room (outfile g)).
  { intros. rewrite len_firstn by assumption. lia. }
  destruct g as [i [w r]]. fields. split; fields; try reflexivity; try lia.
  eexists; reflexivity.
Qed.

Lemma writestring_frame s g : frame 0 g (writestring s g).
Proof.
  unfold writestring, fputs. destruct (fwrite (cstring s) (outfile g)) as [n f] eqn:E.
  eapply frame_step; [eapply fwrite_frame; eassumption|apply frame_set_bytes].
Qed.

Lemma copy_chunks_frame fuel : forall bl g r g',
  copy_chunks fuel bl g = (r, g') -> frame 0 g g'.
Proof.
  induction fuel as [|fuel IH]; intros bl g r g'; cbn [copy_chunks].
  - destruct (bl <=? 0); intros E; injection E as _ <-; apply frame_refl.
  - destruct (bl <=? 0); [intros E; injection E as _ <-; apply frame_refl|].
    destruct (fread _ (infile g)) as [buf fin].
    destruct (len buf <? _); [intros E; injection E as _ <-; apply frame_set_infile|].
    destruct (fwrite buf (outfile (set_infile fin g))) as [w fout] eqn:Ew.
    pose proof (fwrite_frame _ _ _ _ Ew) as Hf.
    destruct (w <? _).
    + intros E; injection E as _ <-.
      eapply frame_step; [apply frame_set_infile|exact Hf].
    + intros E. apply IH in E. eapply frame_step; [apply frame_set_infile|].
      eapply frame_step; [exact Hf|]. eapply frame_step; [apply frame_set_bytes|exact E].
Qed.

Lemma fcopy_plain_frame upto g r g' : fcopy_plain upto g = (r, g') -> frame 0 g g'.
Proof. apply copy_chunks_frame. Qed.

Lemma ignore_loop_frame fuel : forall ign upto g r g',
  ignore_loop fuel ign upto g = (r, g') -> frame 0 g g'.
Proof.
  induction fuel as [|fuel IH]; intros ign upto g r g'; cbn [ignore_loop].
  - destruct (_ && _); intros E; injection E as _ <-; apply frame_refl.
  - destruct (_ && _); [|intros E; injection E as _ <-; apply frame_refl].
    destruct (fcopy_plain (hd 0 ign) g) as [r0 g0] eqn:E0. apply fcopy_plain_frame in E0.
    destruct (r0 =? 0); [intros E; injection E as _ <-; exact E0|].
    destruct (fgets (infile g0)) as [[b|] fin].
    + intros E. apply IH in E. eapply frame_step; [exact E0|].
      eapply frame_step; [apply frame_set_infile|exact E].
    + intros E; injection E as _ <-. eapply frame_step; [exact E0|apply frame_set_infile].
Qed.

Lemma fcopy_frame upto ign g r g' : fcopy upto ign g = (r, g') -> frame 0 g g'.
Proof.
  unfold fcopy. destruct ign as [ign|]; [|apply fcopy_plain_frame].
  destruct (ignore_loop _ _ upto g) as [r0 g0] eqn:E0. apply ignore_loop_frame in E0.
  destruct (r0 =? 0); [intros E; injection E as _ <-; exact E0|].
  intros E. apply fcopy_plain_frame in E. eapply frame_step; eassumption.
Qed.

Lemma bind_ok {A B} (m : outcome A) (k : A -> G -> outcome B) b g' :
  bind m k = Ok b g' -> exists a g1, m = Ok a g1 /\ k a g1 = Ok b g'.
Proof. destruct m; cbn [bind]; intros E; try discriminate. eauto. Qed.

Ltac bind_inv H x g1 H1 :=
  apply bind_ok in H as (x & g1 & H1 & H); cbv beta in H.

Lemma seekpage_frame p g a g' : seekpage p g = Ok a g' -> frame 0 g g'.
Proof.
  unfold seekpage. destruct (load p (pageptr g)); [|intros; discriminate].
  destruct (fgets _) as [[buffer|] fin]; [|intros; discriminate].
  destruct (iscomment buffer _); [|intros; discriminate].
  destruct (Byte.eqb _ _).
  - destruct (paren_label _ _) as [[lab after]|]; [|intros; discriminate].
    intros E; injection E as _ <-.
    eapply frame_step; [apply frame_set_infile|]. eapply frame_step; [apply frame_set_infile|].
    eapply frame_step; [apply frame_set_pagelabel|apply frame_set_pageno].
  - destruct (word_label _) as [[lab after]|]; [|intros; discriminate].
    intros E; injection E as _ <-.
    eapply frame_step; [apply frame_set_infile|]. eapply frame_step; [apply frame_set_infile|].
    eapply frame_step; [apply frame_set_pagelabel|apply frame_set_pageno].
Qed.

Lemma frame_set_outputpage g : frame 1 g (set_outputpage (outputpage g + 1) g).
Proof.
  destruct g; split; fields; try reflexivity; try lia; auto.
  exists []; now rewrite app_nil_r.
Qed.

Lemma writepageheader_frame label page g a g' :
  writepageheader label page g = Ok a g' -> frame 1 g g'.
Proof.
  unfold writepageheader. destruct (BUFSIZ <=? _); [intros; discriminate|].
  intros E; injection E as _ <-.
  eapply frame_then; [apply frame_set_outputpage|apply writestring_frame].
Qed.

Lemma pagesetup_loop_frame fuel : forall g a g',
  pagesetup_loop fuel g = Ok a g' -> frame 0 g g'.
Proof.
  induction fuel as [|fuel IH]; intros g a g'; cbn [pagesetup_loop]; [intros; discriminate|].
  destruct (fgets (infile g)) as [[buffer|] fin]; [|intros; discriminate].
  destruct (starts_with _ buffer).
  - intros E; injection E as _ <-. apply frame_set_infile.
  - unfold fputs. destruct (fwrite _ _) as [n f] eqn:Ew. apply fwrite_frame in Ew.
    destruct (n <? _); [intros; discriminate|]. intros E. apply IH in E.
    eapply frame_step; [apply frame_set_infile|]. eapply frame_step; [exact Ew|].
    eapply frame_step; [apply frame_set_bytes|exact E].
Qed.

Lemma writepagesetup_frame g a g' : writepagesetup g = Ok a g' -> frame 0 g g'.
Proof.
  unfold writepagesetup. destruct (_ =? 0).
  - intros E; injection E as _ <-. apply frame_refl.
  - apply pagesetup_loop_frame.
Qed.

Ltac case_if :=
  match goal with |- context [if ?c then _ else _] => destruct c end.

Ltac fcopy_case E :=
  match goal with
  | |- context [fcopy ?u ?i ?s] =>
      let r := fresh "r" in let g0 := fresh "g" in
      destruct (fcopy u i s) as [r g0] eqn:E; apply fcopy_frame in E
  end.

Lemma writepagebody_frame p g a g' : writepagebody p g = Ok a g' -> frame 0 g g'.
Proof.
  unfold writepagebody. destruct (load _ _); [|intros; discriminate]. fcopy_case E.
  case_if; [intros; discriminate|]. intros H; injection H as _ <-. exact E.
Qed.

Lemma writeprolog_frame g a g' : writeprolog g = Ok a g' -> frame 0 g g'.
Proof.
  unfold writeprolog. fcopy_case E.
  case_if; [intros; discriminate|]. intros H; injection H as _ <-. exact E.
Qed.

Lemma writesetup_frame g a g' : writesetup g = Ok a g' -> frame 0 g g'.
Proof.
  unfold writesetup. destruct (load _ _); [|intros; discriminate]. fcopy_case E.
  case_if; [intros; discriminate|]. intros H; injection H as _ <-. exact E.
Qed.

Lemma writepartprolog_frame g a g' : writepartprolog g = Ok a g' -> frame 0 g g'.
Proof.
  unfold writepartprolog. intros H. bind_inv H x g1 H1.
  bind_inv H y g2 H2. injection H as Ha Hg. subst g'.
  apply writeprolog_frame in H2.
  assert (F1 : frame 0 g g1).
  { destruct (beginprocset g =? 0). { injection H1 as _ <-. apply frame_refl. }
    revert H1. fcopy_case E. case_if; [intros; discriminate|].
    intros H; injection H as _ <-. exact E. }
  eapply frame_step; [exact F1|]. eapply frame_step; [|exact H2].
  destruct (endprocset g1 =? 0); [apply frame_refl|apply frame_set_infile].
Qed.

Lemma write_prolog_xform_frame g a g' : write_prolog_xform g = Ok a g' -> frame 0 g g'.
Proof.
  unfold write_prolog_xform. intros H. bind_inv H x g1 H1.
  injection H as _ <-. apply writepartprolog_frame in H1.
  eapply frame_step; [exact H1|]. destruct x; [apply writestring_frame|apply frame_refl].
Qed.

Lemma trailer_loop_frame fuel : forall g, frame 0 g (trailer_loop fuel g).
Proof.
  induction fuel as [|fuel IH]; intros g; cbn [trailer_loop]; [apply frame_refl|].
  destruct (fgets (infile g)) as [[buffer|] fin]; [|apply frame_set_infile].
  eapply frame_step; [apply frame_set_infile|].
  eapply frame_step; [apply writestring_frame|apply IH].
Qed.

Lemma writetrailer_frame g a g' : writetrailer g = Ok a g' -> frame 0 g g'.
Proof.
  unfold writetrailer. destruct (load _ _); [|intros; discriminate].
  set (t := trailer_loop _ _). intros H; injection H as _ <-. subst t.
  eapply frame_step; [|apply trailer_loop_frame]. apply frame_set_infile.
Qed.

Lemma write_transform_frame h ps draw g : frame 0 g (write_transform h ps draw g).
Proof.
  unfold write_transform, writestringf.
  repeat first
    [ apply frame_refl
    | apply writestring_frame
    | match goal with
      | |- frame 0 _ (let g := ?x in _) => cbv zeta
      | |- frame 0 ?g (if ?c then _ else _) => destruct c
      | |- frame 0 ?g (writestring _ ?g1) =>
          eapply frame_then; [|apply writestring_frame]
      end ].
Qed.

(** *** The loops of the emitter *)

Lemma emit_spec_frame h maxpage thispg modulo draw ps rest add_last pi g r g' :
  emit_spec h maxpage thispg modulo draw ps rest add_last pi g = Ok r g' ->
  frame (if add_last then 0 else 1) g g'
  /\ fst r = has (sp_flags ps) (ADD_NEXT h).
Proof.
  unfold emit_spec. intros H.
  bind_inv H x g1 H1. bind_inv H pi' g2 H2. bind_inv H y g3 H3.
  injection H as <- <-. split; [|reflexivity].
  assert (F1 : frame 0 g g1).
  { revert H1. case_if; [apply seekpage_frame|].
    intros E; injection E as _ <-. apply frame_refl. }
  assert (F2 : frame (if add_last then 0 else 1) g1 g2).
  { destruct add_last.
    - injection H2 as _ <-. apply frame_refl.
    - revert H2. case_if; [intros; discriminate|]. intros H2.
      bind_inv H2 z g4 H4. injection H2 as _ <-.
      apply writepageheader_frame in H4.
      eapply frame_step; [apply frame_set_pagelabel|exact H4]. }
  eapply frame_step; [exact F1|]. eapply frame_then; [exact F2|].
  eapply frame_then; [|apply writestring_frame].
  match type of H3 with ?m = _ => match m with context [pages ?gg] => set (g5 := gg) in * end end.
  assert (F5 : frame 0 g2 g5).
  { unfold g5. repeat first
      [ apply frame_refl | apply writestring_frame | apply write_transform_frame
      | match goal with
        | |- frame 0 ?g (if ?c then _ else _) => destruct c
        | |- frame 0 ?g (writestring _ ?g1) =>
            eapply frame_then; [|apply writestring_frame]
        | |- frame 0 ?g (write_transform _ _ _ ?g1) =>
            eapply frame_then; [|apply write_transform_frame]
        end ]. }
  eapply frame_step; [exact F5|]. clearbody g5.
  revert H3. case_if.
  - intros H3. bind_inv H3 z g6 H6. apply writepagesetup_frame in H6.
    apply writepagebody_frame in H3.
    eapply frame_step; [exact H6|]. eapply frame_step; [apply writestring_frame|exact H3].
  - intros E; injection E as _ <-. apply writestring_frame.
Qed.

Lemma spec_loop_frame h maxpage thispg modulo draw : forall specs add_last pi g pi' g',
  one_group h specs ->
  spec_loop h maxpage thispg modulo draw specs add_last pi g = Ok pi' g' ->
  frame (if add_last then 0 else 1) g g'.
Proof.
  induction specs as [|ps rest IH]; intros add_last pi g pi' g' Hg; [destruct Hg|].
  cbn [spec_loop]. intros H. bind_inv H r g1 H1.
  apply emit_spec_frame in H1 as [F1 Er].
  destruct rest as [|ps2 rest].
  - cbn [spec_loop] in H. injection H as _ <-. exact F1.
  - destruct Hg as [Ha Hg]. rewrite Er, Ha in H. apply IH in H; [|exact Hg].
    eapply frame_then; eassumption.
Qed.

Lemma page_loop_frame h maxpage modulo draw specs : 1 <= modulo -> one_group h specs ->
  forall fuel thispg pi g a g',
  thispg <= maxpage -> (modulo | maxpage - thispg) ->
  page_loop h fuel maxpage thispg modulo draw specs pi g = Ok a g' ->
  frame ((maxpage - thispg) / modulo) g g'.
Proof.
  intros Hm Hg. induction fuel as [|fuel IH]; intros thispg pi g a g' Hle [k Hk];
    cbn [page_loop]; destruct (Z.ltb_spec thispg maxpage) as [Hlt|Hge].
  - discriminate.
  - intros E; injection E as _ <-. replace (maxpage - thispg) with 0 by lia.
    rewrite Z.div_0_l by lia. apply frame_refl.
  - intros H. bind_inv H pi' g1 H1. apply spec_loop_frame in H1; [|exact Hg].
    assert (1 <= k) by nia.
    apply IH in H; [| nia | exists (k - 1); lia].
    replace ((maxpage - thispg) / modulo) with (1 + (maxpage - (thispg + modulo)) / modulo).
    + eapply frame_trans; eassumption.
    + replace (maxpage - thispg) with (1 * modulo + (maxpage - (thispg + modulo))) by lia.
      rewrite Z.div_add_l by lia. reflexivity.
  - intros E; injection E as _ <-. replace (maxpage - thispg) with 0 by lia.
    rewrite Z.div_0_l by lia. apply frame_refl.
Qed.

Lemma in_int_some n v : in_int n = Some v -> v = n /\ INT_MIN <= n <= INT_MAX.
Proof.
  unfold in_int. destruct (Z.leb_spec INT_MIN n), (Z.leb_spec n INT_MAX); cbn [andb];
    intros E; inversion E; lia.
Qed.

Lemma maxpage_of_ceil pages modulo m : 1 <= pages -> 1 <= modulo ->
  maxpage_of pages modulo = Some m ->
  m = (pages + modulo - 1) / modulo * modulo
  /\ int_div m modulo = Some ((pages + modulo - 1) / modulo).
Proof.
  intros Hp Hm. unfold maxpage_of, opt_bind.
  destruct (in_int (pages + modulo)) as [a|] eqn:Ea; [|discriminate].
  apply in_int_some in Ea as [-> _].
  destruct (in_int (pages + modulo - 1)) as [b|] eqn:Eb; [|discriminate].
  apply in_int_some in Eb as [-> _].
  destruct (int_div (pages + modulo - 1) modulo) as [q|] eqn:Eq; [|discriminate].
  unfold int_div in Eq. destruct (Z.eqb_spec modulo 0); [lia|].
  pose proof Eq as Eq'. apply in_int_some in Eq' as [-> _].
  rewrite Z.quot_div_nonneg in * by lia.
  intros Em. apply in_int_some in Em as [-> _]. split; [reflexivity|].
  unfold int_div. destruct (Z.eqb_spec modulo 0); [lia|].
  rewrite Z.quot_div_nonneg.
  - rewrite Z.div_mul by lia. exact Eq.
  - apply Z.mul_nonneg_nonneg; [apply Z.div_pos|]; lia.
  - lia.
Qed.

(** *** C strings *)

Lemma writestring_written s g :
  0 <= room (outfile g) -> 0 < room (outfile (writestring s g)) ->
  written (outfile (writestring s g)) = written (outfile g) ++ cstring s.
Proof.
  unfold writestring, fputs, fwrite. destruct g as [i [w r]]. fields.
  intros Hr Hpos. f_equal. apply firstn_all2.
  rewrite len_firstn in Hpos by assumption. unfold len in Hpos. lia.
Qed.

Lemma cstring_app a b : no_nul a = true -> cstring (a ++ b) = a ++ cstring b.
Proof.
  induction a as [|x a IH]; cbn [no_nul forallb app cstring]; [reflexivity|].
  intros H. apply andb_prop in H as [Hx Ha]. destruct (Byte.eqb x NUL); [discriminate|].
  now rewrite IH.
Qed.

Lemma cstring_no_nul a : no_nul a = true -> cstring a = a.
Proof.
  intros H. rewrite <- (app_nil_r a) at 1. rewrite cstring_app by assumption.
  apply app_nil_r.
Qed.

Lemma no_nul_app a b : no_nul (a ++ b) = no_nul a && no_nul b.
Proof. apply forallb_app. Qed.

Lemma no_nul_uint u : no_nul (str (DecimalString.NilEmpty.string_of_uint u)) = true.
Proof. induction u; cbn; auto. Qed.

Lemma no_nul_fmt_d n : no_nul (fmt_d n) = true.
Proof.
  unfold fmt_d, DecimalString.NilZero.string_of_int, DecimalString.NilZero.string_of_uint.
  destruct (Z.to_int n) as [u|u]; destruct u; cbn; auto using no_nul_uint;
  try apply (no_nul_uint (Decimal.D0 _)); try apply no_nul_uint.
Qed.

(** *** The specs the builder makes *)

Lemma has_lor_same x m : m <> 0 -> has (Z.lor x m) m = true.
Proof.
  intros Hm. unfold has. rewrite Z.land_lor_distr_l, Z.land_diag.
  destruct (Z.eqb_spec (Z.lor (Z.land x m) m) 0) as [E|]; [|reflexivity].
  apply Z.lor_eq_0_iff in E. tauto.
Qed.

Lemma has_lor_other x m m' : Z.land m' m = 0 -> has (Z.lor x m') m = has x m.
Proof.
  intros H. unfold has. now rewrite Z.land_lor_distr_l, H, Z.lor_0_r.
Qed.

Lemma has_zero m : has 0 m = false.
Proof. unfold has. now rewrite Z.land_0_l. Qed.

Section BuilderShape.

Variable h : psspec_h.
Variable cfg : config.
Variables ppwid pphgt : float.
Variable l : layout.
Variables column leftright topbottom : bool.

Lemma build_from_nth fuel : forall page i,
  page < nup cfg -> (Z.to_nat (nup cfg - page) <= fuel)%nat ->
  nth_error (build_from h cfg ppwid pphgt l column leftright topbottom fuel
               page newspec) i
  = if page + Z.of_nat i <? nup cfg
    then Some (nth_spec h cfg ppwid pphgt l column leftright topbottom
                 (page + Z.of_nat i))
    else None.
Proof.
  induction fuel as [|fuel IH]; intros page i Hp Hf; [lia|].
  cbn [build_from]. destruct (Z.ltb_spec page (nup cfg)); [|lia].
  destruct (Z.ltb_spec (page + 1) (nup cfg)) as [Hn|Hn].
  - destruct i as [|i].
    + cbn [nth_error]. rewrite Z.add_0_r. destruct (Z.ltb_spec page (nup cfg)); [|lia].
      unfold nth_spec. destruct (Z.ltb_spec (page + 1) (nup cfg)); [reflexivity|lia].
    + cbn [nth_error]. rewrite IH by lia.
      replace (page + 1 + Z.of_nat i) with (page + Z.of_nat (S i)) by lia. reflexivity.
  - destruct i as [|i].
    + cbn [nth_error]. rewrite Z.add_0_r. destruct (Z.ltb_spec page (nup cfg)); [|lia].
      unfold nth_spec. destruct (Z.ltb_spec (page + 1) (nup cfg)); [lia|reflexivity].
    + cbn [nth_error]. destruct (Z.ltb_spec (page + Z.of_nat (S i)) (nup cfg)); [lia|].
      now destruct i.
Qed.

Lemma build_from_length fuel : forall page,
  page < nup cfg -> (Z.to_nat (nup cfg - page) <= fuel)%nat ->
  List.length (build_from h cfg ppwid pphgt l column leftright topbottom fuel
                 page newspec)
  = Z.to_nat (nup cfg - page).
Proof.
  induction fuel as [|fuel IH]; intros page Hp Hf; [lia|].
  cbn [build_from]. destruct (Z.ltb_spec page (nup cfg)); [|lia].
  destruct (Z.ltb_spec (page + 1) (nup cfg)) as [Hn|Hn].
  - cbn [List.length]. rewrite IH by lia. lia.
  - cbn [List.length]. lia.
Qed.

Lemma fill_flags page :
  sp_flags (fill_spec h cfg ppwid pphgt l column leftright topbottom page newspec)
  = Z.lor (Z.lor (Z.lor 0 (if rotate l then ROTATE h else 0)) (SCALE h)) (OFFSET h).
Proof.
  unfold fill_spec. destruct (rotate l); cbn [sp_flags newspec]; [reflexivity|].
  now rewrite Z.lor_0_r.
Qed.

End BuilderShape.

(** *** The grid *)



Section Grid.
Variable l : layout.
Variables column leftright topbottom : bool.
Variable n : Z.
Hypothesis Hh : 0 < horiz l.
Hypothesis Hn : horiz l * vert l = n.
Hypothesis Hn1 : 1 <= n.



End Grid.

(** *** The header and the page count *)

Lemma frame_written d g g' : frame d g g' ->
  exists t, written (outfile g') = written (outfile g) ++ t.
Proof. intros F. apply F. Qed.

Lemma writeheadermedia_pages p ign w h g a g' :
  pagescmt g <> 0 -> writeheadermedia p ign w h g = Ok a g' ->
  exists ga, frame 0 g ga /\ frame 0 (writestring (pages_line p) ga) g'.
Proof.
  intros Hp. unfold writeheadermedia. intros H. bind_inv H x g1 H1.
  assert (Ep : pagescmt (set_infile (fseeko 0 (infile g)) g) = pagescmt g)
    by (destruct g; reflexivity).
  rewrite Ep in H1. destruct (Z.eqb_spec (pagescmt g) 0); [contradiction|].
  revert H1. fcopy_case E. case_if; [intros; discriminate|].
  destruct (fgets _) as [[b|] fin]; [|intros; discriminate].
  intros H1. bind_inv H1 y g2 H2. injection H1 as _ <-.
  exists g2. split.
  - eapply frame_step; [apply frame_set_infile|]. eapply frame_step; [exact E|].
    eapply frame_step; [apply frame_set_infile|].
    revert H2. case_if.
    + destruct (int_of_double w), (int_of_double h); try (intros; discriminate).
      intros H2; injection H2 as _ <-.
      eapply frame_step; apply writestring_frame.
    + intros H2; injection H2 as _ <-. apply frame_refl.
  - revert H. fcopy_case E2. case_if; [intros; discriminate|].
    intros H; injection H as _ <-. exact E2.
Qed.

Lemma writeheadermedia_frame p ign w h g a g' :
  writeheadermedia p ign w h g = Ok a g' -> frame 0 g g'.
Proof.
  unfold writeheadermedia. intros H. bind_inv H x g1 H1.
  eapply frame_step; [apply frame_set_infile|].
  assert (F1 : frame 0 (set_infile (fseeko 0 (infile g)) g) g1).
  { revert H1. case_if. { intros E; injection E as _ <-. apply frame_refl. }
    fcopy_case E. case_if; [intros; discriminate|].
    destruct (fgets _) as [[b|] fin]; [|intros; discriminate].
    intros H1. bind_inv H1 y g2 H2. injection H1 as _ <-.
    eapply frame_step; [exact E|]. eapply frame_step; [apply frame_set_infile|].
    eapply frame_then; [|apply writestring_frame].
    revert H2. case_if.
    + destruct (int_of_double w), (int_of_double h); try (intros; discriminate).
      intros H2; injection H2 as _ <-.
      eapply frame_step; apply writestring_frame.
    + intros H2; injection H2 as _ <-. apply frame_refl. }
  eapply frame_step; [exact F1|].
  revert H. fcopy_case E2. case_if; [intros; discriminate|].
  intros H; injection H as _ <-. exact E2.
Qed.

Lemma flags_pair h i j a b : distinct_flags h -> (i < j)%nat ->
  nth_error (flag_list h) i = Some a -> nth_error (flag_list h) j = Some b ->
  Z.land a b = 0 /\ Z.land b a = 0.
Proof.
  intros [_ H] Hij Ha Hb. pose proof (H i j a b Hij Ha Hb) as E. split; [exact E|].
  now rewrite Z.land_comm.
Qed.

Lemma flags_nonzero h i a : distinct_flags h ->
  nth_error (flag_list h) i = Some a -> a <> 0.
Proof.
  intros [H _] Ha. rewrite Forall_forall in H. apply H.
  eapply nth_error_In; eassumption.
Qed.

Section BuilderGroup.
Variable h : psspec_h.
Variable cfg : config.
Variables ppwid pphgt : float.
Variable l : layout.
Variables column leftright topbottom : bool.
Hypothesis Hd : distinct_flags h.

Lemma fill_no_add_next page :
  has (sp_flags (fill_spec h cfg ppwid pphgt l column leftright topbottom page newspec))
      (ADD_NEXT h) = false.
Proof.
  rewrite fill_flags.
  destruct (flags_pair h 0 5 _ _ Hd ltac:(lia) eq_refl eq_refl) as [A1 _].
  destruct (flags_pair h 1 5 _ _ Hd ltac:(lia) eq_refl eq_refl) as [A2 _].
  destruct (flags_pair h 2 5 _ _ Hd ltac:(lia) eq_refl eq_refl) as [A3 _].
  rewrite !has_lor_other; try assumption.
  - apply has_zero.
  - destruct (rotate l); [assumption|apply Z.land_0_l].
Qed.

Lemma build_from_one_group fuel : forall page,
  page < nup cfg -> (Z.to_nat (nup cfg - page) <= fuel)%nat ->
  one_group h (build_from h cfg ppwid pphgt l column leftright topbottom fuel page newspec).
Proof.
  induction fuel as [|fuel IH]; intros page Hp Hf; [lia|].
  cbn [build_from]. destruct (Z.ltb_spec page (nup cfg)); [|lia].
  destruct (Z.ltb_spec (page + 1) (nup cfg)) as [Hn|Hn].
  - pose proof (build_from_length h cfg ppwid pphgt l column leftright topbottom fuel (page + 1) Hn ltac:(lia)) as Hl.
    specialize (IH (page + 1) Hn ltac:(lia)).
    destruct (build_from _ _ _ _ _ _ _ _ fuel (page + 1) newspec) as [|ps2 rest] eqn:E.
    + cbn in Hl. lia.
    + cbn [one_group]. split; [|exact IH].
      unfold or_flag. cbn [sp_flags]. apply has_lor_same.
      apply (flags_nonzero h 5 _ Hd eq_refl).
  - cbn [one_group]. apply fill_no_add_next.
Qed.

Lemma build_specs_one_group : 1 <= nup cfg ->
  one_group h (build_specs h cfg ppwid pphgt l column leftright topbottom).
Proof. intros. apply build_from_one_group; lia. Qed.

End BuilderGroup.

Lemma pstops_pages h modulo pps nobind specs draw ign g g' :
  one_group h specs -> 1 <= pages g -> 1 <= modulo ->
  pstops h modulo pps nobind specs draw ign g = Ok tt g' ->
  let n := (pages g + modulo - 1) / modulo in
  maxpage_of (pages g) modulo = Some (n * modulo)
  /\ outputpage g' = outputpage g + n
  /\ (pagescmt g <> 0 -> 0 <= room (outfile g) -> 0 < room (outfile g') ->
      exists pre post,
        written (outfile g') = pre ++ pages_line (n * pps) ++ post).
Proof.
  intros Hg Hp Hm. unfold pstops.
  destruct (maxpage_of (pages g) modulo) as [m|] eqn:Em; [|discriminate].
  destruct (maxpage_of_ceil _ _ _ Hp Hm Em) as [-> Ed]. rewrite Ed. cbn [opt_bind].
  destruct (in_int _) as [total|] eqn:Et; [|discriminate].
  apply in_int_some in Et as [-> _].
  intros H. set (n := (pages g + modulo - 1) / modulo) in *. bind_inv H x1 g1 H1. bind_inv H x2 g2 H2. bind_inv H x3 g3 H3.
  bind_inv H x4 g4 H4.
  match type of H2 with write_prolog_xform ?gg = _ => set (g1' := gg) in * end.
  assert (F1' : frame 0 g1 g1').
  { unfold g1'. repeat first
      [ apply frame_refl | apply writestring_frame
      | match goal with
        | |- frame 0 ?g (if ?c then _ else _) => destruct c
        | |- frame 0 ?g (writestring _ ?g1) =>
            eapply frame_then; [|apply writestring_frame]
        end ]. }
  clearbody g1'.
  pose proof (writeheadermedia_frame _ _ _ _ _ _ _ H1) as F1.
  apply write_prolog_xform_frame in H2. apply writesetup_frame in H3.
  apply writetrailer_frame in H.
  assert (F03 : frame 0 g g3).
  { eapply frame_step; [exact F1|]. eapply frame_step; [exact F1'|].
    eapply frame_step; eassumption. }
  apply page_loop_frame in H4; [|assumption|assumption| |].
  2:{ apply Z.mul_nonneg_nonneg; [apply Z.div_pos|]; lia. }
  2:{ exists ((pages g + modulo - 1) / modulo). lia. }
  rewrite Z.sub_0_r, Z.div_mul in H4 by lia.
  assert (F : frame n g g').
  { eapply frame_step; [exact F03|]. eapply frame_then; eassumption. }
  split; [reflexivity|]. split; [apply F|].
  intros Hc Hr0 Hr.
  destruct (writeheadermedia_pages _ _ _ _ _ _ _ Hc H1) as (ga & Fa & Fb).
  assert (Fb' : frame n (writestring (pages_line (n * pps)) ga) g').
  { eapply frame_step; [exact Fb|]. eapply frame_step; [exact F1'|].
    eapply frame_step; [exact H2|]. eapply frame_step; [exact H3|].
    eapply frame_then; eassumption. }
  destruct (frame_written _ _ _ Fb') as [post Epost].
  rewrite writestring_written in Epost.
  - rewrite cstring_no_nul in Epost.
    + exists (written (outfile ga)), post. rewrite Epost, <- app_assoc. reflexivity.
    + unfold pages_line. rewrite !no_nul_app, no_nul_fmt_d. reflexivity.
  - apply Fa. exact Hr0.
  - pose proof (fr_room _ _ _ Fb'). lia.
Qed.

(** *** The copier: results *)

Lemma fcopy_as_from upto ignorelist g : wf g -> ascending (entries ignorelist) ->
  exists fuel ign,
    fcopy upto ignorelist g = fcopy_from fuel ign upto g
    /\ ascending ign /\ Forall (fun e => fpos (infile g) <= e) ign
    /\ (List.length ign <= fuel)%nat
    /\ copy_range (content (infile g)) ign (fpos (infile g)) upto
       = copy_range (content (infile g)) (entries ignorelist) (fpos (infile g)) upto.
Proof.
  intros Hwf Hasc. destruct ignorelist as [l|]; cbn [entries] in *.
  - destruct (skip_ignored_props l (fpos (infile g)) Hasc) as (A & B & C & D).
    exists (List.length (skip_ignored l (fpos (infile g)))), (skip_ignored l (fpos (infile g))).
    split; [reflexivity|]. split; [exact A|]. split; [exact B|]. split; [lia|].
    unfold copy_range. symmetry. apply walk_ext. intros p Hp. apply D. exact Hp.
  - exists 0%nat, []. split; [reflexivity|]. repeat split; constructor.
Qed.

Lemma fcopy_spec upto ignorelist g : wf g -> ascending (entries ignorelist) ->
  let w := copy_range (content (infile g)) (entries ignorelist) (fpos (infile g)) upto in
  (can_copy upto g w -> exists p', fcopy upto ignorelist g = (1, after g p' w))
  /\ (~ can_copy upto g w -> fst (fcopy upto ignorelist g) = 0).
Proof.
  intros Hwf Hasc.
  destruct (fcopy_as_from upto ignorelist g Hwf Hasc) as (fuel & ign & E & A & B & C & D).
  rewrite E, <- D. apply fcopy_from_spec; assumption.
Qed.

Lemma can_copy_dec upto g w : {can_copy upto g w} + {~ can_copy upto g w}.
Proof.
  unfold can_copy.
  destruct (Z_le_dec upto (fpos (infile g))), (Z_le_dec upto (len (content (infile g)))),
    (Z_le_dec (len w) (room (outfile g))); (left; lia) || (right; lia).
Qed.

Lemma fcopy_ok upto ignorelist g r g' : wf g -> ascending (entries ignorelist) ->
  fcopy upto ignorelist g = (r, g') -> r <> 0 ->
  let w := copy_range (content (infile g)) (entries ignorelist) (fpos (infile g)) upto in
  r = 1 /\ can_copy upto g w /\ exists p', g' = after g p' w.
Proof.
  intros Hwf Hasc E Hr w.
  destruct (fcopy_spec upto ignorelist g Hwf Hasc) as [S1 S2]. fold w in S1, S2.
  destruct (can_copy_dec upto g w) as [Hc|Hc].
  - destruct (S1 Hc) as [p' Ep]. rewrite Ep in E. injection E as <- <-. eauto.
  - specialize (S2 Hc). rewrite E in S2. contradiction.
Qed.

Lemma copy_range_none c here upto : 0 <= here ->
  copy_range c [] here upto = firstn (Z.to_nat (upto - here)) (from here c).
Proof.
  intros. rewrite copy_range_plain by (try assumption; reflexivity).
  unfold slice. f_equal. lia.
Qed.

(** [fcopy] against the walk.  [fcopy(upto, ignorelist)] from a cursor
    [here <= upto], with the ignore list ascending and ended by 0: the
    result is 0 or 1; it is 0
    exactly when a read or a write falls short before [upto] (the input ends
    before [upto], or the output has no room for the bytes to write); when
    it is 1 the output has grown by exactly the bytes of [here, upto) less
    the lines that start at the ignored offsets in that range (a line is what
    one [fgets] takes: through the newline, [BUFSIZ - 1] bytes at most), and
    [bytes] has grown by their number. *)
Theorem fcopy_copy_range upto ignorelist g :
  wf g -> fpos (infile g) <= upto -> ascending (entries ignorelist) ->
  let c := content (infile g) in
  let here := fpos (infile g) in
  let w := copy_range c (entries ignorelist) here upto in
  let r := fst (fcopy upto ignorelist g) in
  let g' := snd (fcopy upto ignorelist g) in
  (r = 0 \/ r = 1)
  /\ (r = 0 <-> here < upto /\ (len c < upto \/ room (outfile g) < len w))
  /\ (r = 1 -> written (outfile g') = written (outfile g) ++ w
               /\ bytes g' = bytes g + len w).
Proof.
  intros Hwf Hle Hasc c here w r g'.
  destruct (fcopy_spec upto ignorelist g Hwf Hasc) as [S1 S2]. fold c here w in S1, S2.
  assert (Hw0 : here = upto -> len w = 0).
  { intros E. unfold w, copy_range. replace (Z.to_nat (upto - here)) with 0%nat by lia.
    reflexivity. }
  destruct Hwf as [Hp Hr].
  destruct (can_copy_dec upto g w) as [Hc|Hc].
  - destruct (S1 Hc) as [p' Ep]. unfold r, g'. rewrite Ep. cbn [fst snd].
    destruct (after_fields g p' w) as (Ei & Eo & Eb). rewrite Eo, Eb. cbn [written].
    unfold can_copy in Hc. fold c here in Hc.
    split; [now right|]. split; [|intros _; split; reflexivity].
    split; [discriminate|]. intros [H1 H2]. lia.
  - specialize (S2 Hc). unfold r. rewrite S2.
    split; [now left|]. split; [|discriminate].
    split; [|reflexivity]. intros _. unfold can_copy in Hc. fold c here in Hc.
    pose proof (len_nonneg w). lia.
Qed.

(** C10.  When the scan recorded no [%%Pages:] comment, the header step,
    for every page count and every output size, writes nothing of its own:
    the output grows by exactly the input bytes from 0 to [headerpos] less
    the lines of the ignore list. *)
Theorem header_without_pages_comment p ignorelist (w h : float) g g' :
  wf g -> ascending (entries ignorelist) -> pagescmt g = 0 ->
  writeheadermedia p ignorelist w h g = Ok tt g' ->
  written (outfile g')
  = written (outfile g)
    ++ copy_range (content (infile g)) (entries ignorelist) 0 (headerpos g).
Proof.
  intros Hwf Hasc Hp. unfold writeheadermedia.
  set (g0 := set_infile (fseeko 0 (infile g)) g).
  assert (E0 : pagescmt g0 = 0 /\ headerpos g0 = headerpos g
               /\ infile g0 = {| content := content (infile g); fpos := 0 |}
               /\ outfile g0 = outfile g).
  { unfold g0, fseeko. destruct g as [[c p0] o]. cbn. cbn in Hp. auto. }
  destruct E0 as (E1 & E2 & E3 & E4). rewrite E1. cbn [Z.eqb bind]. rewrite E2.
  destruct (fcopy (headerpos g) ignorelist g0) as [r g1] eqn:E.
  destruct (Z.eqb_spec r 0); [discriminate|]. intros H. injection H as <-.
  assert (Hwf0 : wf g0) by (unfold wf; rewrite E3, E4; cbn [fpos]; split; [lia|apply Hwf]).
  destruct (fcopy_ok _ _ _ _ _ Hwf0 Hasc E n) as (_ & _ & p' & ->).
  destruct (after_fields g0 p' (copy_range (content (infile g0)) (entries ignorelist) (fpos (infile g0)) (headerpos g))) as (_ & Eo & _).
  rewrite Eo. cbn [written]. rewrite E3, E4. reflexivity.
Qed.

(** *** The prolog *)

Lemma after_index g p w :
  pagescmt (after g p w) = pagescmt g /\ headerpos (after g p w) = headerpos g
  /\ endsetup (after g p w) = endsetup g
  /\ beginprocset (after g p w) = beginprocset g
  /\ endprocset (after g p w) = endprocset g
  /\ pageptr (after g p w) = pageptr g /\ pages (after g p w) = pages g.
Proof. destruct g as [[c p0] [w0 r]]. repeat split. Qed.

Lemma after_seek g p w e :
  set_infile (fseeko e (infile (after g p w))) (after g p w)
  = after g (if e <? 0 then p else e) w.
Proof. destruct g as [[c p0] [w0 r]]. unfold fseeko, after. fields. now destruct (e <? 0). Qed.

Lemma fcopy_plain_ok upto g r g' : wf g ->
  fcopy_plain upto g = (r, g') -> r <> 0 ->
  g' = after g (Z.max (fpos (infile g)) upto)
             (between (content (infile g)) (fpos (infile g)) upto)
  /\ wf g'.
Proof.
  intros Hwf E Hr. destruct (fcopy_plain_spec upto g Hwf) as [S1 S2].
  set (n := Z.max 0 (upto - fpos (infile g))) in *.
  destruct (Z_le_dec n (len (rest (infile g)))) as [H1|H1];
    [destruct (Z_le_dec n (room (outfile g))) as [H2|H2]|].
  - rewrite S1 in E by lia. injection E as _ <-.
    assert (Es : slice (content (infile g)) (fpos (infile g)) n
                 = between (content (infile g)) (fpos (infile g)) upto).
    { unfold slice, between. f_equal. lia. }
    rewrite <- Es. split; [f_equal; lia|].
    destruct (after_fields g (fpos (infile g) + n) (slice (content (infile g)) (fpos (infile g)) n)) as (Ei & Eo & _).
    unfold wf. rewrite Ei, Eo. cbn [fpos room]. destruct Hwf.
    unfold slice. rewrite len_firstn by lia. lia.
  - rewrite E in S2. cbn [fst] in S2. lia.
  - rewrite E in S2. cbn [fst] in S2. lia.
Qed.

Lemma writeprolog_ok g a g' : wf g -> writeprolog g = Ok a g' ->
  g' = after g (Z.max (fpos (infile g)) (endsetup g))
             (between (content (infile g)) (fpos (infile g)) (endsetup g))
  /\ wf g'.
Proof.
  intros Hwf. unfold writeprolog. change (fcopy (endsetup g) None g) with (fcopy_plain (endsetup g) g).
  destruct (fcopy_plain (endsetup g) g) as [r g1] eqn:E.
  destruct (Z.eqb_spec r 0); [intros Hx; discriminate Hx|]. intros H; injection H as _ <-.
  eapply fcopy_plain_ok; [exact Hwf|exact E|assumption].
Qed.

(** C1 (as the code has it).  With a PStoPS procset in the input
    ([beginprocset <> 0]) the prolog step copies up to [beginprocset],
    moves the cursor to [endprocset] when one was recorded, copies on to
    [endsetup], and writes nothing else: no composition line.  Without one
    ([beginprocset = 0]) it copies straight to [endsetup] and then writes
    the line that composes [PStoPSxform].  (Without a [beginprocset] a scan
    records no [endprocset] either: [scanpages_procset].) *)
Theorem prolog_xform_line g g' : wf g ->
  write_prolog_xform g = Ok tt g' ->
  let c := content (infile g) in
  let here := fpos (infile g) in
  if beginprocset g =? 0 then
    endprocset g = 0 ->
    exists g1, g' = writestring xform_line g1
      /\ written (outfile g1) = written (outfile g) ++ between c here (endsetup g)
  else
    let resume := if 0 <? endprocset g then endprocset g
                  else Z.max here (beginprocset g) in
    written (outfile g')
    = written (outfile g) ++ between c here (beginprocset g)
        ++ between c resume (endsetup g).
Proof.
  intros Hwf H c here. unfold write_prolog_xform, writepartprolog in H.
  bind_inv H w g3 H3. bind_inv H3 x g1 H1. bind_inv H3 y g2 H2.
  injection H3 as <- <-. injection H as <-.
  destruct (Z.eqb_spec (beginprocset g) 0) as [E0|E0].
  - intros Ee. injection H1 as _ <-. rewrite Ee in H2. cbn [Z.eqb] in H2.
    apply writeprolog_ok in H2 as [-> _]; [|assumption].
    destruct (after_index g (Z.max (fpos (infile g)) (endsetup g))
      (between (content (infile g)) (fpos (infile g)) (endsetup g))) as (_ & _ & _ & Eb & _).
    rewrite Eb, E0. cbn [Z.eqb]. eexists. split; [reflexivity|].
    destruct (after_fields g (Z.max (fpos (infile g)) (endsetup g))
      (between (content (infile g)) (fpos (infile g)) (endsetup g))) as (_ & Eo & _).
    rewrite Eo. reflexivity.
  - change (fcopy (beginprocset g) None g) with (fcopy_plain (beginprocset g) g) in H1.
    destruct (fcopy_plain (beginprocset g) g) as [r gg] eqn:E.
    destruct (Z.eqb_spec r 0); [discriminate|]. injection H1 as _ <-.
    apply fcopy_plain_ok in E as [-> Hwf1]; [|assumption|assumption].
    fold c here in H2, Hwf1 |- *.
    set (s1 := between c here (beginprocset g)) in *.
    set (p1 := Z.max here (beginprocset g)) in *.
    destruct (after_index g p1 s1) as (_ & _ & Es & Eb & Ee & _).
    rewrite Ee in H2.
    set (resume := if 0 <? endprocset g then endprocset g else p1).
    assert (Egb : (if endprocset g =? 0 then after g p1 s1
                   else set_infile (fseeko (endprocset g) (infile (after g p1 s1))) (after g p1 s1))
                  = after g (if endprocset g =? 0 then p1
                             else if endprocset g <? 0 then p1 else endprocset g) s1).
    { destruct (endprocset g =? 0); [reflexivity|apply after_seek]. }
    rewrite Egb in H2.
    set (p2 := if endprocset g =? 0 then p1 else if endprocset g <? 0 then p1 else endprocset g) in *.
    assert (Ep2 : p2 = resume).
    { unfold p2, resume. destruct (Z.eqb_spec (endprocset g) 0) as [Z0|Z0].
      - rewrite Z0. reflexivity.
      - destruct (Z.ltb_spec (endprocset g) 0), (Z.ltb_spec 0 (endprocset g)); lia. }
    assert (Hwf2 : wf (after g p2 s1)).
    { destruct (after_fields g p1 s1) as (Ei & Eo & _).
      destruct (after_fields g p2 s1) as (Ei2 & Eo2 & _).
      unfold wf in *. rewrite Ei2, Eo2. rewrite Ei, Eo in Hwf1. cbn [fpos room] in *.
      split; [|lia]. rewrite Ep2. unfold resume.
      destruct (Z.ltb_spec 0 (endprocset g)); lia. }
    apply writeprolog_ok in H2 as [-> _]; [|assumption].
    rewrite after_after.
    destruct (after_index g p2 s1) as (_ & _ & Es2 & _).
    destruct (after_fields g p2 s1) as (Ei2 & _ & _).
    rewrite Es2, Ei2. cbn [content fpos]. fold c.
    match goal with |- context [after g ?p ?w] =>
      destruct (after_fields g p w) as (_ & Eo3 & _);
      destruct (after_index g p w) as (_ & _ & _ & Eb3 & _) end.
    rewrite Eb3. destruct (Z.eqb_spec (beginprocset g) 0); [contradiction|].
    rewrite Eo3. cbn [written]. rewrite Ep2. reflexivity.
Qed.

(** *** The scanner *)

Lemma length_update n v : forall l, List.length (update n v l) = List.length l.
Proof.
  induction n as [|n IH]; intros [|x r]; cbn [update List.length]; try reflexivity.
  now rewrite IH.
Qed.

Lemma nth_error_update n v : forall l m, (n < List.length l)%nat ->
  nth_error (update n v l) m = if Nat.eqb m n then Some v else nth_error l m.
Proof.
  induction n as [|n IH]; intros [|x r] m H; cbn [List.length] in H; try lia;
    cbn [update]; destruct m as [|m]; cbn [nth_error Nat.eqb]; try reflexivity.
  apply IH. lia.
Qed.

Lemma store_some i v l t : store i v l = Some t ->
  0 <= i < Z.of_nat (List.length l) /\ load i t = Some v
  /\ List.length t = List.length l
  /\ forall j, j <> i -> load j t = load j l.
Proof.
  unfold store. destruct (Z.leb_spec 0 i), (Z.ltb_spec i (Z.of_nat (List.length l)));
    cbn [andb]; intros E; try discriminate E; injection E as <-.
  split; [lia|]. split; [|split].
  - unfold load. destruct (Z.ltb_spec i 0); [lia|].
    rewrite nth_error_update by lia. now rewrite Nat.eqb_refl.
  - apply length_update.
  - intros j Hj. unfold load. destruct (Z.ltb_spec j 0); [reflexivity|].
    rewrite nth_error_update by lia.
    destruct (Nat.eqb_spec (Z.to_nat j) (Z.to_nat i)); [lia|reflexivity].
Qed.

Lemma load_some i l : 0 <= i < Z.of_nat (List.length l) -> exists v, load i l = Some v.
Proof.
  intros H. unfold load. destruct (Z.ltb_spec i 0); [lia|].
  destruct (nth_error l (Z.to_nat i)) eqn:E; [eauto|].
  apply nth_error_None in E. lia.
Qed.

(** C8.  When [scanpages] returns, the offset at which the scan stopped
    is entry [pages] of [pageptr], the entries 0 .. [pages] all exist, and
    [endsetup <= pageptr[0]]: [endsetup] is [pageptr[0]] where the value the
    scan recorded was 0 or larger than [pageptr[0]], and that value
    otherwise. *)
Theorem scanpages_sentinel sizeheaders g szs g' :
  scanpages sizeheaders g = Ok szs g' ->
  exists l g1,
    scan sizeheaders g = Ok l g1
    /\ pages g' = pages g1
    /\ load (pages g') (pageptr g') = Some (ftello (infile g1))
    /\ (forall i, 0 <= i <= pages g' -> exists off, load i (pageptr g') = Some off)
    /\ exists p0,
         load 0 (pageptr g') = Some p0
         /\ endsetup g' <= p0
         /\ endsetup g' = (if (endsetup g1 =? 0) || (p0 <? endsetup g1)
                           then p0 else endsetup g1).
Proof.
  unfold scanpages. intros H. bind_inv H l g1 H1. bind_inv H u g2 H2.
  injection H as _ <-. exists l, g1. split; [exact H1|].
  unfold finish in H2. clear H1.
  destruct (store (pages g1) (ftello (infile g1)) (pageptr g1)) as [t|] eqn:Es; [|discriminate].
  apply store_some in Es as (Hr & Hl & Hlen & _).
  assert (Hall : forall i, 0 <= i <= pages g1 -> exists off, load i t = Some off).
  { intros i Hi. apply load_some. lia. }
  destruct g1 as [i1 o1 b1 pc1 hp1 es1 bp1 ep1 op1 mp1 pp1 pg1 pl1 pn1 w1 h1]. fields.
  destruct (load 0 t) as [p0|] eqn:E0; [|discriminate].
  destruct ((es1 =? 0) || (p0 <? es1)) eqn:Ec; injection H2 as _ <-; fields;
    (split; [reflexivity|]); (split; [assumption|]); (split; [assumption|]);
    exists p0; (split; [assumption|]).
  - rewrite Ec. split; [lia|reflexivity].
  - rewrite Ec. apply orb_false_iff in Ec as [_ Ec]. apply Z.ltb_ge in Ec.
    split; [exact Ec|reflexivity].
Qed.

(** *** Dimensions *)

Lemma number_run_length s : (List.length (number_run s) <= List.length s)%nat.
Proof.
  induction s as [|c r IH]; cbn [number_run List.length]; [lia|].
  destruct (number_char c); cbn [List.length]; lia.
Qed.

Lemma number_run_progress s :
  Nat.eqb (List.length (number_run s)) (List.length s)
  = match s with [] => true | c :: _ => negb (number_char c) end.
Proof.
  destruct s as [|c r]; [reflexivity|]. cbn [number_run]. destruct (number_char c) eqn:E.
  - cbn [negb List.length]. pose proof (number_run_length r).
    destruct (Nat.eqb_spec (List.length (number_run r)) (S (List.length r))); [lia|reflexivity].
  - cbn [negb]. apply Nat.eqb_refl.
Qed.

Lemma parsedouble_ok atof s g v g' : parsedouble atof s g = Ok v g' ->
  g' = g /\ v = (atof s, number_run (cstring s))
  /\ exists c r, cstring s = c :: r /\ number_char c = true.
Proof.
  unfold parsedouble. rewrite number_run_progress.
  destruct (cstring s) as [|c r] eqn:E; [discriminate|].
  destruct (number_char c) eqn:Ec; [|discriminate]. cbn [negb].
  intros H; injection H as <- <-. split; [reflexivity|]. split; [reflexivity|]. eauto.
Qed.

Lemma parsedimen_state atof s g v g' : parsedimen atof s g = Ok v g' -> g' = g.
Proof.
  unfold parsedimen. intros H. bind_inv H r g1 H1.
  apply parsedouble_ok in H1 as (-> & _).
  repeat (revert H; case_if; intros H); try discriminate H; now injection H.
Qed.

(** The number scan of [singledimen] as the code has it.  [singledimen]
    ends with the argument error
    whenever the string does not open with a character of the class the
    number scan takes (a digit, [-] or [.]), and with the usage error
    whenever characters remain after the unit suffix; every string it
    accepts opens with a character of that class (not always a digit) and
    leaves nothing after the suffix. *)
Theorem singledimen_number_class atof s g :
  ((forall c r, cstring s = c :: r -> number_char c = false) ->
     singledimen atof s g = Fatal "argerror" g)
  /\ (forall v g', singledimen atof s g = Ok v g' ->
        g' = g /\ parsedimen atof s g = Ok (v, []) g
        /\ exists c r, cstring s = c :: r /\ number_char c = true)
  /\ (forall num c rest, parsedimen atof s g = Ok (num, c :: rest) g ->
        singledimen atof s g = Fatal "usage" g).
Proof.
  split; [|split].
  - intros Hno. unfold singledimen, parsedimen, parsedouble.
    rewrite number_run_progress. destruct (cstring s) as [|c r] eqn:E; [reflexivity|].
    rewrite (Hno c r eq_refl). reflexivity.
  - intros v g'. unfold singledimen. intros H. bind_inv H r g1 H1.
    pose proof (parsedimen_state _ _ _ _ _ H1) as ->.
    destruct r as [num rest]. cbn [fst snd] in H.
    destruct rest as [|c rest]; [|discriminate]. injection H as <- <-.
    split; [reflexivity|]. split; [exact H1|].
    unfold parsedimen in H1. bind_inv H1 r g1 H2.
    apply parsedouble_ok in H2 as (_ & _ & Hc). exact Hc.
  - intros num c rest H. unfold singledimen. rewrite H. reflexivity.
Qed.

(** *** The loops never run out of turns *)

Lemma copy_chunks_fuel fuel1 : forall fuel2 bl g,
  (Z.to_nat bl <= fuel1)%nat -> (Z.to_nat bl <= fuel2)%nat ->
  copy_chunks fuel1 bl g = copy_chunks fuel2 bl g.
Proof.
  induction fuel1 as [|fuel1 IH]; intros [|fuel2] bl g H1 H2; cbn [copy_chunks];
    destruct (Z.leb_spec bl 0) as [Hle|Hgt]; try reflexivity; try lia.
  assert (Hk : 1 <= (if BUFSIZ <? bl then BUFSIZ else bl) <= bl).
  { destruct (Z.ltb_spec BUFSIZ bl); unfold BUFSIZ in *; lia. }
  destruct (fread _ (infile g)) as [buf fin]. destruct (len buf <? _); [reflexivity|].
  destruct (fwrite buf _) as [w fout]. destruct (w <? _); [reflexivity|].
  apply IH; lia.
Qed.

Lemma skip_ignored_length ign here :
  (List.length (skip_ignored ign here) <= List.length ign)%nat.
Proof.
  induction ign as [|e r IH]; cbn [skip_ignored List.length]; [lia|].
  destruct (_ && _); cbn [List.length]; lia.
Qed.

Lemma ignore_loop_fuel fuel1 : forall fuel2 ign upto g,
  (List.length ign <= fuel1)%nat -> (List.length ign <= fuel2)%nat ->
  ignore_loop fuel1 ign upto g = ignore_loop fuel2 ign upto g.
Proof.
  induction fuel1 as [|fuel1 IH]; intros [|fuel2] ign upto g H1 H2; cbn [ignore_loop];
    try reflexivity.
  - destruct ign; [reflexivity|cbn in H1; lia].
  - destruct ign; [reflexivity|cbn in H2; lia].
  - destruct (_ && _); [|reflexivity].
    destruct (fcopy_plain _ g) as [r g1]. destruct (r =? 0); [reflexivity|].
    destruct (fgets (infile g1)) as [[b|] fin]; [|reflexivity].
    pose proof (skip_ignored_length (tl ign) (ftello (infile (set_infile fin g1)))).
    assert (List.length (tl ign) <= fuel1 /\ List.length (tl ign) <= fuel2)%nat
      by (destruct ign; cbn [tl List.length] in *; lia).
    apply IH; lia.
Qed.

Lemma page_loop_fuel h maxpage modulo drw specs : 1 <= modulo ->
  forall fuel1 fuel2 thispg pi g,
  (Z.to_nat (maxpage - thispg) <= fuel1)%nat ->
  (Z.to_nat (maxpage - thispg) <= fuel2)%nat ->
  page_loop h fuel1 maxpage thispg modulo drw specs pi g
  = page_loop h fuel2 maxpage thispg modulo drw specs pi g.
Proof.
  intros Hm. induction fuel1 as [|fuel1 IH]; intros [|fuel2] thispg pi g H1 H2;
    cbn [page_loop]; destruct (Z.ltb_spec thispg maxpage); try reflexivity; try lia.
  destruct (spec_loop _ _ _ _ _ _ _ _ _) as [pi' g1| |]; cbn [bind]; try reflexivity.
  apply IH; lia.
Qed.

Lemma nextdiv_loop_range fuel : forall n m, 0 <= n ->
  nextdiv_loop fuel n m = 0
  \/ (n < nextdiv_loop fuel n m <= m /\ Z.rem m (nextdiv_loop fuel n m) = 0).
Proof.
  induction fuel as [|fuel IH]; intros n m Hn; cbn [nextdiv_loop]; [now left|].
  destruct (Z.leb_spec (n + 1) m); [|now left].
  destruct (Z.eqb_spec (Z.rem m (n + 1)) 0); [right; lia|].
  destruct (IH (n + 1) m ltac:(lia)) as [E|E]; [now left|right; lia].
Qed.

Lemma nextdiv_loop_fuel fuel1 : forall fuel2 n m,
  (Z.to_nat (m - n) <= fuel1)%nat -> (Z.to_nat (m - n) <= fuel2)%nat ->
  nextdiv_loop fuel1 n m = nextdiv_loop fuel2 n m.
Proof.
  induction fuel1 as [|fuel1 IH]; intros [|fuel2] n m H1 H2; cbn [nextdiv_loop];
    destruct (Z.leb_spec (n + 1) m); try reflexivity; try lia.
  destruct (Z.rem m (n + 1) =? 0); [reflexivity|]. apply IH; lia.
Qed.

Lemma search_fuel cfg ppwid pphgt w h fuel1 : forall fuel2 hor l,
  0 <= hor ->
  (Z.to_nat (nup cfg - hor) < fuel1)%nat -> (Z.to_nat (nup cfg - hor) < fuel2)%nat ->
  search cfg ppwid pphgt w h fuel1 hor l = search cfg ppwid pphgt w h fuel2 hor l.
Proof.
  induction fuel1 as [|fuel1 IH]; intros [|fuel2] hor l Hh H1 H2; try lia.
  cbn [search]. destruct (Z.eqb_spec hor 0); [reflexivity|].
  unfold nextdiv.
  destruct (nextdiv_loop_range (Z.to_nat (nup cfg - hor)) hor (nup cfg) Hh) as [E|[E _]].
  - rewrite E. destruct fuel1, fuel2; reflexivity.
  - apply IH; lia.
Qed.

Lemma push_page_inv record g a g' : push_page record g = Ok a g' ->
  exists g1 t,
    (g1 = g
     \/ g1 = set_pageptr (pageptr g ++ repeat 0 (Z.to_nat (maxpages g)))
                         (set_maxpages (maxpages g * 2) g))
    /\ store (pages g1) record (pageptr g1) = Some t
    /\ g' = set_pages (pages g1 + 1) (set_pageptr t g1).
Proof.
  unfold push_page. intros H. apply bind_ok in H as (x & g1 & H1 & H).
  cbv beta in H. exists g1.
  destruct (store (pages g1) record (pageptr g1)) as [t|] eqn:Es; [|discriminate].
  exists t. split; [|split; [reflexivity|congruence]].
  revert H1. repeat case_if; intros E; try discriminate E;
    injection E as _ <-; [now right|now left].
Qed.

Lemma push_page_infile record g a g' :
  push_page record g = Ok a g' -> infile g' = infile g.
Proof.
  intros H. apply push_page_inv in H as (g1 & t & [->| ->] & _ & ->);
    destruct g; reflexivity.
Qed.

Lemma scan_line_infile record buffer l g r g' :
  scan_line record buffer l g = Ok r g' -> fst r = false ->
  infile g' = infile g.
Proof.
  unfold scan_line, push_sizeheader.
  repeat match goal with
         | |- context [if ?c then _ else _] => destruct c
         end;
    try (destruct (szcap l); [case_if|]); cbn [bind];
    try (destruct (push_page record g) as [a g1| |] eqn:E; cbn [bind];
         [apply push_page_infile in E|..]);
    intros H Hr; try discriminate H; injection H as <- <-;
    try discriminate Hr; try assumption; destruct g; reflexivity.
Qed.

Lemma rest_after_fgets f b fin : 0 <= fpos f -> fgets f = (Some b, fin) ->
  0 <= fpos fin /\ (List.length (rest fin) < List.length (rest f))%nat.
Proof.
  intros Hp. destruct (Z_lt_le_dec (fpos f) (len (content f))) as [Hl|Hl].
  - rewrite fgets_some by assumption. intros E; injection E as _ <-.
    destruct (line_at_bounds (content f) (fpos f) Hp Hl) as [L1 L2].
    unfold rest. cbn [content fpos].
    pose proof (len_from (fpos f) (content f) Hp).
    pose proof (len_from (fpos f + len (line_at (content f) (fpos f))) (content f) ltac:(lia)).
    unfold len in *. split; lia.
  - rewrite fgets_none by assumption. discriminate.
Qed.

Lemma scan_loop_fuel fuel1 : forall fuel2 l g, 0 <= fpos (infile g) ->
  (List.length (rest (infile g)) < fuel1)%nat ->
  (List.length (rest (infile g)) < fuel2)%nat ->
  scan_loop fuel1 l g = scan_loop fuel2 l g.
Proof.
  induction fuel1 as [|fuel1 IH]; intros [|fuel2] l g Hp H1 H2; try lia.
  cbn [scan_loop]. destruct (fgets (infile g)) as [[b|] fin] eqn:Eg; [|reflexivity].
  destruct (rest_after_fgets _ _ _ Hp Eg) as [Hp' Hlt].
  destruct (scan_line _ b l (set_infile fin g)) as [r g1| |] eqn:Es; cbn [bind];
    try reflexivity.
  destruct (fst r) eqn:Er; [reflexivity|].
  apply scan_line_infile in Es; [|assumption].
  assert (Ei : infile (set_infile fin g) = fin) by (destruct g; reflexivity).
  rewrite Ei in Es. apply IH; rewrite Es; try assumption; lia.
Qed.

Lemma pagesetup_loop_fuel fuel1 : forall fuel2 g, 0 <= fpos (infile g) ->
  (List.length (rest (infile g)) < fuel1)%nat ->
  (List.length (rest (infile g)) < fuel2)%nat ->
  pagesetup_loop fuel1 g = pagesetup_loop fuel2 g.
Proof.
  induction fuel1 as [|fuel1 IH]; intros [|fuel2] g Hp H1 H2; try lia.
  cbn [pagesetup_loop]. destruct (fgets (infile g)) as [[b|] fin] eqn:Eg; [|reflexivity].
  destruct (rest_after_fgets _ _ _ Hp Eg) as [Hp' Hlt].
  destruct (starts_with _ b); [reflexivity|].
  destruct (fputs b _) as [eof fout]. destruct eof; [reflexivity|].
  assert (Ei : forall n, infile (set_bytes n (set_outfile fout (set_infile fin g))) = fin)
    by (intros; destruct g; reflexivity).
  apply IH; rewrite Ei; try assumption; lia.
Qed.

Lemma trailer_loop_fuel fuel1 : forall fuel2 g, 0 <= fpos (infile g) ->
  (List.length (rest (infile g)) < fuel1)%nat ->
  (List.length (rest (infile g)) < fuel2)%nat ->
  trailer_loop fuel1 g = trailer_loop fuel2 g.
Proof.
  induction fuel1 as [|fuel1 IH]; intros [|fuel2] g Hp H1 H2; try lia.
  cbn [trailer_loop]. destruct (fgets (infile g)) as [[b|] fin] eqn:Eg; [|reflexivity].
  destruct (rest_after_fgets _ _ _ Hp Eg) as [Hp' Hlt].
  assert (Ei : infile (writestring b (set_infile fin g)) = fin).
  { unfold writestring. destruct (fputs b _) as [e f]. destruct g; reflexivity. }
  apply IH; rewrite Ei; try assumption; lia.
Qed.

(** *** Whole lines, the layout search, the page table *)

Lemma take_line_whole n : forall l,
  (List.length (whole_line l) <= n)%nat -> take_line n l = whole_line l.
Proof.
  induction n as [|n IH]; intros [|b r]; cbn [whole_line take_line]; try reflexivity.
  - destruct (Byte.eqb b nl); cbn [List.length]; lia.
  - destruct (Byte.eqb b nl); cbn [List.length]; [reflexivity|].
    intros H. f_equal. apply IH. lia.
Qed.

Lemma line_at_whole c p : len (whole_line (from p c)) <= BUFSIZ - 1 ->
  line_at c p = whole_line (from p c).
Proof. intros H. apply take_line_whole. unfold len in H. lia. Qed.

Lemma drop_lines_from_fit c ign : forall n pos skip,
  (forall e, In e ign -> pos <= e < pos + Z.of_nat n ->
     len (whole_line (from e c)) < BUFSIZ) ->
  drop_lines_from c ign n pos skip = copy_range_from c ign n pos skip.
Proof.
  induction n as [|n IH]; intros pos skip Hfit; [reflexivity|].
  cbn [drop_lines_from copy_range_from].
  assert (Hn : forall e, In e ign -> pos + 1 <= e < pos + 1 + Z.of_nat n ->
                 len (whole_line (from e c)) < BUFSIZ)
    by (intros e He Hr; apply Hfit; [exact He|lia]).
  destruct (0 <? skip); [apply IH; exact Hn|].
  destruct (existsb (Z.eqb pos) ign) eqn:Ex.
  - apply existsb_exists in Ex as (e & He & Ee). apply Z.eqb_eq in Ee. subst e.
    rewrite line_at_whole by (specialize (Hfit pos He); lia).
    apply IH. exact Hn.
  - f_equal. apply IH. exact Hn.
Qed.

(** C9 (as the code has it).  [fcopy(upto, ignorelist)] from a cursor
    [here <= upto], with the ignore list ascending and ended by 0, where
    every line that starts at an ignored offset in [here, upto) has, its
    newline counted, fewer than [BUFSIZ] bytes: the result is 0 or 1; it
    is 0 exactly when a read or a write falls short before [upto] (the
    input ends before [upto], or the output has no room for the bytes to
    write); when it is 1 the output has grown by exactly the bytes of
    [here, upto) less the whole lines that start at the ignored offsets in
    that range, and [bytes] has grown by their number. *)
Theorem fcopy_drops_whole_lines upto ignorelist g :
  wf g -> fpos (infile g) <= upto -> ascending (entries ignorelist) ->
  (forall e, In e (entries ignorelist) -> fpos (infile g) <= e < upto ->
     len (whole_line (from e (content (infile g)))) < BUFSIZ) ->
  let c := content (infile g) in
  let here := fpos (infile g) in
  let w := drop_lines c (entries ignorelist) here upto in
  let r := fst (fcopy upto ignorelist g) in
  let g' := snd (fcopy upto ignorelist g) in
  (r = 0 \/ r = 1)
  /\ (r = 0 <-> here < upto /\ (len c < upto \/ room (outfile g) < len w))
  /\ (r = 1 -> written (outfile g') = written (outfile g) ++ w
               /\ bytes g' = bytes g + len w).
Proof.
  intros Hwf Hle Hasc Hfit c here w.
  assert (Ew : w = copy_range c (entries ignorelist) here upto).
  { unfold w, drop_lines, copy_range. apply drop_lines_from_fit.
    intros e He Hr. apply Hfit; [exact He|]. fold here. lia. }
  rewrite Ew. exact (fcopy_copy_range upto ignorelist g Hwf Hle Hasc).
Qed.

Lemma to_int_small n : INT_MIN <= n <= INT_MAX -> to_int n = n.
Proof.
  unfold to_int, INT_MIN, INT_MAX. intros H. rewrite Z.mod_small; lia.
Qed.

Lemma try_layout_grid cfg ppwid pphgt w h hor l :
  1 <= hor <= nup cfg -> nup cfg <= INT_MAX -> Z.rem (nup cfg) hor = 0 ->
  grid_or_none (nup cfg) l ->
  grid_or_none (nup cfg) (try_layout cfg ppwid pphgt w h hor l).
Proof.
  intros Hh Hn Hr Hl.
  pose proof (Z.quot_rem' (nup cfg) hor) as E. rewrite Hr, Z.add_0_r in E.
  assert (Hv : 1 <= Z.quot (nup cfg) hor <= nup cfg) by nia.
  assert (E1 : to_int hor = hor) by (apply to_int_small; unfold INT_MIN; lia).
  assert (E2 : to_int (Z.quot (nup cfg) hor) = Z.quot (nup cfg) hor)
    by (apply to_int_small; unfold INT_MIN; lia).
  unfold try_layout. rewrite E1, E2.
  repeat match goal with |- context [if ?c then _ else _] => destruct c end;
    try assumption; right; cbn [horiz vert]; lia.
Qed.

Lemma search_grid cfg ppwid pphgt w h : 1 <= nup cfg <= INT_MAX ->
  forall fuel hor l,
  hor = 0 \/ (1 <= hor <= nup cfg /\ Z.rem (nup cfg) hor = 0) ->
  grid_or_none (nup cfg) l ->
  grid_or_none (nup cfg) (search cfg ppwid pphgt w h fuel hor l).
Proof.
  intros Hn. induction fuel as [|fuel IH]; intros hor l Hh Hl; cbn [search];
    destruct (Z.eqb_spec hor 0); try assumption.
  destruct Hh as [Hh|[Hh Hr]]; [contradiction|].
  apply IH.
  - unfold nextdiv.
    destruct (nextdiv_loop_range (Z.to_nat (nup cfg - hor)) hor (nup cfg) ltac:(lia))
      as [E|E]; [now left|right; lia].
  - apply try_layout_grid; try assumption; lia.
Qed.

Lemma find_layout_grid cfg ppwid pphgt w h : 1 <= nup cfg <= INT_MAX ->
  grid_or_none (nup cfg) (find_layout cfg ppwid pphgt w h).
Proof.
  intros Hn. unfold find_layout. apply search_grid; [assumption| |left; split; reflexivity].
  right. split; [lia|]. apply Z.rem_1_r.
Qed.

Lemma store_defined i v l : 0 <= i < Z.of_nat (List.length l) ->
  exists t, store i v l = Some t /\ List.length t = List.length l.
Proof.
  intros H. unfold store. destruct (Z.leb_spec 0 i), (Z.ltb_spec i (Z.of_nat (List.length l)));
    try lia. cbn [andb]. eexists. split; [reflexivity|apply length_update].
Qed.

Lemma push_page_table record g : table_ok g ->
  match push_page record g with
  | Ok _ g' => table_ok g'
  | Fatal msg _ => msg = "out of memory"%string
  | Undefined why => why = "int overflow"%string
  end.
Proof.
  intros (H1 & H2 & H3). unfold push_page.
  destruct (Z.leb_spec (maxpages g - 1) (pages g)) as [Hfull|Hfree].
  - destruct ((maxpages g * 2 <? INT_MIN) || (INT_MAX <? maxpages g * 2));
      [reflexivity|].
    destruct (memory g (maxpages g * 2)); [|reflexivity]. cbn [bind].
    set (g1 := set_pageptr _ _).
    assert (E : pages g1 = pages g /\ maxpages g1 = maxpages g * 2
                /\ Z.of_nat (List.length (pageptr g1)) = maxpages g * 2).
    { unfold g1. destruct g; cbn in *. rewrite length_app, repeat_length. lia. }
    destruct E as (E1 & E2 & E3).
    destruct (store_defined (pages g1) record (pageptr g1) ltac:(lia)) as (t & Et & El).
    rewrite Et. unfold table_ok. destruct g1; cbn in *. lia.
  - cbn [bind].
    destruct (store_defined (pages g) record (pageptr g) ltac:(lia)) as (t & Et & El).
    rewrite Et. unfold table_ok. destruct g; cbn in *. lia.
Qed.

Lemma scan_line_table record buffer l g : table_ok g ->
  match scan_line record buffer l g with
  | Ok _ g' => table_ok g'
  | Fatal msg _ => msg = "out of memory"%string
  | Undefined why =>
      why = "sizeheaders overrun"%string \/ why = "int overflow"%string
  end.
Proof.
  intros Ht. unfold scan_line, push_sizeheader.
  pose proof (push_page_table record g Ht) as Hp.
  repeat match goal with
         | |- context [if ?c then _ else _] => destruct c
         end;
    try (destruct (szcap l); [case_if|]); cbn [bind];
    try (destruct (push_page record g) as [a gp| |]; cbn [bind]);
    try reflexivity; try assumption; try (now left); try (now right);
    unfold table_ok in *; destruct g; cbn in *; assumption.
Qed.

Lemma scan_loop_table fuel : forall l g, table_ok g ->
  match scan_loop fuel l g with
  | Ok _ g' => table_ok g'
  | Fatal msg _ => msg = "out of memory"%string
  | Undefined why =>
      why = "sizeheaders overrun"%string \/ why = "int overflow"%string
  end.
Proof.
  induction fuel as [|fuel IH]; intros l g Ht; cbn [scan_loop]; [assumption|].
  destruct (fgets (infile g)) as [[b|] fin]; [|assumption].
  assert (Ht' : table_ok (set_infile fin g)) by (unfold table_ok in *; destruct g; assumption).
  pose proof (scan_line_table (ftello (infile g)) b l _ Ht') as H.
  destruct (scan_line _ b l _) as [r g1| |]; cbn [bind]; try assumption.
  destruct (fst r); [assumption|apply IH; assumption].
Qed.

(** The page table always holds the sentinel: a scan of an input, from a
    table of at least one cell, never reads or writes outside the table.  It
    stops the process only with [out of memory], and leaves what C defines
    only by writing past the caller's [sizeheaders] or by doubling
    [maxpages] out of [int]. *)
Lemma scanpages_defined sizeheaders g : 1 <= maxpages g ->
  match scanpages sizeheaders g with
  | Ok _ _ => True
  | Fatal msg _ => msg = "out of memory"%string
  | Undefined why =>
      why = "sizeheaders overrun"%string \/ why = "int overflow"%string
  end.
Proof.
  intros Hm. unfold scanpages.
  assert (Hs : match scan sizeheaders g with
               | Ok _ g' => table_ok g'
               | Fatal msg _ => msg = "out of memory"%string
               | Undefined why =>
                   why = "sizeheaders overrun"%string
                   \/ why = "int overflow"%string
               end).
  { assert (Ht : table_ok (set_infile (fseeko 0 (infile (set_pages 0
                   (set_pageptr (repeat 0 (Z.to_nat (maxpages g))) g))))
                   (set_pages 0 (set_pageptr (repeat 0 (Z.to_nat (maxpages g))) g)))).
    { unfold table_ok. destruct g; cbn in *. rewrite repeat_length. lia. }
    unfold scan. case_if; [now left|]. case_if; [reflexivity|].
    apply scan_loop_table. exact Ht. }
  destruct (scan sizeheaders g) as [l g1| |]; cbn [bind]; try assumption.
  destruct Hs as (H1 & H2 & H3). unfold finish.
  destruct (store_defined (pages g1) (ftello (infile g1)) (pageptr g1) ltac:(lia))
    as (t & Et & El).
  rewrite Et.
  assert (Ep : pageptr (set_pageptr t g1) = t /\ endsetup (set_pageptr t g1) = endsetup g1)
    by (destruct g1; auto).
  destruct Ep as [-> ->].
  destruct (load_some 0 t ltac:(lia)) as [p0 E0]. rewrite E0.
  destruct (_ || _); exact I.
Qed.

Lemma push_page_procset record g a g' : push_page record g = Ok a g' ->
  infile g' = infile g /\ beginprocset g' = beginprocset g
  /\ endprocset g' = endprocset g.
Proof.
  intros H. apply push_page_inv in H as (g1 & t & [->| ->] & _ & ->);
    destruct g; auto.
Qed.

Lemma scan_line_procset record buffer l g r g' :
  0 <= endprocset g <= record -> record <= fpos (infile g) ->
  (beginprocset g = 0 -> endprocset g = 0) ->
  scan_line record buffer l g = Ok r g' -> procset_ok g'.
Proof.
  intros Hr Hp Hb. unfold scan_line, push_sizeheader, procset_ok.
  repeat match goal with
         | |- context [if ?c then _ else _] => destruct c eqn:?
         end;
    try (destruct (szcap l); [case_if|]); cbn [bind];
    try (destruct (push_page record g) as [a g1| |] eqn:E; cbn [bind];
         [apply push_page_procset in E as (E1 & E2 & E3)|..]);
    intros H; try discriminate H; injection H as <- <-;
    try (rewrite E1, E2, E3); try (split; [lia|assumption]);
    destruct g; fields; unfold ftello, fseeko; fields; try (split; [lia|]);
    try assumption; try (intros; lia).

all: destruct (Z.ltb_spec record 0); fields; (split; [lia|assumption]).
Qed.

Lemma fgets_advances f b fin : 0 <= fpos f -> fgets f = (Some b, fin) ->
  fpos f <= fpos fin.
Proof.
  intros Hp. destruct (Z_lt_le_dec (fpos f) (len (content f))) as [Hl|Hl].
  - rewrite fgets_some by assumption. intros E; injection E as _ <-.
    destruct (line_at_bounds (content f) (fpos f) Hp Hl) as [L1 L2].
    cbn [fpos]. lia.
  - rewrite fgets_none by assumption. discriminate.
Qed.

Lemma scan_loop_procset fuel : forall l g l' g', procset_ok g ->
  scan_loop fuel l g = Ok l' g' -> procset_ok g'.
Proof.
  induction fuel as [|fuel IH]; intros l g l' g' Hg; cbn [scan_loop].
  - intros E; injection E as _ <-. exact Hg.
  - destruct (fgets (infile g)) as [[b|] fin] eqn:Eg.
    2:{ intros E; injection E as _ <-. exact Hg. }
    destruct Hg as (He & Hb).
    pose proof (fgets_advances (infile g) _ _ ltac:(lia) Eg) as Ha.
    intros H. bind_inv H r g1 H1.
    assert (Hg1 : procset_ok g1).
    { apply (scan_line_procset _ _ _ _ _ _) in H1; [exact H1|..];
        destruct g; fields; unfold ftello; fields; try assumption; lia. }
    destruct (fst r); [injection H as _ <-; exact Hg1|].
    eapply IH; eassumption.
Qed.

(** After a scan that started with no procset mark, an [endprocset] is
    only there together with a [beginprocset]. *)
Lemma scanpages_procset sizeheaders g szs g' :
  beginprocset g = 0 -> endprocset g = 0 ->
  scanpages sizeheaders g = Ok szs g' ->
  beginprocset g' = 0 -> endprocset g' = 0.
Proof.
  intros Hb He H. unfold scanpages in H.
  bind_inv H l g1 H1. bind_inv H x g2 H2. injection H as _ <-.
  assert (Hg1 : procset_ok g1).
  { unfold scan in H1. revert H1. case_if; [discriminate|].
    case_if; [discriminate|].
    apply scan_loop_procset. unfold procset_ok, fseeko.
    destruct g; cbn in *. subst. split; [lia|reflexivity]. }
  destruct Hg1 as (_ & Hi).
  unfold finish in H2. destruct (store _ _ _); [|discriminate].
  destruct (load _ _); [|discriminate].
  revert H2. case_if; intros E; injection E as _ <-; destruct g1; fields; exact Hi.
Qed.

(* ================================================================== *)
(** ** The spec builder: flags and cells *)

Lemma flag_bits_distinct : distinct_flags flag_bits.
Proof.
  split.
  - repeat constructor; discriminate.
  - intros i j a b Hij Ha Hb. unfold flag_list, flag_bits in Ha, Hb.
    cbn [SCALE OFFSET ROTATE HFLIP VFLIP ADD_NEXT REVERSED] in Ha, Hb.
    do 7 (destruct i as [|i]; cbn [nth_error] in Ha;
          [injection Ha as <-;
           do 7 (destruct j as [|j]; cbn [nth_error] in Hb;
                 [try lia; injection Hb as <-; reflexivity|]);
           destruct j; discriminate Hb|]).
    destruct i; discriminate Ha.
Qed.

Lemma flag_bits_mask : gsave_mask flag_bits.
Proof. reflexivity. Qed.

Lemma has_self m : m <> 0 -> has m m = true.
Proof.
  intros Hm. unfold has. rewrite Z.land_diag. now destruct (Z.eqb_spec m 0).
Qed.

Lemma has_disjoint x m : Z.land x m = 0 -> has x m = false.
Proof. intros E. unfold has. now rewrite E. Qed.

Lemma built_flags_tests h rot last : distinct_flags h ->
  has (built_flags h rot last) (SCALE h) = true
  /\ has (built_flags h rot last) (OFFSET h) = true
  /\ has (built_flags h rot last) (ADD_NEXT h) = negb last
  /\ has (built_flags h rot last) (ROTATE h) = rot
  /\ has (built_flags h rot last) (HFLIP h) = false
  /\ has (built_flags h rot last) (VFLIP h) = false
  /\ has (built_flags h rot last) (REVERSED h) = false.
Proof.
  intros Hd.
  assert (P : forall i j a b, (i < j)%nat ->
            nth_error (flag_list h) i = Some a -> nth_error (flag_list h) j = Some b ->
            Z.land a b = 0 /\ Z.land b a = 0)
    by (intros; eapply flags_pair; eassumption).
  assert (N : forall i a, nth_error (flag_list h) i = Some a -> a <> 0)
    by (intros; eapply flags_nonzero; eassumption).
  pose proof (N 0%nat _ eq_refl) as NS. pose proof (N 1%nat _ eq_refl) as NO.
  pose proof (N 2%nat _ eq_refl) as NR. pose proof (N 5%nat _ eq_refl) as NA.
  destruct (P 0%nat 1%nat _ _ ltac:(lia) eq_refl eq_refl) as [SO OS].
  destruct (P 0%nat 2%nat _ _ ltac:(lia) eq_refl eq_refl) as [SR RS].
  destruct (P 0%nat 3%nat _ _ ltac:(lia) eq_refl eq_refl) as [SH _].
  destruct (P 0%nat 4%nat _ _ ltac:(lia) eq_refl eq_refl) as [SV _].
  destruct (P 0%nat 5%nat _ _ ltac:(lia) eq_refl eq_refl) as [SA AS].
  destruct (P 0%nat 6%nat _ _ ltac:(lia) eq_refl eq_refl) as [SX _].
  destruct (P 1%nat 2%nat _ _ ltac:(lia) eq_refl eq_refl) as [OR RO].
  destruct (P 1%nat 3%nat _ _ ltac:(lia) eq_refl eq_refl) as [OH _].
  destruct (P 1%nat 4%nat _ _ ltac:(lia) eq_refl eq_refl) as [OV _].
  destruct (P 1%nat 5%nat _ _ ltac:(lia) eq_refl eq_refl) as [OA AO].
  destruct (P 1%nat 6%nat _ _ ltac:(lia) eq_refl eq_refl) as [OX _].
  destruct (P 2%nat 3%nat _ _ ltac:(lia) eq_refl eq_refl) as [RH _].
  destruct (P 2%nat 4%nat _ _ ltac:(lia) eq_refl eq_refl) as [RV _].
  destruct (P 2%nat 5%nat _ _ ltac:(lia) eq_refl eq_refl) as [RA AR].
  destruct (P 2%nat 6%nat _ _ ltac:(lia) eq_refl eq_refl) as [RX _].
  destruct (P 3%nat 5%nat _ _ ltac:(lia) eq_refl eq_refl) as [_ AH].
  destruct (P 4%nat 5%nat _ _ ltac:(lia) eq_refl eq_refl) as [_ AV].
  destruct (P 5%nat 6%nat _ _ ltac:(lia) eq_refl eq_refl) as [AX _].
  cbn [flag_list nth_error] in *.
  unfold built_flags.
  repeat split; destruct rot, last; cbn [negb];
    rewrite ?Z.lor_0_r, ?Z.lor_0_l;
    repeat first
      [ apply has_zero
      | apply has_lor_same; assumption
      | apply has_disjoint; assumption
      | apply has_self; assumption
      | rewrite has_lor_other by assumption ].
Qed.

Lemma built_flags_gsave h rot last :
  has (built_flags h rot last) (GSAVE h) = true ->
  Z.land (Z.lor (Z.lor (Z.lor (SCALE h) (OFFSET h)) (ROTATE h)) (ADD_NEXT h))
         (GSAVE h) <> 0.
Proof.
  intros H E. rewrite !Z.land_lor_distr_l in E.
  apply Z.lor_eq_0_iff in E as [E EA]. apply Z.lor_eq_0_iff in E as [E ER].
  apply Z.lor_eq_0_iff in E as [ES EO].
  unfold built_flags in H.
  assert (Z0 : Z.land 0 (GSAVE h) = 0) by apply Z.land_0_l.
  rewrite !has_lor_other in H by (try assumption; destruct rot, last; assumption).
  rewrite has_zero in H. discriminate.
Qed.

Lemma nth_spec_fields h cfg ppwid pphgt l column leftright topbottom page :
  let ps := nth_spec h cfg ppwid pphgt l column leftright topbottom page in
  sp_flags ps = built_flags h (rotate l) (negb (page + 1 <? nup cfg))
  /\ sp_pageno ps = to_int page
  /\ sp_rotate ps = (if rotate l then 90 else 0)
  /\ sp_xoff ps
     = (if rotate l
        then margin cfg
             + double_of_Z (across_of l column leftright page + 1) * ppwid
               / double_of_Z (horiz l)
             - hshift l
        else margin cfg
             + double_of_Z (across_of l column leftright page) * ppwid
               / double_of_Z (horiz l)
             + hshift l)%float
  /\ sp_yoff ps
     = (margin cfg
        + double_of_Z (up_of l column topbottom page) * pphgt
          / double_of_Z (vert l)
        + vshift l)%float.
Proof.
  unfold nth_spec, built_flags.
  destruct (page + 1 <? nup cfg); cbn [negb]; unfold or_flag, fill_spec;
    destruct (rotate l); cbn [sp_flags sp_pageno sp_rotate sp_xoff sp_yoff newspec];
    rewrite ?Z.lor_0_r; repeat split; reflexivity.
Qed.

Lemma build_specs_nth h cfg ppwid pphgt l column leftright topbottom i :
  1 <= nup cfg ->
  nth_error (build_specs h cfg ppwid pphgt l column leftright topbottom) i
  = if Z.of_nat i <? nup cfg
    then Some (nth_spec h cfg ppwid pphgt l column leftright topbottom (Z.of_nat i))
    else None.
Proof.
  intros Hn. unfold build_specs. rewrite build_from_nth by lia. reflexivity.
Qed.

Lemma built_flags_under_mask h rot last : distinct_flags h -> gsave_mask h ->
  has (built_flags h rot last) (GSAVE h) = true.
Proof.
  intros Hd Hm.
  destruct (built_flags_tests h rot last Hd) as (HS & _).
  unfold has in *. destruct (Z.eqb_spec (Z.land (built_flags h rot last) (GSAVE h)) 0)
    as [E|]; [|reflexivity].
  assert (ES : Z.land (built_flags h rot last) (SCALE h) = 0).
  { assert (EG : Z.land (GSAVE h) (SCALE h) = SCALE h).
    { rewrite Hm. apply Z.bits_inj'. intros n Hn.
      rewrite Z.land_spec, !Z.lor_spec.
      destruct (Z.testbit (SCALE h) n);
        [rewrite !orb_true_r|rewrite andb_false_r]; reflexivity. }
    rewrite <- EG, Z.land_assoc, E. apply Z.land_0_l. }
  rewrite ES in HS. discriminate.
Qed.

(** C2.  Every spec the N-up builder makes has SCALE, OFFSET and GSAVE set,
    ADD_NEXT is set on every spec of the group but the last, and ROTATE is
    set if and only if the layout is rotated; HFLIP, VFLIP and REVERSED are
    clear.  A flag is set where the test [flags & M] of the source holds.
    The masks are those of a header in which the seven single flags share
    no bit and GSAVE is the mask of the transformation flags: the builder
    ORs only ROTATE, SCALE, OFFSET and ADD_NEXT into the flags word, and the
    test [flags & GSAVE] holds through the bits of SCALE and OFFSET. *)
Theorem builder_flags h cfg ppwid pphgt l column leftright topbottom i ps :
  distinct_flags h -> gsave_mask h -> 1 <= nup cfg ->
  nth_error (build_specs h cfg ppwid pphgt l column leftright topbottom) i
  = Some ps ->
  let last := negb (Z.of_nat i + 1 <? nup cfg) in
  has (sp_flags ps) (SCALE h) = true
  /\ has (sp_flags ps) (OFFSET h) = true
  /\ has (sp_flags ps) (GSAVE h) = true
  /\ has (sp_flags ps) (ADD_NEXT h) = negb last
  /\ has (sp_flags ps) (ROTATE h) = rotate l
  /\ has (sp_flags ps) (HFLIP h) = false
  /\ has (sp_flags ps) (VFLIP h) = false
  /\ has (sp_flags ps) (REVERSED h) = false
  /\ sp_flags ps = built_flags h (rotate l) last.
Proof.
  intros Hd Hm Hn Hi last. rewrite build_specs_nth in Hi by assumption.
  destruct (Z.of_nat i <? nup cfg); [|discriminate]. injection Hi as <-.
  destruct (nth_spec_fields h cfg ppwid pphgt l column leftright topbottom (Z.of_nat i))
    as (Ef & _).
  cbv zeta in Ef. fold last in Ef. rewrite Ef.
  destruct (built_flags_tests h (rotate l) last Hd) as (T1 & T2 & T3 & T4 & T5 & T6 & T7).
  pose proof (built_flags_under_mask h (rotate l) last Hd Hm) as TG.
  repeat split; assumption.
Qed.


(* ================================================================== *)
(** ** Concrete runs *)

Import Scenario.

(** C3 (the claim as it is worded fails).  With [nup = 2] on A4 the
    variables [horiz] and [vert] do not end as 2 and 1. *)
Lemma a4_two_up_not_2_by_1 :
  (horiz (a4_layout 2) =? 2) && (vert (a4_layout 2) =? 1) = false.
Proof. vm_compute. reflexivity. Qed.

(** C3 (as the code has it).  With [nup = 2], A4 output (595 x 842), no
    margin, no border, the default orientation flags and the default
    tolerance, the search first accepts the divisor [hor = 1] unrotated and
    then, better, the divisor [hor = 2] (so [ver = 1]) rotated, which it
    stores exchanged: [horiz = ver = 1], [vert = hor = 2], [rotate = 1].
    Both specs carry [rotate = 90] and ROTATE, and on a four-page input the
    run writes two page comments, labelled [(0,1)] and [(2,3)] in that
    order. *)
Theorem a4_two_up :
  let cfg := default_config 2 in
  let l0 := mkLayout (tolerance cfg) 1 0 0 0 0 false in
  let l1 := try_layout cfg 595 842 595 842 1 l0 in
  let l2 := try_layout cfg 595 842 595 842 2 l1 in
  a4_layout 2 = l2
  /\ (horiz l1, vert l1, rotate l1) = (1, 2, false)
  /\ (horiz l2, vert l2, rotate l2) = (1, 2, true)
  /\ map sp_rotate (a4_specs 2) = [90; 90]
  /\ map (fun ps => has (sp_flags ps) (ROTATE flag_bits)) (a4_specs 2)
     = [true; true]
  /\ finished (psnup_2 doc4) = true
  /\ page_comments (output (psnup_2 doc4))
     = [str "%%Page: (0,1) 1"; str "%%Page: (2,3) 2"].
Proof. vm_compute. repeat split; reflexivity. Qed.

(** C6 (what the code writes).  On a one-page input at two pages a sheet
    the second cell is a blank: the run writes [PStoPSxform concatshowpage]
    on one line, and nowhere [PStoPSxform concat] on a line followed by
    [showpage] on the next. *)
Theorem blank_page_joined :
  blank_page_text = str "PStoPSxform concatshowpage" ++ [nl]
  /\ finished (psnup_2 doc1) = true
  /\ contains (str "PStoPSxform concatshowpage" ++ [nl]
                 ++ str "PStoPSsaved restore" ++ [nl])
              (output (psnup_2 doc1)) = true
  /\ contains (str "PStoPSxform concat" ++ [nl] ++ str "showpage" ++ [nl])
              (output (psnup_2 doc1)) = false.
Proof. vm_compute. repeat split; reflexivity. Qed.

(** C1 (the claim as it is worded fails).  An input with a PStoPS procset
    of its own gets no composition line, an input without one gets it. *)
Lemma xform_line_only_without_procset :
  (beginprocset (scanned doc_chained) =? 0) = false
  /\ finished (psnup_2 doc_chained) = true
  /\ contains xform_line (output (psnup_2 doc_chained)) = false
  /\ (beginprocset (scanned doc4) =? 0) = true
  /\ finished (psnup_2 doc4) = true
  /\ contains xform_line (output (psnup_2 doc4)) = true.
Proof. vm_compute. repeat split; reflexivity. Qed.

(** C9 (the claim as it is worded fails).  An ignored line of 8215 bytes
    is not dropped whole: one [fgets] takes its first [BUFSIZ - 1] bytes and
    the copy goes on with the other 24, which the whole-line rule leaves
    out. *)
Lemma long_line_tail_is_copied :
  ascending [5]
  /\ fst (fcopy (len doc_long_line) (Some [5]) (start doc_long_line)) = 1
  /\ written (outfile (snd (fcopy (len doc_long_line) (Some [5])
                              (start doc_long_line))))
     = str "%!PS" ++ [nl] ++ repeat "0"%byte 23 ++ [nl]
       ++ str "%%EndComments" ++ [nl]
  /\ drop_lines doc_long_line [5] 0 (len doc_long_line)
     = str "%!PS" ++ [nl] ++ str "%%EndComments" ++ [nl].
Proof.
  split; [split; repeat constructor|]. vm_compute. repeat split; reflexivity.
Qed.

(** C7 (what the code does).  The argument [-] holds no digit, and
    [singledimen] accepts it, as the dimension that [atof] gives for it; so
    it does [.].  [parseint], the sibling of [parsedouble] in the same
    file, ends with the argument error on both. *)
Theorem dash_is_accepted :
  singledimen (fun _ => 0%float) (str "-") (start []) = Ok 0%float (start [])
  /\ existsb isdigit (str "-") = false
  /\ singledimen (fun _ => 0%float) (str ".") (start []) = Ok 0%float (start [])
  /\ existsb isdigit (str ".") = false
  /\ parseint (str "-") (start []) = Fatal "argerror" (start [])
  /\ parseint (str ".") (start []) = Fatal "argerror" (start []).
Proof. vm_compute. repeat split; reflexivity. Qed.

(* ================================================================== *)
(** ** The theorems at concrete inputs *)

Lemma prolog_xform_line_witness :
  let g := set_infile (fseeko (headerpos (scanned doc_chained))
                         (infile (scanned doc_chained)))
             (scanned doc_chained) in
  let g' := state_of (write_prolog_xform g) g in
  written (outfile g')
  = written (outfile g)
    ++ between (content (infile g)) (fpos (infile g)) (beginprocset g)
    ++ between (content (infile g)) (endprocset g) (endsetup g).
Proof.
  intros g g'.
  assert (Hwf : wf g) by (vm_compute; split; discriminate).
  assert (Hok : write_prolog_xform g = Ok tt g') by (vm_compute; reflexivity).
  pose proof (prolog_xform_line g g' Hwf Hok) as H.
  vm_cast_no_check H.
Defined.

Lemma builder_flags_witness :
  let ps := hd newspec (a4_specs 2) in
  has (sp_flags ps) (SCALE flag_bits) = true
  /\ has (sp_flags ps) (OFFSET flag_bits) = true
  /\ has (sp_flags ps) (GSAVE flag_bits) = true
  /\ has (sp_flags ps) (ADD_NEXT flag_bits) = negb false
  /\ has (sp_flags ps) (ROTATE flag_bits) = rotate (a4_layout 2)
  /\ has (sp_flags ps) (HFLIP flag_bits) = false
  /\ has (sp_flags ps) (VFLIP flag_bits) = false
  /\ has (sp_flags ps) (REVERSED flag_bits) = false
  /\ sp_flags ps = built_flags flag_bits (rotate (a4_layout 2)) false.
Proof.
  intros ps.
  assert (Hn : 1 <= nup (default_config 2)) by (vm_compute; discriminate).
  assert (Hi : nth_error (build_specs flag_bits (default_config 2) 595 842
                            (a4_layout 2) true true false) 0
               = Some ps)
    by (vm_compute; reflexivity).
  exact (builder_flags flag_bits (default_config 2) 595 842 (a4_layout 2)
           true true false 0 ps flag_bits_distinct flag_bits_mask Hn Hi).
Defined.


Lemma scanpages_sentinel_witness :
  exists p0, load 0 (pageptr (scanned doc4)) = Some p0
             /\ endsetup (scanned doc4) <= p0.
Proof.
  assert (Hok : scanpages (Some 20) (start doc4) = Ok [26] (scanned doc4))
    by (vm_compute; reflexivity).
  destruct (scanpages_sentinel (Some 20) (start doc4) [26] (scanned doc4) Hok)
    as (l & g1 & _ & _ & _ & _ & p0 & E0 & Hle & _).
  exists p0. split; assumption.
Defined.

Lemma fcopy_drops_whole_lines_witness :
  fst (fcopy 81 (Some [26]) (start doc4)) = 1
  /\ written (outfile (snd (fcopy 81 (Some [26]) (start doc4))))
     = str "%!PS-Adobe-3.0" ++ [nl] ++ str "%%Pages: 4" ++ [nl]
       ++ str "%%EndComments" ++ [nl] ++ str "%%BeginProlog" ++ [nl].
Proof.
  assert (Hwf : wf (start doc4)) by (vm_compute; split; discriminate).
  assert (Hle : fpos (infile (start doc4)) <= 81) by (vm_compute; discriminate).
  assert (Hasc : ascending (entries (Some [26]))).
  { split; repeat constructor. }
  assert (Hfit : forall e, In e (entries (Some [26])) ->
            fpos (infile (start doc4)) <= e < 81 ->
            len (whole_line (from e (content (infile (start doc4))))) < BUFSIZ).
  { intros e [<-|[]] _. vm_compute. reflexivity. }
  destruct (fcopy_drops_whole_lines 81 (Some [26]) (start doc4) Hwf Hle Hasc Hfit)
    as (_ & _ & H).
  assert (E : fst (fcopy 81 (Some [26]) (start doc4)) = 1) by (vm_compute; reflexivity).
  split; [exact E|]. destruct (H E) as [Hw _]. vm_cast_no_check Hw.
Defined.

Lemma header_without_pages_comment_witness :
  let g := scanned doc_bare in
  written (outfile (state_of (writeheadermedia 1 (Some [15]) 595 842 g) g))
  = str "%!PS-Adobe-3.0" ++ [nl] ++ str "%%EndComments" ++ [nl].
Proof.
  intros g.
  assert (Hwf : wf g) by (vm_compute; split; discriminate).
  assert (Hasc : ascending (entries (Some [15]))).
  { split; repeat constructor. }
  assert (Hp : pagescmt g = 0) by (vm_compute; reflexivity).
  assert (Hok : writeheadermedia 1 (Some [15]) 595 842 g
                = Ok tt (state_of (writeheadermedia 1 (Some [15]) 595 842 g) g))
    by (vm_compute; reflexivity).
  pose proof (header_without_pages_comment 1 (Some [15]) 595 842 g _
                Hwf Hasc Hp Hok) as H.
  vm_cast_no_check H.
Defined.

(* ================================================================== *)
(** ** Further properties of the code *)

(** *** The scan: what the loop keeps true *)

Lemma dsc_of_buffer buffer kw :
  Byte.eqb (peek buffer) "%"%byte = true ->
  Byte.eqb (nth 1 buffer NUL) "%"%byte = true ->
  iscomment (skipn 2 buffer) kw = true ->
  dsc buffer kw = true.
Proof.
  intros H0 H1 H2. unfold dsc. rewrite H2, andb_true_r.
  destruct buffer as [|b0 [|b1 r]]; cbn in H0, H1; try discriminate.
  apply Byte.byte_dec_bl in H0, H1. subst. reflexivity.
Qed.

Lemma firstn_update_same n v : forall l,
  firstn n (update n v l) = firstn n l.
Proof.
  induction n as [|n IH]; intros [|x l]; cbn [update firstn]; try reflexivity.
  now rewrite IH.
Qed.

Lemma firstn_update_next n v : forall l, (n < List.length l)%nat ->
  firstn (S n) (update n v l) = firstn n l ++ [v].
Proof.
  induction n as [|n IH]; intros [|x l] H; cbn [List.length] in H; try lia.
  - reflexivity.
  - cbn [update]. rewrite (firstn_cons (S n)), IH by lia. reflexivity.
Qed.

Lemma push_page_offsets record g : table_ok g ->
  match push_page record g with
  | Ok _ g' =>
      exists m t,
        g' = set_pages (pages g + 1) (set_pageptr t (set_maxpages m g))
        /\ table_ok g'
        /\ firstn (Z.to_nat (pages g + 1)) t = page_offsets g ++ [record]
  | Fatal msg _ => msg = "out of memory"%string
  | Undefined why =>
      why = "int overflow"%string /\ INT_MAX < 2 * (pages g + 1)
  end.
Proof.
  intros (H1 & H2 & H3). unfold push_page, page_offsets.
  destruct (Z.leb_spec (maxpages g - 1) (pages g)) as [Hfull|Hfree].
  - destruct (Z.ltb_spec (maxpages g * 2) INT_MIN) as [Hlo|Hlo];
      [unfold INT_MIN in Hlo; lia|].
    destruct (Z.ltb_spec INT_MAX (maxpages g * 2)) as [Hhi|Hhi]; cbn [orb].
    { split; [reflexivity|lia]. }
    destruct (memory g (maxpages g * 2)); [|reflexivity]. cbn [bind].
    set (g1 := set_pageptr _ _).
    assert (E : pages g1 = pages g /\ maxpages g1 = maxpages g * 2
                /\ pageptr g1 = pageptr g ++ repeat 0 (Z.to_nat (maxpages g))).
    { unfold g1. destruct g; cbn. auto. }
    destruct E as (E1 & E2 & E3).
    assert (L : Z.of_nat (List.length (pageptr g1)) = maxpages g * 2).
    { rewrite E3, length_app, repeat_length. lia. }
    unfold store. rewrite E1.
    destruct (Z.leb_spec 0 (pages g)); [|lia].
    destruct (Z.ltb_spec (pages g) (Z.of_nat (List.length (pageptr g1)))); [|lia].
    cbn [andb]. exists (maxpages g * 2), (update (Z.to_nat (pages g)) record (pageptr g1)).
    split; [|split].
    + unfold g1. destruct g; reflexivity.
    + unfold table_ok, g1. destruct g; fields. rewrite length_update. fields.
      rewrite length_app, repeat_length. lia.
    + replace (Z.to_nat (pages g + 1)) with (S (Z.to_nat (pages g))) by lia.
      rewrite firstn_update_next by lia. rewrite E3, firstn_app.
      replace (Z.to_nat (pages g) - List.length (pageptr g))%nat with 0%nat by lia.
      cbn [firstn]. now rewrite app_nil_r.
  - cbn [bind]. unfold store.
    destruct (Z.leb_spec 0 (pages g)); [|lia].
    destruct (Z.ltb_spec (pages g) (Z.of_nat (List.length (pageptr g)))); [|lia].
    cbn [andb]. exists (maxpages g), (update (Z.to_nat (pages g)) record (pageptr g)).
    split; [|split].
    + destruct g; reflexivity.
    + unfold table_ok. destruct g; fields. rewrite length_update. lia.
    + replace (Z.to_nat (pages g + 1)) with (S (Z.to_nat (pages g))) by lia.
      apply firstn_update_next. lia.
Qed.

Lemma sorted_count (l : list Z) : StronglySorted Z.lt l ->
  forall lo pos, lo <= pos -> Forall (fun r => lo <= r < pos) l ->
  Z.of_nat (List.length l) <= pos - lo.
Proof.
  induction 1 as [|x l Hs IH Hx]; intros lo pos Hle Hf; cbn [List.length]; [lia|].
  inversion Hf as [|? ? Hx0 Hl]; subst.
  assert (Hl' : Forall (fun r => x + 1 <= r < pos) l).
  { rewrite Forall_forall in *. intros r Hr.
    specialize (Hx r Hr). specialize (Hl r Hr). cbv beta in Hl. lia. }
  specialize (IH (x + 1) pos ltac:(lia) Hl'). lia.
Qed.

Lemma scan_inv_count c pos l g : scan_inv c pos l g -> pages g <= pos.
Proof.
  intros [I1 I2 (T1 & T2 & T3) I4 I5 _ _ _].
  assert (Hf : Forall (fun r => 0 <= r < pos) (page_offsets g)).
  { eapply Forall_impl; [|exact I5]. cbv beta. intros r (Hr & _). exact Hr. }
  pose proof (sorted_count _ I4 0 pos ltac:(lia) Hf) as H.
  unfold page_offsets in H. rewrite length_firstn in H. lia.
Qed.

Lemma sorted_snoc (l : list Z) v :
  StronglySorted Z.lt l -> Forall (fun r => r < v) l ->
  StronglySorted Z.lt (l ++ [v]).
Proof.
  induction 1 as [|x l Hs IH Hx]; intros Hf; cbn [app].
  - repeat constructor.
  - inversion Hf; subst. constructor; [apply IH; assumption|].
    apply Forall_app. split; [assumption|]. constructor; [assumption|constructor].
Qed.

Lemma scan_inv_later c pos pos' l g :
  scan_inv c pos l g -> pos <= pos' <= len c -> scan_inv c pos' l g.
Proof.
  intros [] Hp. split; try assumption; try lia.
  - eapply Forall_impl; [|eassumption]. cbv beta. intros r (Hr & Hd). split; [lia|assumption].
  - eapply Forall_impl; [|eassumption]. cbv beta. intros r (Hr & Hd). split; [lia|assumption].
Qed.

Lemma scan_inv_keep c pos0 pos l g l' g' :
  scan_inv c pos0 l g -> pos0 <= pos <= len c ->
  content (infile g') = c -> maxpages g' = maxpages g ->
  List.length (pageptr g') = List.length (pageptr g) ->
  page_offsets g' = page_offsets g -> pages g' = pages g ->
  szs l' = szs l -> szcap l' = szcap l ->
  headerpos g' = headerpos g \/ pos0 <= headerpos g' ->
  scan_inv c pos l' g'.
Proof.
  intros [I1 I2 I3 I4 I5 I6 I7 I8] Hp Ec Em El Et Ep Es Ek Eh.
  split; unfold table_ok in *; rewrite ?Em, ?El, ?Et, ?Ep, ?Es, ?Ek;
    try assumption; try lia.
  - eapply Forall_impl; [|exact I5]. cbv beta. intros r (Hr & Hd).
    split; [lia|assumption].
  - eapply Forall_impl; [|exact I7]. cbv beta. intros r (Hr & Hd & Hh).
    repeat split; try lia; try assumption.
Qed.

Lemma scan_inv_page c pos0 pos l g m t :
  scan_inv c pos0 l g -> pos0 < pos <= len c ->
  dsc (line_at c pos0) "Page:" = true ->
  table_ok (set_pages (pages g + 1) (set_pageptr t (set_maxpages m g))) ->
  firstn (Z.to_nat (pages g + 1)) t = page_offsets g ++ [pos0] ->
  scan_inv c pos l (set_pages (pages g + 1) (set_pageptr t (set_maxpages m g))).
Proof.
  intros [I1 I2 I3 I4 I5 I6 I7 I8] Hp Hd Ht Ef.
  assert (Eo : page_offsets (set_pages (pages g + 1) (set_pageptr t (set_maxpages m g)))
               = page_offsets g ++ [pos0]).
  { rewrite <- Ef. unfold page_offsets. destruct g; reflexivity. }
  split; rewrite ?Eo; try assumption; try lia.
  - destruct g; assumption.
  - apply sorted_snoc; [assumption|].
    eapply Forall_impl; [|exact I5]. cbv beta. intros r (Hr & _). lia.
  - apply Forall_app. split.
    + eapply Forall_impl; [|exact I5]. cbv beta. intros r (Hr & Hd').
      split; [lia|assumption].
    + constructor; [|constructor]. split; [lia|assumption].
  - eapply Forall_impl; [|exact I7]. cbv beta. intros r (Hr & Hd' & Hh).
    repeat split; try lia; try assumption.
    destruct g; exact Hh.
Qed.

Lemma scan_inv_size c pos0 pos l g cap :
  scan_inv c pos0 l g -> pos0 < pos <= len c ->
  size_comment (line_at c pos0) = true -> headerpos g = 0 ->
  szcap l = Some cap -> Z.of_nat (List.length (szs l)) + 1 < cap ->
  scan_inv c pos (mkLocals (nesting l) (szcap l) (szs l ++ [pos0])) g.
Proof.
  intros [I1 I2 I3 I4 I5 I6 I7 I8] Hp Hd Hh Ek Hc.
  split; cbn [szs szcap]; try assumption; try lia.
  - eapply Forall_impl; [|exact I5]. cbv beta. intros r (Hr & Hd').
    split; [lia|assumption].
  - apply sorted_snoc; [assumption|].
    eapply Forall_impl; [|exact I7]. cbv beta. intros r (Hr & _). lia.
  - apply Forall_app. split.
    + eapply Forall_impl; [|exact I7]. cbv beta. intros r (Hr & Hd' & Hx).
      repeat split; try lia; assumption.
    + constructor; [|constructor]. repeat split; try lia; try assumption.
  - intros cap' E. rewrite Ek in E. injection E as <-.
    rewrite length_app. cbn [List.length]. lia.
Qed.

Ltac keep_inv Hinv :=
  split; [|reflexivity];
  eapply scan_inv_keep; [exact Hinv|..];
  unfold page_offsets;
  match goal with g : G |- _ => destruct g end; fields; unfold ftello; fields;
  try reflexivity; try assumption; try lia; try (left; reflexivity);
  try (right; lia).

Lemma scan_line_inv c record buffer l g :
  scan_inv c record l g ->
  buffer = line_at c record ->
  fpos (infile g) = record + len buffer -> 1 <= len buffer ->
  record + len buffer <= len c ->
  match scan_line record buffer l g with
  | Ok r g' => scan_inv c (fpos (infile g')) (snd r) g'
               /\ szcap (snd r) = szcap l
  | Fatal msg _ => msg = "out of memory"%string
  | Undefined why =>
      (why = "sizeheaders overrun"%string /\ szcap l <> None)
      \/ (why = "int overflow"%string /\ INT_MAX < 2 * len c)
  end.
Proof.
  intros Hinv Hb Hp Hl1 Hl2.
  pose proof (si_content _ _ _ _ Hinv) as Hc.
  pose proof (si_pos _ _ _ _ Hinv) as Hr.
  unfold scan_line.
  destruct (Byte.eqb (peek buffer) "%"%byte) eqn:E0.
  2:{ destruct (Z.eqb_spec (headerpos g) 0) as [Eh|Eh]; keep_inv Hinv. }
  destruct (Byte.eqb (nth 1 buffer NUL) "%"%byte) eqn:E1.
  2:{ destruct (_ && _); keep_inv Hinv. }
  assert (Hsize : forall kw, iscomment (skipn 2 buffer) kw = true ->
            dsc (line_at c record) kw = true).
  { intros kw Hk. rewrite <- Hb. apply dsc_of_buffer; assumption. }
  destruct (_ && iscomment _ "Page:") eqn:Epage.
  { apply andb_prop in Epage as [_ Epage].
    pose proof (push_page_offsets record g (si_table _ _ _ _ Hinv)) as Hpush.
    pose proof (scan_inv_count _ _ _ _ Hinv) as Hcount.
    destruct (push_page record g) as [x gp|msg gp|why]; cbn [bind];
      [|exact Hpush|right; split; [apply Hpush|destruct Hpush; lia]].
    destruct Hpush as (m & t & -> & Ht & Ef).
    split; [|reflexivity].
    replace (fpos (infile (set_pages (pages g + 1) (set_pageptr t (set_maxpages m g)))))
      with (record + len buffer) by (destruct g; exact (eq_sym Hp)).
    cbn [snd]. apply (scan_inv_page c record); try assumption; try lia. apply Hsize. exact Epage. }
  assert (Sz : forall kw, (headerpos g =? 0) && iscomment (skipn 2 buffer) kw = true ->
     size_comment (line_at c record) = true ->
     match (do l', g' <- push_sizeheader record l g; Ok (false, l') g') with
     | Ok r g' => scan_inv c (fpos (infile g')) (snd r) g' /\ szcap (snd r) = szcap l
     | Fatal msg _ => msg = "out of memory"%string
     | Undefined why =>
         (why = "sizeheaders overrun"%string /\ szcap l <> None)
         \/ (why = "int overflow"%string /\ INT_MAX < 2 * len c)
     end).
  { intros kw Hk Hs. apply andb_prop in Hk as [Hh _]. apply Z.eqb_eq in Hh.
    unfold push_sizeheader. destruct (szcap l) as [cap|] eqn:Ek; cbn [bind].
    - destruct (Z.ltb_spec (Z.of_nat (List.length (szs l)) + 1) cap); cbn [bind].
      + split; [|reflexivity]. cbn [snd]. rewrite Hp, <- Ek.
        eapply (scan_inv_size c record); try eassumption; lia.
      + left. split; [reflexivity|discriminate].
    - split; [|exact Ek]. cbn [snd]. rewrite Hp.
      eapply scan_inv_later; [exact Hinv|lia]. }
  destruct (_ && iscomment _ "BoundingBox:") eqn:E2.
  { apply (Sz _ E2). unfold size_comment. apply andb_prop in E2 as [_ E2].
    rewrite (Hsize _ E2). reflexivity. }
  destruct (_ && iscomment _ "HiResBoundingBox:") eqn:E3.
  { apply (Sz _ E3). unfold size_comment. apply andb_prop in E3 as [_ E3].
    rewrite (Hsize _ E3). now rewrite !orb_true_r. }
  destruct (_ && iscomment _ "DocumentPaperSizes:") eqn:E4.
  { apply (Sz _ E4). unfold size_comment. apply andb_prop in E4 as [_ E4].
    rewrite (Hsize _ E4). now rewrite !orb_true_r. }
  destruct (_ && iscomment _ "DocumentMedia:") eqn:E5.
  { apply (Sz _ E5). unfold size_comment. apply andb_prop in E5 as [_ E5].
    rewrite (Hsize _ E5). now rewrite !orb_true_r. }
  clear Sz Hsize.
  repeat match goal with
         | |- context [if ?b then _ else _] => destruct b
         end; keep_inv Hinv.
  all: unfold fseeko; destruct (Z.ltb_spec record 0); fields; try assumption; lia.
Qed.

Lemma scan_loop_inv c fuel : forall l g,
  scan_inv c (fpos (infile g)) l g ->
  match scan_loop fuel l g with
  | Ok l' g' => scan_inv c (fpos (infile g')) l' g' /\ szcap l' = szcap l
  | Fatal msg _ => msg = "out of memory"%string
  | Undefined why =>
      (why = "sizeheaders overrun"%string /\ szcap l <> None)
      \/ (why = "int overflow"%string /\ INT_MAX < 2 * len c)
  end.
Proof.
  induction fuel as [|fuel IH]; intros l g Hinv; cbn [scan_loop];
    [split; [assumption|reflexivity]|].
  pose proof (si_content _ _ _ _ Hinv) as Hc.
  pose proof (si_pos _ _ _ _ Hinv) as Hp.
  destruct (Z_lt_le_dec (fpos (infile g)) (len (content (infile g)))) as [Hl|Hl].
  - rewrite fgets_some by lia. rewrite Hc. rewrite Hc in Hl.
    destruct (line_at_bounds c (fpos (infile g)) ltac:(lia) ltac:(lia)) as [L1 L2].
    set (buffer := line_at c (fpos (infile g))) in *.
    set (fin := {| content := c; fpos := fpos (infile g) + len buffer |}).
    assert (Hin : scan_inv c (fpos (infile g)) l (set_infile fin g)).
    { eapply scan_inv_keep; [exact Hinv|..]; unfold page_offsets;
        try (destruct g; reflexivity); [lia|left; destruct g; reflexivity]. }
    pose proof (scan_line_inv c (ftello (infile g)) buffer l (set_infile fin g)
                  Hin eq_refl) as H.
    assert (Ef : fpos (infile (set_infile fin g)) = fpos (infile g) + len buffer)
      by (destruct g; reflexivity).
    specialize (H Ef L1 L2).
    destruct (scan_line _ buffer l _) as [r g1| |]; cbn [bind]; try assumption.
    destruct H as [H Ek]. destruct (fst r); [split; assumption|].
    specialize (IH (snd r) g1 H).
    destruct (scan_loop fuel (snd r) g1); try assumption.
    + destruct IH as [IH1 IH2]. split; [assumption|congruence].
    + destruct IH as [[IH1 IH2]|IH]; [left; split; [assumption|congruence]|now right].
  - rewrite Hc in Hl. rewrite fgets_none by (rewrite ?Hc; lia).
    split; [assumption|reflexivity].
Qed.

Lemma scanpages_inv sizeheaders g : 1 <= maxpages g ->
  match scanpages sizeheaders g with
  | Ok out g' =>
      exists l, out = szs l /\ szcap l = sizeheaders
        /\ scan_inv (content (infile g)) (fpos (infile g')) l g'
        /\ load (pages g') (pageptr g') = Some (fpos (infile g'))
  | Fatal msg _ => msg = "out of memory"%string
  | Undefined why =>
      (why = "sizeheaders overrun"%string /\ sizeheaders <> None)
      \/ (why = "int overflow"%string
          /\ INT_MAX < 2 * len (content (infile g)))
  end.
Proof.
  intros Hm. unfold scanpages, scan.
  destruct (match sizeheaders with Some cap => cap <? 1 | None => false end) eqn:Ecap.
  { cbn [bind]. left. split; [reflexivity|]. destruct sizeheaders; discriminate. }
  destruct (memory g (maxpages g)); cbn [negb bind]; [|reflexivity].
  set (g0 := set_infile _ _).
  assert (H0 : scan_inv (content (infile g)) (fpos (infile g0))
                 (mkLocals 0 sizeheaders []) g0).
  { unfold g0. split; unfold page_offsets, table_ok; destruct g; fields;
      unfold fseeko; cbn [Z.ltb Z.compare]; fields; cbn [szs szcap List.length firstn Z.to_nat];
      try reflexivity; try constructor; try (rewrite repeat_length; lia).
    all: try lia; try apply len_nonneg; try assumption.
    intros cap ->. destruct (Z.ltb_spec cap 1); [discriminate|]. lia. }
  assert (Ec : content (infile g0) = content (infile g)).
  { unfold g0. destruct g; fields. unfold fseeko. reflexivity. }
  rewrite Ec.
  pose proof (scan_loop_inv _ (S (List.length (content (infile g)))) _ _ H0) as H.
  destruct (scan_loop _ _ g0) as [l g1| |]; cbn [bind]; try assumption.
  destruct H as [H Ek]. cbn [szcap] in Ek.
  pose proof (si_table _ _ _ _ H) as (T1 & T2 & T3).
  unfold finish.
  destruct (store_defined (pages g1) (ftello (infile g1)) (pageptr g1) ltac:(lia))
    as (t & Et & El).
  rewrite Et.
  assert (Ep : pageptr (set_pageptr t g1) = t /\ endsetup (set_pageptr t g1) = endsetup g1)
    by (destruct g1; auto).
  destruct Ep as [-> ->].
  destruct (load_some 0 t ltac:(lia)) as [p0 E0]. rewrite E0.
  pose proof (store_some _ _ _ _ Et) as (_ & El' & _). unfold ftello in El'.
  unfold store in Et.
  assert (Einv : forall e, scan_inv (content (infile g)) (fpos (infile g1)) l
                   (set_endsetup e (set_pageptr t g1))
                 /\ scan_inv (content (infile g)) (fpos (infile g1)) l (set_pageptr t g1)).
  { pose proof (si_content _ _ _ _ H) as Hc.
    assert (Eo : firstn (Z.to_nat (pages g1)) t = page_offsets g1).
    { unfold page_offsets. destruct (Z.leb_spec 0 (pages g1)); [|lia].
      destruct (Z.ltb_spec (pages g1) (Z.of_nat (List.length (pageptr g1)))); [|lia].
      cbn [andb] in Et. injection Et as <-. apply firstn_update_same. }
    intros e. split; (eapply scan_inv_keep; [exact H|..]); unfold page_offsets;
      try (destruct g1; fields; first [reflexivity | assumption | left; reflexivity]).
    all: try (pose proof (si_pos _ _ _ _ H); lia). }
  destruct (_ || _); exists l; (split; [reflexivity|]); (split; [exact Ek|]).
  - replace (fpos (infile (set_endsetup p0 (set_pageptr t g1))))
      with (fpos (infile g1)) by (destruct g1; reflexivity).
    split; [apply Einv|]. destruct g1; exact El'.
  - replace (fpos (infile (set_pageptr t g1)))
      with (fpos (infile g1)) by (destruct g1; reflexivity).
    split; [apply (Einv 0)|]. destruct g1; exact El'.
Qed.

Lemma sorted_nth (l : list Z) : StronglySorted Z.lt l ->
  forall i j a b, (i < j)%nat ->
  nth_error l i = Some a -> nth_error l j = Some b -> a < b.
Proof.
  induction 1 as [|x l Hs IH Hx]; intros i j a b Hij Ha Hb.
  - destruct i; discriminate.
  - destruct j as [|j]; [lia|]. cbn [nth_error] in Hb. destruct i as [|i].
    + injection Ha as <-. apply nth_error_In in Hb.
      rewrite Forall_forall in Hx. apply Hx. exact Hb.
    + cbn [nth_error] in Ha. eapply (IH i j); try eassumption. lia.
Qed.

Lemma load_page_offsets g i : 0 <= i < pages g ->
  load i (pageptr g) = nth_error (page_offsets g) (Z.to_nat i).
Proof.
  intros Hi. unfold load, page_offsets.
  destruct (Z.ltb_spec i 0); [lia|].
  rewrite nth_error_firstn. destruct (Nat.ltb_spec (Z.to_nat i) (Z.to_nat (pages g))); [reflexivity|lia].
Qed.

Lemma push_page_memory record g :
  match push_page record g with
  | Ok _ g' => memory g' = memory g
  | Fatal _ _ => exists n, memory g n = false
  | Undefined _ => True
  end.
Proof.
  unfold push_page. destruct (maxpages g - 1 <=? pages g).
  - destruct (_ || _); [exact I|].
    destruct (memory g (maxpages g * 2)) eqn:Em; cbn [bind]; [|eauto].
    destruct (store _ _ _); [destruct g; reflexivity|exact I].
  - cbn [bind]. destruct (store _ _ _); [destruct g; reflexivity|exact I].
Qed.

Lemma scan_line_memory record buffer l g :
  match scan_line record buffer l g with
  | Ok _ g' => memory g' = memory g
  | Fatal _ _ => exists n, memory g n = false
  | Undefined _ => True
  end.
Proof.
  pose proof (push_page_memory record g) as Hp.
  unfold scan_line, push_sizeheader.
  repeat match goal with
         | |- context [if ?c then _ else _] => destruct c
         end;
    try (destruct (szcap l); [case_if|]); cbn [bind];
    try (destruct (push_page record g) as [a gp| |]; cbn [bind]);
    try exact I; try assumption; destruct g; reflexivity.
Qed.

Lemma scan_loop_memory fuel : forall l g,
  match scan_loop fuel l g with
  | Ok _ g' => memory g' = memory g
  | Fatal _ _ => exists n, memory g n = false
  | Undefined _ => True
  end.
Proof.
  induction fuel as [|fuel IH]; intros l g; cbn [scan_loop]; [reflexivity|].
  destruct (fgets (infile g)) as [[b|] fin]; [|reflexivity].
  pose proof (scan_line_memory (ftello (infile g)) b l (set_infile fin g)) as H.
  assert (Em : memory (set_infile fin g) = memory g) by (destruct g; reflexivity).
  rewrite Em in H.
  destruct (scan_line _ b l _) as [r g1| |]; cbn [bind]; try assumption.
  destruct (fst r); [assumption|]. specialize (IH (snd r) g1). rewrite H in IH.
  exact IH.
Qed.

Lemma scanpages_memory sizeheaders g :
  match scanpages sizeheaders g with
  | Ok _ g' => memory g' = memory g
  | Fatal _ _ => exists n, memory g n = false
  | Undefined _ => True
  end.
Proof.
  unfold scanpages, scan. case_if; [exact I|].
  destruct (memory g (maxpages g)) eqn:Em; cbn [negb bind]; [|eauto].
  set (g0 := set_infile _ _).
  assert (E0 : memory g0 = memory g) by (unfold g0; destruct g; reflexivity).
  pose proof (scan_loop_memory (S (List.length (content (infile g0))))
                (mkLocals 0 sizeheaders []) g0) as H.
  rewrite E0 in H.
  destruct (scan_loop _ _ g0) as [l g1| |]; cbn [bind]; try assumption.
  unfold finish. destruct (store _ _ _) as [t|]; [|exact I].
  destruct (load _ _); [|exact I].
  case_if; cbn [bind]; rewrite <- H; destruct g1; reflexivity.
Qed.

(** X1. A scan from a page table of at least one cell never reads or writes
    outside the page table, whatever the input, and it comes back but in
    three cases: the allocator refuses a table, and the process stops with
    [out of memory]; the caller's [sizeheaders] array has no cell left for
    an offset (never with a NULL [sizeheaders]); [maxpages] doubles out of
    [int], for which the input must have more than [INT_MAX / 2] bytes.
    When it comes back with an array of [cap] cells, it hands back fewer
    than [cap] offsets. *)
Theorem scanpages_returns sizeheaders g : 1 <= maxpages g ->
  match scanpages sizeheaders g with
  | Ok szs _ =>
      forall cap, sizeheaders = Some cap -> Z.of_nat (List.length szs) < cap
  | Fatal msg _ =>
      msg = "out of memory"%string /\ exists n, memory g n = false
  | Undefined why =>
      (why = "sizeheaders overrun"%string /\ sizeheaders <> None)
      \/ (why = "int overflow"%string
          /\ INT_MAX < 2 * len (content (infile g)))
  end.
Proof.
  intros Hm.
  pose proof (scanpages_inv sizeheaders g Hm) as H.
  pose proof (scanpages_memory sizeheaders g) as M.
  destruct (scanpages sizeheaders g) as [out g'|msg g'|why].
  - intros cap Ec. destruct H as (l & -> & Ek & Hi & _).
    apply (si_cap _ _ _ _ Hi). congruence.
  - split; assumption.
  - exact H.
Qed.

Lemma scanpages_returns_witness :
  match scanpages (Some 20) (Scenario.start Scenario.doc4) with
  | Ok szs _ =>
      forall cap, Some 20 = Some cap -> Z.of_nat (List.length szs) < cap
  | Fatal msg _ =>
      msg = "out of memory"%string
      /\ exists n, memory (Scenario.start Scenario.doc4) n = false
  | Undefined why =>
      (why = "sizeheaders overrun"%string /\ Some 20 <> None)
      \/ (why = "int overflow"%string
          /\ INT_MAX < 2 * len (content (infile (Scenario.start Scenario.doc4))))
  end.
Proof.
  apply (scanpages_returns (Some 20) (Scenario.start Scenario.doc4)). cbn. lia.
Defined.

(** X2. After a scan the page table ascends strictly up to and including
    the trailer sentinel: for [0 <= i < j <= pages] the cells [pageptr[i]]
    and [pageptr[j]] are defined offsets of the input with
    [0 <= pageptr[i] < pageptr[j] <= length of the input]. *)
Theorem page_table_ascends sizeheaders g szs g' i j :
  1 <= maxpages g -> scanpages sizeheaders g = Ok szs g' ->
  0 <= i -> i < j -> j <= pages g' ->
  exists a b, load i (pageptr g') = Some a /\ load j (pageptr g') = Some b
    /\ 0 <= a /\ a < b /\ b <= len (content (infile g)).
Proof.
  intros Hm Hs Hi Hij Hj.
  pose proof (scanpages_inv sizeheaders g Hm) as H. rewrite Hs in H.
  destruct H as (l & _ & _ & Hinv & Hl).
  pose proof (si_table _ _ _ _ Hinv) as (T1 & T2 & T3).
  pose proof (si_pos _ _ _ _ Hinv) as Hp.
  assert (Len : List.length (page_offsets g') = Z.to_nat (pages g')).
  { unfold page_offsets. apply firstn_length_le. lia. }
  assert (Hi' : exists a, load i (pageptr g') = Some a
                  /\ 0 <= a < fpos (infile g')
                  /\ nth_error (page_offsets g') (Z.to_nat i) = Some a).
  { rewrite load_page_offsets by lia.
    destruct (nth_error (page_offsets g') (Z.to_nat i)) as [a|] eqn:E.
    - exists a. split; [reflexivity|]. split; [|reflexivity].
      apply nth_error_In in E. pose proof (si_pages _ _ _ _ Hinv) as F.
      rewrite Forall_forall in F. apply F in E. tauto.
    - apply nth_error_None in E. lia. }
  destruct Hi' as (a & Ea & Ha & Na).
  destruct (Z.eq_dec j (pages g')) as [->|Hne].
  - exists a, (fpos (infile g')). repeat split; try assumption; lia.
  - rewrite (load_page_offsets g' j) by lia.
    destruct (nth_error (page_offsets g') (Z.to_nat j)) as [b|] eqn:E.
    + exists a, b. repeat split; try assumption; try lia.
      * eapply (sorted_nth _ (si_sorted _ _ _ _ Hinv) (Z.to_nat i) (Z.to_nat j));
          try eassumption. lia.
      * apply nth_error_In in E. pose proof (si_pages _ _ _ _ Hinv) as F.
        rewrite Forall_forall in F. apply F in E. lia.
    + apply nth_error_None in E. lia.
Qed.

Lemma page_table_ascends_witness :
  exists a b,
    load 1 (pageptr (Scenario.scanned Scenario.doc4)) = Some a
    /\ load 4 (pageptr (Scenario.scanned Scenario.doc4)) = Some b
    /\ 0 <= a /\ a < b /\ b <= len Scenario.doc4.
Proof.
  refine (page_table_ascends (Some 20) (Scenario.start Scenario.doc4)
            (match scanpages (Some 20) (Scenario.start Scenario.doc4) with
             | Ok a _ => a | _ => [] end)
            (Scenario.scanned Scenario.doc4) 1 4 _ _ _ _ _).
  - cbn. lia.
  - vm_compute. reflexivity.
  - lia.
  - lia.
  - vm_compute. discriminate.
Defined.

Lemma dsc_page_comment line : dsc line "Page:" = true ->
  iscomment line "%%Page:" = true.
Proof.
  unfold dsc, iscomment. intros H. apply andb_prop in H as [H1 H2].
  change (str "%%") with ["%"%byte; "%"%byte] in H1.
  change (str "%%Page:") with ("%"%byte :: "%"%byte :: str "Page:").
  destruct line as [|b0 [|b1 r]]; cbn [starts_with] in H1; try discriminate;
    try (rewrite andb_false_r in H1; discriminate).
  cbn [skipn] in H2. cbn [starts_with].
  rewrite andb_true_r in H1. apply andb_prop in H1 as [-> ->]. exact H2.
Qed.

(** X3. After a scan every page the table counts can be found again:
    for [0 <= p < pages] the cell [pageptr[p]] holds the offset of a line
    that opens with [%%Page:], so [seekpage(p)] never ends in the I/O error;
    it can only stop on a label it cannot read. *)
Theorem seekpage_after_scan sizeheaders g szs g' p g2 :
  1 <= maxpages g -> scanpages sizeheaders g = Ok szs g' ->
  pageptr g2 = pageptr g' -> content (infile g2) = content (infile g) ->
  0 <= p < pages g' ->
  exists off,
    load p (pageptr g') = Some off
    /\ iscomment (line_at (content (infile g)) off) "%%Page:" = true
    /\ match seekpage p g2 with
       | Ok _ g3 =>
           fpos (infile g3) = off + len (line_at (content (infile g)) off)
       | Fatal msg _ => msg = "Bad page label while seeking page"%string
       | Undefined why => why = "page label runs past the line"%string
       end.
Proof.
  intros Hm Hs Ept Ec Hp.
  pose proof (scanpages_inv sizeheaders g Hm) as H. rewrite Hs in H.
  destruct H as (l & _ & _ & Hinv & Hl).
  pose proof (si_pos _ _ _ _ Hinv) as Hpos.
  pose proof (si_table _ _ _ _ Hinv) as (T1 & T2 & T3).
  assert (Hoff : exists off, load p (pageptr g') = Some off
            /\ 0 <= off < fpos (infile g')
            /\ dsc (line_at (content (infile g)) off) "Page:" = true).
  { rewrite load_page_offsets by lia.
    destruct (nth_error (page_offsets g') (Z.to_nat p)) as [a|] eqn:E.
    - exists a. split; [reflexivity|].
      apply nth_error_In in E. pose proof (si_pages _ _ _ _ Hinv) as F.
      rewrite Forall_forall in F. apply F in E. exact E.
    - apply nth_error_None in E. unfold page_offsets in E.
      rewrite firstn_length_le in E by lia. lia. }
  destruct Hoff as (off & Eo & Ho & Hd).
  apply dsc_page_comment in Hd.
  exists off. split; [exact Eo|]. split; [exact Hd|].
  unfold seekpage. rewrite Ept, Eo.
  set (g3 := set_infile (fseeko off (infile g2)) g2).
  assert (E3 : infile g3 = {| content := content (infile g); fpos := off |}).
  { unfold g3, fseeko. destruct (Z.ltb_spec off 0); [lia|].
    rewrite <- Ec. destruct g2; reflexivity. }
  rewrite E3. rewrite fgets_some by (cbn [fpos content]; lia).
  cbn [content fpos]. rewrite Hd.
  set (fin := {| content := _; fpos := _ |}).
  assert (Ef : forall a b, fpos (infile (set_pageno a (set_pagelabel b (set_infile fin g3))))
                 = off + len (line_at (content (infile g)) off)).
  { intros. destruct g3; reflexivity. }
  destruct (Byte.eqb _ _).
  - destruct (paren_label _ _) as [[lab aft]|]; [apply Ef|reflexivity].
  - destruct (word_label _) as [[lab aft]|]; [apply Ef|reflexivity].
Qed.

Lemma seekpage_after_scan_witness :
  exists off,
    load 2 (pageptr (Scenario.scanned Scenario.doc4)) = Some off
    /\ iscomment (line_at Scenario.doc4 off) "%%Page:" = true
    /\ match seekpage 2 (Scenario.scanned Scenario.doc4) with
       | Ok _ g3 => fpos (infile g3) = off + len (line_at Scenario.doc4 off)
       | Fatal msg _ => msg = "Bad page label while seeking page"%string
       | Undefined why => why = "page label runs past the line"%string
       end.
Proof.
  refine (seekpage_after_scan (Some 20) (Scenario.start Scenario.doc4)
            (match scanpages (Some 20) (Scenario.start Scenario.doc4) with
             | Ok a _ => a | _ => [] end)
            (Scenario.scanned Scenario.doc4) 2 (Scenario.scanned Scenario.doc4)
            _ _ _ _ _).
  - cbn. lia.
  - vm_compute. reflexivity.
  - reflexivity.
  - vm_compute. reflexivity.
  - vm_compute. split; [discriminate|reflexivity].
Defined.

Lemma sorted_lt_le (l : list Z) : StronglySorted Z.lt l -> StronglySorted Z.le l.
Proof.
  induction 1 as [|x l Hs IH Hx]; constructor; [assumption|].
  eapply Forall_impl; [|exact Hx]. cbv beta. intros; lia.
Qed.

(** X4. The offsets a scan hands back in [sizeheaders] ascend strictly;
    each is the offset of a header line that opens with one of the four
    size comments, read before the end of the header was fixed; and unless
    the very first line of the input is such a comment (offset 0, which
    reads as the end of the array) they form an ignore list as [fcopy]
    expects it. *)
Theorem sizeheaders_ascend cap g szs g' :
  1 <= maxpages g -> scanpages (Some cap) g = Ok szs g' ->
  StronglySorted Z.lt szs
  /\ Z.of_nat (List.length szs) < cap
  /\ Forall (fun r => 0 <= r < len (content (infile g))
                      /\ size_comment (line_at (content (infile g)) r) = true
                      /\ (headerpos g' <> 0 -> r < headerpos g')) szs
  /\ (~ In 0 szs -> ascending szs).
Proof.
  intros Hm Hs.
  pose proof (scanpages_inv (Some cap) g Hm) as H. rewrite Hs in H.
  destruct H as (l & -> & Ek & Hinv & _).
  pose proof (si_pos _ _ _ _ Hinv) as Hp.
  pose proof (si_sizes _ _ _ _ Hinv) as F.
  split; [apply (si_sizes_sorted _ _ _ _ Hinv)|].
  split; [apply (si_cap _ _ _ _ Hinv); exact Ek|].
  split.
  - eapply Forall_impl; [|exact F]. cbv beta. intros r (Hr & Hd & Hh).
    repeat split; try assumption; lia.
  - intros H0. split; [apply sorted_lt_le, (si_sizes_sorted _ _ _ _ Hinv)|].
    rewrite Forall_forall in *. intros r Hr.
    destruct (F r Hr) as (Hr' & _). destruct (Z.eq_dec r 0) as [->|]; [contradiction|lia].
Qed.

Lemma sizeheaders_ascend_witness :
  StronglySorted Z.lt [26]
  /\ Z.of_nat (List.length [26]) < 20
  /\ Forall (fun r => 0 <= r < len Scenario.doc4
                      /\ size_comment (line_at Scenario.doc4 r) = true
                      /\ (headerpos (Scenario.scanned Scenario.doc4) <> 0 ->
                          r < headerpos (Scenario.scanned Scenario.doc4))) [26]
  /\ (~ In 0 [26] -> ascending [26]).
Proof.
  refine (sizeheaders_ascend 20 (Scenario.start Scenario.doc4) [26]
            (Scenario.scanned Scenario.doc4) _ _).
  - cbn. lia.
  - vm_compute. reflexivity.
Defined.

(** X5. A scan that starts with no procset mark records an end of the
    procset only after a beginning: [endprocset] stays 0 as long as
    [beginprocset] is 0, and when set it is an offset the scan has read, at
    or before the place the scan stopped. *)
Theorem procset_marks sizeheaders g szs g' :
  beginprocset g = 0 -> endprocset g = 0 ->
  scanpages sizeheaders g = Ok szs g' ->
  (beginprocset g' = 0 -> endprocset g' = 0)
  /\ 0 <= endprocset g' <= fpos (infile g').
Proof.
  intros Hb He H. unfold scanpages in H.
  bind_inv H l g1 H1. bind_inv H x g2 H2. injection H as _ <-.
  assert (Hg1 : procset_ok g1).
  { unfold scan in H1. revert H1. case_if; [discriminate|].
    case_if; [discriminate|].
    apply scan_loop_procset. unfold procset_ok, fseeko.
    destruct g; cbn in *. subst. split; [lia|reflexivity]. }
  destruct Hg1 as (Hr & Hi).
  unfold finish in H2. destruct (store _ _ _); [|discriminate].
  destruct (load _ _); [|discriminate].
  revert H2. case_if; intros E; injection E as _ <-; destruct g1; fields;
    split; assumption.
Qed.

Lemma procset_marks_witness :
  let g' := Scenario.scanned Scenario.doc_chained in
  (beginprocset g' = 0 -> endprocset g' = 0)
  /\ 0 <= endprocset g' <= fpos (infile g').
Proof.
  apply (procset_marks (Some 20) (Scenario.start Scenario.doc_chained)
           (match scanpages (Some 20) (Scenario.start Scenario.doc_chained) with
            | Ok a _ => a | _ => [] end)).
  - reflexivity.
  - reflexivity.
  - vm_compute. reflexivity.
Defined.

(** *** The copier: ranges that join, lists that do not apply *)

Lemma slice_join c a n m : 0 <= a -> 0 <= n -> 0 <= m ->
  slice c a n ++ slice c (a + n) m = slice c a (n + m).
Proof.
  intros Ha Hn Hm. unfold slice. rewrite from_add by lia.
  rewrite Z2Nat.inj_add by lia. now rewrite firstn_plus.
Qed.

Lemma fcopy_plain_done upto g : wf g ->
  fst (fcopy_plain upto g) <> 0 ->
  let n := Z.max 0 (upto - fpos (infile g)) in
  n <= len (rest (infile g)) /\ n <= room (outfile g)
  /\ fcopy_plain upto g
     = (1, after g (fpos (infile g) + n) (slice (content (infile g)) (fpos (infile g)) n)).
Proof.
  intros Hwf Hr n. destruct (fcopy_plain_spec upto g Hwf) as [S1 S2]. fold n in S1, S2.
  destruct (Z_le_dec n (len (rest (infile g)))) as [H1|H1];
    [destruct (Z_le_dec n (room (outfile g))) as [H2|H2]|].
  - repeat split; try assumption. apply S1. split; assumption.
  - exfalso. apply Hr, S2. tauto.
  - exfalso. apply Hr, S2. tauto.
Qed.

Lemma wf_after g p w : wf g -> 0 <= p -> len w <= room (outfile g) -> wf (after g p w).
Proof.
  intros [H1 H2] Hp Hw. destruct (after_fields g p w) as (Ei & Eo & _).
  unfold wf. rewrite Ei, Eo. cbn [fpos room]. lia.
Qed.

Lemma rest_after g p w : 0 <= p ->
  len (rest (infile (after g p w))) = Z.max 0 (len (content (infile g)) - p).
Proof.
  intros Hp. destruct (after_fields g p w) as (Ei & _ & _).
  unfold rest. rewrite Ei. cbn [fpos content]. apply len_from. exact Hp.
Qed.

(** X6. A plain copy can be made in two: for [here <= a <= b],
    [fcopy(b, NULL)] succeeds exactly when [fcopy(a, NULL)] followed by
    [fcopy(b, NULL)] both succeed, and the two ways leave the same state
    (output, byte count, cursor). *)
Theorem fcopy_in_two a b g g2 : wf g -> fpos (infile g) <= a -> a <= b ->
  fcopy b None g = (1, g2)
  <-> exists g1, fcopy a None g = (1, g1) /\ fcopy b None g1 = (1, g2).
Proof.
  intros Hwf Ha Hb. cbn [fcopy].
  pose proof Hwf as [Hp Hroom].
  set (c := content (infile g)) in *. set (here := fpos (infile g)) in *.
  assert (Hrest : len (rest (infile g)) = Z.max 0 (len c - here))
    by (unfold rest; apply len_from; exact Hp).
  destruct (fcopy_plain_spec a g Hwf) as [A1 A2].
  destruct (fcopy_plain_spec b g Hwf) as [B1 B2].
  fold c here in A1, A2, B1, B2.
  rewrite !Z.max_r in A1, A2, B1, B2 by lia.
  replace (here + (a - here)) with a in A1 by lia.
  replace (here + (b - here)) with b in B1 by lia.
  set (g1 := after g a (slice c here (a - here))) in *.
  assert (Hs : len (slice c here (a - here)) = Z.min (a - here) (len (rest (infile g)))).
  { unfold slice. rewrite len_firstn by lia. reflexivity. }
  assert (C1 : a - here <= len (rest (infile g)) /\ a - here <= room (outfile g) ->
     wf g1 /\ content (infile g1) = c /\ fpos (infile g1) = a
     /\ len (rest (infile g1)) = Z.max 0 (len c - a)
     /\ room (outfile g1) = room (outfile g) - (a - here)).
  { intros [H1 H2]. destruct (after_fields g a (slice c here (a - here))) as (Ei & Eo & _).
    fold g1 in Ei, Eo. rewrite Z.min_l in Hs by lia.
    split; [apply wf_after; try assumption; lia|].
    rewrite Ei, Eo. cbn [content fpos room]. repeat split; try lia.
    unfold rest. cbn [content fpos]. apply len_from. lia. }
  split.
  - intros E.
    assert (Hok : b - here <= len (rest (infile g)) /\ b - here <= room (outfile g)).
    { destruct (Z_le_dec (b - here) (len (rest (infile g)))) as [H1|H1];
        [destruct (Z_le_dec (b - here) (room (outfile g))) as [H2|H2]|];
        [tauto| |]; exfalso; rewrite E in B2; cbn [fst] in B2;
        assert (1 = 0) by (apply B2; tauto); lia. }
    rewrite B1 in E by exact Hok. injection E as <-.
    exists g1. split; [apply A1; lia|].
    destruct (C1 ltac:(lia)) as (W1 & Ec & Ef & Er & Eo).
    destruct (fcopy_plain_spec b g1 W1) as [D1 _].
    rewrite ?Ef, ?Ec in D1. rewrite Z.max_r in D1 by lia.
    rewrite D1 by lia. f_equal. unfold g1. rewrite after_after.
    replace (a + (b - a)) with b by lia. f_equal.
    replace a with (here + (a - here)) at 2 by lia.
    rewrite slice_join by lia. f_equal. lia.
  - intros (g1' & E1 & E2).
    assert (Hok : a - here <= len (rest (infile g)) /\ a - here <= room (outfile g)).
    { destruct (Z_le_dec (a - here) (len (rest (infile g)))) as [H1|H1];
        [destruct (Z_le_dec (a - here) (room (outfile g))) as [H2|H2]|];
        [tauto| |]; exfalso; rewrite E1 in A2; cbn [fst] in A2;
        assert (1 = 0) by (apply A2; tauto); lia. }
    rewrite A1 in E1 by exact Hok. injection E1 as <-.
    destruct (C1 Hok) as (W1 & Ec & Ef & Er & Eo).
    destruct (fcopy_plain_spec b g1 W1) as [D1 D2].
    rewrite ?Ef, ?Ec in D1. rewrite ?Ef in D2. rewrite Z.max_r in D1, D2 by lia.
    assert (Hok2 : b - a <= len (rest (infile g1)) /\ b - a <= room (outfile g1)).
    { destruct (Z_le_dec (b - a) (len (rest (infile g1)))) as [H1|H1];
        [destruct (Z_le_dec (b - a) (room (outfile g1))) as [H2|H2]|];
        [tauto| |]; exfalso; rewrite E2 in D2; cbn [fst] in D2;
        assert (1 = 0) by (apply D2; tauto); lia. }
    rewrite D1 in E2 by exact Hok2. injection E2 as <-.
    rewrite B1 by lia. f_equal. unfold g1. rewrite after_after.
    replace (a + (b - a)) with b by lia. f_equal.
    replace a with (here + (a - here)) at 2 by lia.
    rewrite slice_join by lia. f_equal. lia.
Qed.

Lemma fcopy_in_two_witness :
  fcopy 40 None (Scenario.start Scenario.doc4)
  = (1, snd (fcopy 40 None (Scenario.start Scenario.doc4)))
  <-> exists g1, fcopy 15 None (Scenario.start Scenario.doc4) = (1, g1)
                 /\ fcopy 40 None g1
                    = (1, snd (fcopy 40 None (Scenario.start Scenario.doc4))).
Proof.
  apply (fcopy_in_two 15 40 (Scenario.start Scenario.doc4)).
  - split; cbn; lia.
  - cbn. lia.
  - lia.
Defined.

Lemma skip_ignored_head ign here :
  let e := hd 0 (skip_ignored ign here) in
  (e <= 0 \/ here <= e) /\ (e = 0 \/ In e ign).
Proof.
  induction ign as [|x r IH]; cbn [skip_ignored hd].
  - split; left; lia.
  - destruct (Z.ltb_spec 0 x); destruct (Z.ltb_spec x here); cbn [andb hd];
      try (split; [lia|right; left; reflexivity]).
    destruct IH as [I1 I2]. split; [exact I1|].
    destruct I2; [now left|right; now right].
Qed.

(** X7. An ignore list none of whose positive entries lies in the range
    [here <= e < upto] changes nothing: [fcopy(upto, ignorelist)] is then
    [fcopy(upto, NULL)], same result and same state. *)
Theorem fcopy_ignore_outside upto ign g :
  (forall e, In e ign -> 0 < e -> fpos (infile g) <= e -> upto <= e) ->
  fcopy upto (Some ign) g = fcopy upto None g.
Proof.
  intros H. cbn [fcopy]. unfold ftello.
  destruct (skip_ignored_head ign (fpos (infile g))) as [H1 H2].
  set (ign' := skip_ignored ign (fpos (infile g))) in *.
  assert (E : (0 <? hd 0 ign') && (hd 0 ign' <? upto) = false).
  { destruct (Z.ltb_spec 0 (hd 0 ign')) as [Hpos|]; [|reflexivity].
    destruct (Z.ltb_spec (hd 0 ign') upto) as [Hlt|]; [|reflexivity].
    exfalso. destruct H2 as [H2|H2]; [lia|].
    specialize (H _ H2 Hpos). lia. }
  destruct (List.length ign') as [|n]; cbn [ignore_loop]; rewrite E; reflexivity.
Qed.

Lemma fcopy_ignore_outside_witness :
  fcopy 26 (Some [26; 60]) (Scenario.start Scenario.doc4)
  = fcopy 26 None (Scenario.start Scenario.doc4).
Proof.
  apply (fcopy_ignore_outside 26 [26; 60] (Scenario.start Scenario.doc4)).
  intros e [<-|[<-|[]]] _ _; lia.
Defined.

Import Seekable.

(** *** The temporary copy of an input that cannot be positioned *)

Lemma write_all_spec fuel : forall p ft,
  p <> [] -> (List.length p <= fuel)%nat -> 0 <= room ft ->
  write_all fuel p ft
  = if len p <=? room ft
    then Some {| written := written ft ++ p; room := room ft - len p |}
    else None.
Proof.
  induction fuel as [|fuel IH]; intros p ft Hp Hf Hr.
  - destruct p; [contradiction|cbn in Hf; lia].
  - cbn [write_all]. unfold fwrite.
    assert (Hlen : 1 <= len p).
    { destruct p; [contradiction|]. unfold len. cbn [List.length]. lia. }
    rewrite len_firstn by exact Hr.
    destruct (Z.leb_spec (len p) (room ft)) as [Hfit|Hshort].
    + rewrite Z.min_r by lia. destruct (Z.eqb_spec (len p) 0); [lia|].
      assert (En : Z.to_nat (len p) = List.length p) by (unfold len; lia).
      rewrite En, skipn_all.
      cbn [len List.length Z.of_nat Z.ltb Z.compare].
      rewrite firstn_all2 by (unfold len in Hfit; lia). reflexivity.
    + rewrite Z.min_l by lia. destruct (Z.eqb_spec (room ft) 0) as [E0|E0];
        [reflexivity|].
      assert (Hrest : 1 <= len (skipn (Z.to_nat (room ft)) p)).
      { unfold len in *. rewrite length_skipn. lia. }
      destruct (Z.ltb_spec 0 (len (skipn (Z.to_nat (room ft)) p))); [|lia].
      rewrite IH.
      * cbn [room]. destruct (Z.leb_spec (len (skipn (Z.to_nat (room ft)) p))
                                (room ft - room ft)); [lia|reflexivity].
      * intros E. rewrite E in Hrest. cbn in Hrest. lia.
      * rewrite length_skipn. unfold len in *. lia.
      * cbn [room]. lia.
Qed.

Lemma slurp_spec fuel : forall fp ft,
  0 <= fpos fp -> (List.length (rest fp) < fuel)%nat -> 0 <= room ft ->
  slurp fuel fp ft
  = if len (rest fp) <=? room ft
    then Some {| written := written ft ++ rest fp;
                 room := room ft - len (rest fp) |}
    else None.
Proof.
  induction fuel as [|fuel IH]; intros fp ft Hp Hf Hr; [lia|].
  cbn [slurp]. unfold fread.
  set (buf := firstn (Z.to_nat BUFSIZ) (rest fp)).
  assert (Hb : len buf = Z.min BUFSIZ (len (rest fp))).
  { unfold buf. apply len_firstn. unfold BUFSIZ. lia. }
  assert (Hsplit : rest fp = buf ++ skipn (Z.to_nat BUFSIZ) (rest fp)).
  { unfold buf. symmetry. apply firstn_skipn. }
  destruct (Z.ltb_spec 0 (len buf)) as [Hsome|Hnone].
  - assert (Hne : buf <> []) by (intros E; rewrite E in Hsome; cbn in Hsome; lia).
    rewrite write_all_spec by (try assumption; lia).
    destruct (Z.leb_spec (len buf) (room ft)) as [Hfit|Hshort].
    + set (fp' := {| content := content fp; fpos := fpos fp + len buf |}).
      assert (Er : rest fp' = skipn (Z.to_nat BUFSIZ) (rest fp)).
      { unfold rest, fp'. cbn [content fpos]. rewrite from_add by lia.
        fold (rest fp). rewrite Hb.
        destruct (Z.min_spec BUFSIZ (len (rest fp))) as [[_ ->]|[Hge ->]];
          [reflexivity|].
        assert (En : Z.to_nat (len (rest fp)) = List.length (rest fp))
          by (unfold len; lia).
        rewrite En, skipn_all.
        symmetry. apply skipn_all2. unfold len in Hge. unfold BUFSIZ in *. lia. }
      rewrite IH.
      * cbn [room written]. rewrite Er.
        assert (El : len (rest fp) = len buf + len (skipn (Z.to_nat BUFSIZ) (rest fp))).
        { rewrite Hsplit at 1. apply len_app. }
        destruct (Z.leb_spec (len (skipn (Z.to_nat BUFSIZ) (rest fp)))
                    (room ft - len buf));
          destruct (Z.leb_spec (len (rest fp)) (room ft)); try lia; [|reflexivity].
        f_equal. f_equal; [|lia]. rewrite <- app_assoc, <- Hsplit. reflexivity.
      * unfold fp'. cbn [fpos]. lia.
      * rewrite Er, length_skipn.
        assert (1 <= List.length (rest fp))%nat.
        { rewrite Hsplit, length_app. unfold len in Hsome. lia. }
        unfold BUFSIZ. lia.
      * cbn [room]. lia.
    + destruct (Z.leb_spec (len (rest fp)) (room ft)); [lia|reflexivity].
  - assert (E0 : rest fp = []).
    { pose proof (len_nonneg buf). pose proof (len_nonneg (rest fp)).
      assert (len (rest fp) = 0) by (unfold BUFSIZ in Hb; lia).
      destruct (rest fp); [reflexivity|]. unfold len in *. cbn in *. lia. }
    rewrite E0. cbn [len List.length Z.of_nat].
    destruct (Z.leb_spec 0 (room ft)); [|lia].
    rewrite app_nil_r, Z.sub_0_r. destruct ft; reflexivity.
Qed.

(** X8. [seekable] hands a stream that takes positioning back as it is;
    of one that does not it makes a temporary copy: with a temporary file
    that has room for all that is still to come, the result is a rewound
    stream holding exactly those bytes, however the reads fall into chunks;
    without a temporary file, or with one that fills up, the result is
    NULL. *)
Theorem seekable_copies fp : 0 <= fpos fp ->
  (forall tmpfile, seekable true tmpfile fp = Some fp)
  /\ seekable false None fp = None
  /\ forall room, 0 <= room ->
       seekable false (Some room) fp
       = if len (rest fp) <=? room
         then Some {| content := rest fp; fpos := 0 |}
         else None.
Proof.
  intros Hp. split; [reflexivity|]. split; [reflexivity|].
  intros room Hr. unfold seekable.
  rewrite slurp_spec by (cbn [Stdio.room]; lia || assumption).
  cbn [Stdio.room written app].
  destruct (Z.leb_spec (len (rest fp)) room); reflexivity.
Qed.

Lemma seekable_copies_witness :
  seekable false (Some 100000) {| content := Scenario.doc4; fpos := 15 |}
  = Some {| content := from 15 Scenario.doc4; fpos := 0 |}.
Proof.
  exact (proj2 (proj2 (seekable_copies {| content := Scenario.doc4; fpos := 15 |}
                         ltac:(cbn; lia))) 100000 ltac:(lia)).
Defined.

(** *** Decimal numerals *)

Lemma uint_value_pos u : forall acc,
  uint_value (Z.pos acc) u = Z.pos (Pos.of_uint_acc u acc).
Proof.
  induction u; intros acc; cbn [uint_value Pos.of_uint_acc];
    try reflexivity; rewrite <- IHu; f_equal; lia.
Qed.

Lemma uint_value_of_uint u : uint_value 0 u = Z.of_N (Pos.of_uint u).
Proof.
  induction u; cbn [uint_value Pos.of_uint]; try reflexivity;
    try (cbn [Z.mul Z.add]; rewrite uint_value_pos; reflexivity).
  exact IHu.
Qed.

Lemma uint_value_to_uint p : uint_value 0 (Pos.to_uint p) = Z.pos p.
Proof. now rewrite uint_value_of_uint, DecimalPos.Unsigned.of_to. Qed.

Lemma str_cons a s : str (String a s) = byte_of_ascii a :: str s.
Proof. reflexivity. Qed.

Lemma digits_uint u : forall acc r,
  digits_value acc (str (DecimalString.NilEmpty.string_of_uint u) ++ r)
  = digits_value (uint_value acc u) r.
Proof.
  induction u; intros acc r; cbn [DecimalString.NilEmpty.string_of_uint uint_value];
    try reflexivity;
    rewrite str_cons; cbn [app digits_value];
    match goal with
    | |- context [isdigit ?b] =>
        let v := eval vm_compute in (isdigit b) in
        change (isdigit b) with v
    end; cbv iota;
    match goal with
    | |- context [code ?b] =>
        let v := eval vm_compute in (code b) in
        change (code b) with v
    end; rewrite IHu; f_equal.
Qed.

Lemma fmt_d_nonneg n : 0 <= n ->
  exists u, fmt_d n = str (DecimalString.NilEmpty.string_of_uint u)
            /\ uint_value 0 u = n /\ u <> Decimal.Nil.
Proof.
  intros Hn. unfold fmt_d. destruct n as [|p|p]; [| |lia].
  - exists (Decimal.D0 Decimal.Nil). repeat split; discriminate.
  - exists (Pos.to_uint p). cbn [Z.to_int DecimalString.NilZero.string_of_int].
    pose proof (DecimalPos.Unsigned.to_uint_nonnil p) as Hnil.
    split; [|split; [apply uint_value_to_uint|exact Hnil]].
    unfold DecimalString.NilZero.string_of_uint.
    destruct (Pos.to_uint p); [contradiction|reflexivity..].
Qed.

(** Reading back what [%d] wrote. *)
Lemma digits_fmt_d n r : 0 <= n ->
  digits_value 0 (fmt_d n ++ r) = digits_value n r.
Proof.
  intros Hn. destruct (fmt_d_nonneg n Hn) as (u & -> & Ev & _).
  now rewrite digits_uint, Ev.
Qed.

(** *** [parseint] *)

Lemma isdigit_code c : isdigit c = true -> 48 <= code c <= 57.
Proof. unfold isdigit. intros H. apply andb_prop in H as [H1 H2]. lia. Qed.

Lemma digits_value_split s : forall acc, 0 <= acc ->
  exists ds, s = ds ++ snd (digits_value acc s)
    /\ forallb isdigit ds = true
    /\ isdigit (peek (snd (digits_value acc s))) = false
    /\ acc <= fst (digits_value acc s)
    /\ (forall r, digits_value acc (ds ++ r)
                  = digits_value (fst (digits_value acc s)) r)
    /\ fst (digits_value acc ds) = fst (digits_value acc s).
Proof.
  induction s as [|c s IH]; intros acc Ha; cbn [digits_value].
  - exists []. cbn. repeat split; try reflexivity.
  - destruct (isdigit c) eqn:Ec.
    + pose proof (isdigit_code c Ec) as Hc.
      destruct (IH (acc * 10 + (code c - 48)) ltac:(lia)) as (ds & E & F & P & L & D & V).
      exists (c :: ds). cbn [app forallb digits_value]. rewrite Ec, <- E.
      repeat split; try assumption; try lia.
    + exists []. cbn [app forallb snd fst peek hd digits_value].
      repeat split; try reflexivity; try assumption.
Qed.

Lemma digit_not_space c : isdigit c = true -> isspace c = false.
Proof.
  intros H. apply isdigit_code in H. unfold isspace.
  destruct (Z.eqb_spec (code c) 32); [lia|].
  destruct (Z.leb_spec 9 (code c)); destruct (Z.leb_spec (code c) 13); try reflexivity; lia.
Qed.

Lemma digit_not_sign c : isdigit c = true ->
  Byte.eqb c "-"%byte = false /\ Byte.eqb c "+"%byte = false.
Proof.
  intros H. split.
  - destruct (Byte.eqb c "-"%byte) eqn:E; [|reflexivity].
    apply Byte.byte_dec_bl in E. subst. discriminate.
  - destruct (Byte.eqb c "+"%byte) eqn:E; [|reflexivity].
    apply Byte.byte_dec_bl in E. subst. discriminate.
Qed.

Lemma cstring_idem s : cstring (cstring s) = cstring s.
Proof.
  induction s as [|c s IH]; cbn [cstring]; [reflexivity|].
  destruct (Byte.eqb c NUL) eqn:E; [reflexivity|].
  cbn [cstring]. now rewrite E, IH.
Qed.

(** X9. [parseint] reads an unsigned decimal number: it stops the run with
    the argument error unless the string opens with a digit (a sign or
    leading white space, which [atol] would take, is refused); when it
    returns, the number is that of the leading run of digits, never
    negative and kept at [LONG_MAX] when the digits say more, the state is
    untouched and the pointer is left at the first character that is not a
    digit. *)
Theorem parseint_reads_digits s g :
  (isdigit (peek (cstring s)) = false -> parseint s g = Fatal "argerror" g)
  /\ (forall n r g', parseint s g = Ok (n, r) g' ->
        g' = g /\ isdigit (peek (cstring s)) = true
        /\ 0 <= n <= LONG_MAX
        /\ exists ds, cstring s = ds ++ r /\ ds <> []
             /\ forallb isdigit ds = true
             /\ isdigit (peek r) = false
             /\ n = Z.min LONG_MAX (fst (digits_value 0 ds))).
Proof.
  unfold parseint.
  destruct (digits_value_split (cstring s) 0 ltac:(lia)) as (ds & E & F & P & L & D & V).
  set (r0 := snd (digits_value 0 (cstring s))) in *.
  split.
  - intros Hd. destruct (cstring s) as [|c t] eqn:Ec.
    + cbn. reflexivity.
    + cbn [peek hd] in Hd. unfold r0. cbn [digits_value]. rewrite Hd.
      cbn [snd]. now rewrite Nat.eqb_refl.
  - intros n r g'.
    destruct (Nat.eqb_spec (List.length r0) (List.length (cstring s))) as [El|El];
      [discriminate|].
    intros H. injection H as <- <- <-.
    assert (Hds : ds <> []).
    { intros ->. cbn [app] in E. rewrite <- E in El. contradiction. }
    assert (Hpk : isdigit (peek (cstring s)) = true).
    { rewrite E. destruct ds as [|c ds]; [contradiction|].
      cbn [app peek hd forallb] in *. apply andb_prop in F. tauto. }
    assert (Ev : atol s = Z.min LONG_MAX (fst (digits_value 0 (cstring s)))).
    { unfold atol. destruct (cstring s) as [|c t] eqn:Ec; [discriminate|].
      cbn [peek hd] in Hpk. cbn [skip_space].
      rewrite (digit_not_space c Hpk).
      destruct (digit_not_sign c Hpk) as [-> ->].
      unfold LONG_MIN, LONG_MAX in *. lia. }
    split; [reflexivity|]. split; [exact Hpk|].
    split; [rewrite Ev; unfold LONG_MAX; lia|].
    exists ds. repeat split; try assumption. rewrite Ev, V. reflexivity.
Qed.

(** *** Reading a page comment back *)

Lemma uint_digits u : forallb isdigit (str (DecimalString.NilEmpty.string_of_uint u)) = true.
Proof.
  induction u; cbn [DecimalString.NilEmpty.string_of_uint]; [reflexivity|..];
    rewrite str_cons; cbn [forallb]; rewrite IHu; reflexivity.
Qed.

Lemma fmt_d_digits n : 0 <= n ->
  forallb isdigit (fmt_d n) = true /\ fmt_d n <> [].
Proof.
  intros Hn. destruct (fmt_d_nonneg n Hn) as (u & -> & _ & Hu).
  split; [apply uint_digits|]. destruct u; try contradiction; discriminate.
Qed.

Lemma word_label_word l : forall sp r,
  forallb (fun c => negb (isspace c) && negb (Byte.eqb c NUL)) l = true ->
  isspace sp = true ->
  word_label (l ++ sp :: r) = Some (l, sp :: r).
Proof.
  induction l as [|c l IH]; intros sp r Hl Hs; cbn [app word_label].
  - now rewrite Hs.
  - cbn [forallb] in Hl. apply andb_prop in Hl as [Hc Hl].
    apply andb_prop in Hc as [Hc _]. apply negb_true_iff in Hc.
    now rewrite Hc, IH.
Qed.

Lemma paren_label_body body : forall r, paren_body_ok body = true ->
  paren_label (body ++ ")"%byte :: r) 1 = Some (body ++ [")"%byte], r).
Proof.
  unfold paren_body_ok.
  induction body as [|c l IH]; intros r Hl; cbn [app paren_label].
  - change (Byte.eqb ")" "(") with false. change (Byte.eqb ")" ")") with true.
    cbv iota. destruct r; reflexivity.
  - cbn [forallb] in Hl. apply andb_prop in Hl as [Hc Hl].
    apply andb_prop in Hc as [Hc H2]. apply andb_prop in Hc as [_ H1].
    apply negb_true_iff in H1, H2. rewrite H1, H2.
    fold (paren_label (l ++ ")"%byte :: r) 1). now rewrite IH.
Qed.

Lemma atoi_fmt_d n : 0 <= n <= INT_MAX ->
  atoi (str " " ++ fmt_d n ++ [nl]) = n.
Proof.
  intros Hn. destruct (fmt_d_digits n ltac:(lia)) as [Hd Hne].
  unfold atoi, atol.
  assert (Hnul : no_nul (str " " ++ fmt_d n ++ [nl]) = true).
  { rewrite !no_nul_app, no_nul_fmt_d. reflexivity. }
  rewrite cstring_no_nul by exact Hnul.
  change (str " " ++ fmt_d n ++ [nl]) with (" "%byte :: fmt_d n ++ [nl]).
  cbn [skip_space]. change (isspace " "%byte) with true. cbv iota.
  destruct (fmt_d n) as [|d ds] eqn:E; [contradiction|].
  cbn [forallb] in Hd. apply andb_prop in Hd as [H1 _].
  cbn [app skip_space]. rewrite (digit_not_space d H1).
  destruct (digit_not_sign d H1) as [-> ->].
  change (d :: ds ++ [nl]) with ((d :: ds) ++ [nl]). rewrite <- E.
  rewrite digits_fmt_d by lia. cbn [digits_value].
  change (isdigit nl) with false. cbv iota. cbn [fst].
  unfold LONG_MIN, LONG_MAX, INT_MAX in *.
  rewrite Z.min_r, Z.max_r by lia. apply to_int_small.
  unfold INT_MIN, INT_MAX. lia.
Qed.

Lemma line_at_inside c off : line_at c off <> [] -> 0 <= off -> off < len c.
Proof.
  intros H Ho. destruct (Z_lt_le_dec off (len c)) as [Hl|Hl]; [exact Hl|].
  exfalso. apply H. unfold line_at, from.
  rewrite skipn_all2 by (unfold len in Hl; lia).
  destruct (Z.to_nat (BUFSIZ - 1)); reflexivity.
Qed.

Lemma seekpage_page_comment p off label body n g :
  load p (pageptr g) = Some off -> 0 <= off ->
  line_at (content (infile g)) off = page_comment label n ->
  0 <= n <= INT_MAX ->
  (label = body /\ word_label_ok body = true)
  \/ (label = "("%byte :: body ++ [")"%byte] /\ paren_body_ok body = true) ->
  exists g', seekpage p g = Ok tt g'
    /\ pagelabel g' = label /\ pageno g' = n
    /\ fpos (infile g') = off + len (page_comment label n).
Proof.
  intros El Ho Hline Hn Hlab.
  assert (Hin : off < len (content (infile g))).
  { apply line_at_inside; [|exact Ho]. rewrite Hline. unfold page_comment.
    change (str "%%Page: ") with ("%"%byte :: str "%Page: "). cbn [app].
    discriminate. }
  unfold seekpage. rewrite El.
  set (g1 := set_infile (fseeko off (infile g)) g).
  assert (E1 : infile g1 = {| content := content (infile g); fpos := off |}).
  { unfold g1, fseeko. destruct (Z.ltb_spec off 0); [lia|]. destruct g; reflexivity. }
  rewrite E1, fgets_some by (cbn [fpos content]; lia).
  cbn [content fpos]. rewrite Hline.
  set (fin := {| content := _; fpos := _ |}).
  assert (Hc : iscomment (page_comment label n) "%%Page:" = true) by reflexivity.
  rewrite Hc.
  assert (Hnn : no_nul label = true).
  { destruct Hlab as [[-> Hw]|[-> Hb]].
    - unfold word_label_ok in Hw. apply andb_prop in Hw as [_ Hw].
      unfold no_nul. apply forallb_forall. intros x Hx.
      rewrite forallb_forall in Hw.
      specialize (Hw x Hx). apply andb_prop in Hw. tauto.
    - assert (Hbody : no_nul body = true).
      { unfold paren_body_ok in Hb. unfold no_nul. apply forallb_forall.
        intros x Hx. rewrite forallb_forall in Hb.
        specialize (Hb x Hx). apply andb_prop in Hb as [Hb _].
        apply andb_prop in Hb. tauto. }
      change ("("%byte :: body ++ [")"%byte]) with (["("%byte] ++ body ++ [")"%byte]).
      rewrite !no_nul_app, Hbody. reflexivity. }
  assert (Hcs : cstring (page_comment label n) = page_comment label n).
  { apply cstring_no_nul. unfold page_comment.
    rewrite !no_nul_app, Hnn, no_nul_fmt_d. reflexivity. }
  rewrite Hcs.
  change (skipn 7 (page_comment label n))
    with (" "%byte :: label ++ str " " ++ fmt_d n ++ [nl]).
  cbn [skip_space]. change (isspace " "%byte) with true. cbv iota.
  assert (Efin : forall a b,
            fpos (infile (set_pageno a (set_pagelabel b (set_infile fin g1))))
            = off + len (page_comment label n)
            /\ pagelabel (set_pageno a (set_pagelabel b (set_infile fin g1))) = b
            /\ pageno (set_pageno a (set_pagelabel b (set_infile fin g1))) = a).
  { intros. destruct g1; repeat split. }
  destruct Hlab as [[-> Hw]|[-> Hb]].
  - unfold word_label_ok in Hw. apply andb_prop in Hw as [Hw Hall].
    apply andb_prop in Hw as [Hne Hpar]. apply negb_true_iff in Hpar.
    destruct body as [|c l]; [discriminate|].
    cbn [forallb] in Hall. pose proof Hall as Hall'.
    apply andb_prop in Hall as [Hc0 _]. apply andb_prop in Hc0 as [Hsp _].
    apply negb_true_iff in Hsp.
    cbn [app skip_space]. rewrite Hsp. cbn [peek hd] in Hpar |- *. rewrite Hpar.
    change (c :: l ++ str " " ++ fmt_d n ++ [nl])
      with ((c :: l) ++ " "%byte :: fmt_d n ++ [nl]).
    rewrite word_label_word by (exact Hall' || reflexivity).
    eexists. split; [reflexivity|].
    destruct (Efin (atoi (" "%byte :: fmt_d n ++ [nl])) (c :: l)) as (F1 & F2 & F3).
    rewrite F1, F2, F3. repeat split.
    apply (atoi_fmt_d n Hn).
  - cbn [app skip_space]. change (isspace "("%byte) with false. cbv iota.
    cbn [peek hd tl]. change (Byte.eqb "(" "(") with true. cbv iota.
    rewrite <- app_assoc. cbn [app].
    rewrite paren_label_body by exact Hb.
    eexists. split; [reflexivity|].
    destruct (Efin (atoi (str " " ++ fmt_d n ++ [nl])) ("("%byte :: body ++ [")"%byte]))
      as (F1 & F2 & F3).
    rewrite F1, F2, F3. repeat split.
    apply (atoi_fmt_d n Hn).
Qed.

(** X10. [seekpage] reads back the comment [writepageheader] writes:
    where the page table points at the line [%%Page: label n] with
    [0 <= n <= INT_MAX] and a label that is one word, or a text without
    parentheses between one pair of them (the labels [pstops] makes), it
    returns with [pagelabel = label] and [pageno = n], the cursor after the
    line. *)
Theorem seekpage_reads_page_comment p off label body n g :
  load p (pageptr g) = Some off -> 0 <= off ->
  line_at (content (infile g)) off = page_comment label n ->
  0 <= n <= INT_MAX ->
  (label = body /\ word_label_ok body = true)
  \/ (label = "("%byte :: body ++ [")"%byte] /\ paren_body_ok body = true) ->
  exists g', seekpage p g = Ok tt g'
    /\ pagelabel g' = label /\ pageno g' = n
    /\ fpos (infile g') = off + len (page_comment label n).
Proof. exact (seekpage_page_comment p off label body n g). Qed.

Lemma seekpage_reads_page_comment_witness :
  exists g', seekpage 0 (Scenario.scanned Scenario.doc_chained) = Ok tt g'
    /\ pagelabel g' = str "(0)" /\ pageno g' = 1
    /\ fpos (infile g') = 159 + len (page_comment (str "(0)") 1).
Proof.
  apply (seekpage_reads_page_comment 0 159 (str "(0)") (str "0") 1
           (Scenario.scanned Scenario.doc_chained)).
  - vm_compute. reflexivity.
  - lia.
  - vm_compute. reflexivity.
  - unfold INT_MAX. lia.
  - right. split; reflexivity.
Defined.

(** *** The writer: states after a write *)

Lemma after_set_infile f g p w : content f = content (infile g) ->
  after (set_infile f g) p w = after g p w.
Proof. intros E. unfold after. destruct g; fields. cbn in E. now rewrite E. Qed.

Lemma set_infile_after g p w q :
  set_infile {| content := content (infile g); fpos := q |} (after g p w)
  = after g q w.
Proof. unfold after. destruct g; reflexivity. Qed.

Lemma writestring_after s g : 0 <= room (outfile g) ->
  len (cstring s) <= room (outfile g) ->
  writestring s g = after g (fpos (infile g)) (cstring s).
Proof.
  intros Hr Hl. unfold writestring, fputs, fwrite, after.
  rewrite firstn_all2 by (unfold len in Hl; lia).
  destruct g as [[c p] [w r]]; reflexivity.
Qed.

Lemma writestring_room s g : 0 <= room (outfile g) ->
  0 < room (outfile (writestring s g)) ->
  len (cstring s) < room (outfile g).
Proof.
  unfold writestring, fputs, fwrite. destruct g as [i [w r]]. fields.
  intros Hr Hpos. rewrite len_firstn in Hpos by assumption. lia.
Qed.

Lemma room_after g p w : room (outfile (after g p w)) = room (outfile g) - len w.
Proof. destruct (after_fields g p w) as (_ & -> & _). reflexivity. Qed.

Lemma take_line_prefix n : forall l,
  l = take_line n l ++ skipn (List.length (take_line n l)) l.
Proof.
  induction n as [|n IH]; intros [|b r]; cbn [take_line]; try reflexivity.
  destruct (Byte.eqb b nl); cbn [List.length skipn app]; [reflexivity|].
  f_equal. apply IH.
Qed.

Lemma rest_line c p : 0 <= p ->
  from p c = line_at c p ++ from (p + len (line_at c p)) c.
Proof.
  intros Hp. rewrite from_add by (try apply len_nonneg; lia).
  unfold line_at, len. rewrite Nat2Z.id. apply take_line_prefix.
Qed.

Lemma no_nul_cstring l : no_nul (cstring l) = true.
Proof.
  induction l as [|b r IH]; cbn [cstring]; [reflexivity|].
  destruct (Byte.eqb b NUL) eqn:E; [reflexivity|].
  cbn [no_nul forallb]. rewrite E. exact IH.
Qed.

(** *** The trailer *)

Lemma trailer_loop_copies fuel : forall g,
  wf g -> (List.length (rest (infile g)) < fuel)%nat ->
  no_nul (rest (infile g)) = true ->
  len (rest (infile g)) <= room (outfile g) ->
  trailer_loop fuel g
  = after g (fpos (infile g) + len (rest (infile g))) (rest (infile g)).
Proof.
  induction fuel as [|fuel IH]; intros g Hwf Hf Hn Hr; [lia|].
  pose proof Hwf as [Hp Hroom].
  cbn [trailer_loop].
  destruct (Z_lt_le_dec (fpos (infile g)) (len (content (infile g)))) as [Hl|Hl].
  - rewrite fgets_some by assumption.
    set (c := content (infile g)) in *. set (p := fpos (infile g)) in *.
    destruct (line_at_bounds c p Hp Hl) as [L1 L2].
    pose proof (rest_line c p Hp) as Esplit.
    change (from p c) with (rest (infile g)) in Esplit.
    set (line := line_at c p) in *.
    set (tail := from (p + len line) c) in *.
    rewrite Esplit in Hn, Hr. rewrite no_nul_app in Hn. rewrite len_app in Hr.
    apply andb_prop in Hn as [Hn1 Hn2].
    pose proof (len_nonneg tail) as Ht.
    assert (E1 : writestring line (set_infile {| content := c; fpos := p + len line |} g)
                 = after g (p + len line) line).
    { rewrite writestring_after.
      - rewrite (cstring_no_nul _ Hn1).
        replace (fpos (infile (set_infile {| content := c; fpos := p + len line |} g)))
          with (p + len line) by (destruct g; reflexivity).
        apply after_set_infile. reflexivity.
      - destruct g; exact Hroom.
      - rewrite (cstring_no_nul _ Hn1). destruct g; fields. lia. }
    rewrite E1.
    destruct (after_fields g (p + len line) line) as (Ei & Eo & _).
    assert (Er : rest (infile (after g (p + len line) line)) = tail).
    { unfold rest. rewrite Ei. reflexivity. }
    rewrite IH.
    + rewrite Er, Ei. cbn [fpos]. rewrite after_after, Esplit, len_app.
      f_equal. lia.
    + split; [rewrite Ei; cbn [fpos]; lia|rewrite room_after; lia].
    + rewrite Er. rewrite Esplit, length_app in Hf. unfold len in L1. lia.
    + rewrite Er. exact Hn2.
    + rewrite Er, room_after. lia.
  - rewrite fgets_none by assumption.
    assert (E0 : rest (infile g) = []).
    { unfold rest. pose proof (len_from (fpos (infile g)) (content (infile g)) Hp) as E.
      destruct (from _ _); [reflexivity|]. unfold len in *. cbn in *. lia. }
    rewrite E0. cbn [len List.length Z.of_nat]. rewrite Z.add_0_r, after_id.
    destruct g; reflexivity.
Qed.

(** X11. [writetrailer] copies the input from the trailer sentinel
    [pageptr[pages]] to its end: when those bytes hold no NUL and the output
    has room for them, they go out unchanged, the byte count grows by their
    number and the input is left at its end.  (A line is written with
    [fputs], which stops at a NUL.) *)
Theorem writetrailer_copies_trailer g off :
  wf g -> load (pages g) (pageptr g) = Some off -> 0 <= off ->
  no_nul (from off (content (infile g))) = true ->
  len (from off (content (infile g))) <= room (outfile g) ->
  writetrailer g
  = Ok tt (after g (off + len (from off (content (infile g))))
                 (from off (content (infile g)))).
Proof.
  intros Hwf El Ho Hn Hr. unfold writetrailer. rewrite El. f_equal.
  set (g1 := set_infile (fseeko off (infile g)) g).
  assert (E1 : infile g1 = {| content := content (infile g); fpos := off |}).
  { unfold g1, fseeko. destruct (Z.ltb_spec off 0); [lia|]. destruct g; reflexivity. }
  assert (Ero : outfile g1 = outfile g) by (unfold g1; destruct g; reflexivity).
  assert (Er : rest (infile g1) = from off (content (infile g))).
  { unfold rest. rewrite E1. reflexivity. }
  rewrite trailer_loop_copies.
  - rewrite Er, E1. cbn [fpos]. unfold g1. apply after_set_infile.
    unfold fseeko. destruct (off <? 0); reflexivity.
  - destruct Hwf. split; [rewrite E1; cbn [fpos]; lia|rewrite Ero; assumption].
  - lia.
  - rewrite Er. exact Hn.
  - rewrite Er, Ero. exact Hr.
Qed.

Lemma writetrailer_copies_trailer_witness :
  writetrailer (Scenario.scanned Scenario.doc4)
  = Ok tt (after (Scenario.scanned Scenario.doc4)
                 (250 + len (from 250 Scenario.doc4)) (from 250 Scenario.doc4)).
Proof.
  apply (writetrailer_copies_trailer (Scenario.scanned Scenario.doc4) 250).
  - split; vm_compute; discriminate.
  - vm_compute. reflexivity.
  - lia.
  - vm_compute. reflexivity.
  - vm_compute. discriminate.
Defined.

(** *** The page setup *)

Lemma pagesetup_loop_lines fuel : forall g g',
  wf g -> pagesetup_loop fuel g = Ok tt g' ->
  exists n,
    Forall (fun line => starts_with (str "PStoPSxform") line = false)
           (lines_at n (content (infile g)) (fpos (infile g)))
    /\ starts_with (str "PStoPSxform")
         (line_at (content (infile g))
            (fpos (infile g)
             + len (List.concat (lines_at n (content (infile g)) (fpos (infile g))))))
       = true
    /\ infile g'
       = {| content := content (infile g);
            fpos := fpos (infile g)
                    + len (List.concat (lines_at n (content (infile g)) (fpos (infile g))))
                    + len (line_at (content (infile g))
                             (fpos (infile g)
                              + len (List.concat (lines_at n (content (infile g))
                                               (fpos (infile g)))))) |}
    /\ written (outfile g')
       = written (outfile g)
         ++ List.concat (map cstring (lines_at n (content (infile g)) (fpos (infile g))))
    /\ bytes g'
       = bytes g
         + len (List.concat (map cstring (lines_at n (content (infile g))
                                       (fpos (infile g))))).
Proof.
  induction fuel as [|fuel IH]; intros g g' Hwf; cbn [pagesetup_loop];
    [discriminate|].
  pose proof Hwf as [Hp Hroom].
  destruct (Z_lt_le_dec (fpos (infile g)) (len (content (infile g)))) as [Hl|Hl].
  2:{ rewrite fgets_none by assumption. discriminate. }
  rewrite fgets_some by assumption.
  set (c := content (infile g)) in *. set (p := fpos (infile g)) in *.
  set (line := line_at c p) in *.
  destruct (line_at_bounds c p Hp Hl) as [L1 L2]. fold line in L1, L2.
  destruct (starts_with (str "PStoPSxform") line) eqn:Ex.
  - intros E. injection E as <-. exists 0%nat. cbn [lines_at List.concat map len List.length Z.of_nat].
    rewrite !Z.add_0_r. fold line. rewrite Ex, app_nil_r.
    repeat split; try constructor; destruct g; reflexivity.
  - unfold fputs, fwrite.
    set (g0 := set_infile {| content := c; fpos := p + len line |} g).
    assert (Eo : outfile g0 = outfile g) by (destruct g; reflexivity).
    rewrite Eo. rewrite len_firstn by exact Hroom.
    destruct (Z.ltb_spec (Z.min (room (outfile g)) (len (cstring line)))
                (len (cstring line))) as [Hshort|Hfit]; [discriminate|].
    assert (Hfit' : len (cstring line) <= room (outfile g)) by lia.
    rewrite firstn_all2 by (unfold len in Hfit'; lia).
    rewrite Z.min_r by lia.
    set (g1 := set_bytes _ _).
    assert (F1 : content (infile g1) = c /\ fpos (infile g1) = p + len line
                 /\ written (outfile g1) = written (outfile g) ++ cstring line
                 /\ room (outfile g1) = room (outfile g) - len (cstring line)
                 /\ bytes g1 = bytes g + len (cstring line)).
    { unfold g1, g0. destruct g; repeat split. }
    destruct F1 as (F1 & F2 & F3 & F4 & F5).
    intros E. apply IH in E; [|split; lia].
    destruct E as (n & E1 & E2 & E3 & E4 & E5).
    rewrite F1, F2 in E1, E2, E3, E4, E5.
    exists (S n). cbn [lines_at List.concat map]. fold line.
    rewrite !len_app. rewrite !Z.add_assoc.
    split; [constructor; assumption|].
    split; [exact E2|]. split; [exact E3|].
    split; [rewrite E4, F3, <- app_assoc; reflexivity|].
    rewrite E5, F5. lia.
Qed.

(** X12. With a PStoPS procset in the input, [writepagesetup] copies the
    lines at the cursor up to the first one that opens with [PStoPSxform]
    and leaves the cursor behind that line, which is not copied; every
    copied line goes out up to its first NUL and is counted so.  (It stops
    the run when the input ends first, or a line cannot be written.) *)
Theorem writepagesetup_stops_at_xform g g' :
  wf g -> beginprocset g <> 0 -> writepagesetup g = Ok tt g' ->
  exists n,
    let c := content (infile g) in
    let here := fpos (infile g) in
    let ls := lines_at n c here in
    let stop := here + len (List.concat ls) in
    Forall (fun line => starts_with (str "PStoPSxform") line = false) ls
    /\ starts_with (str "PStoPSxform") (line_at c stop) = true
    /\ infile g' = {| content := c; fpos := stop + len (line_at c stop) |}
    /\ written (outfile g') = written (outfile g) ++ List.concat (map cstring ls)
    /\ bytes g' = bytes g + len (List.concat (map cstring ls)).
Proof.
  intros Hwf Hb. unfold writepagesetup.
  destruct (Z.eqb_spec (beginprocset g) 0); [contradiction|].
  intros H. apply pagesetup_loop_lines in H; [|exact Hwf].
  destruct H as (k & H). exists k. exact H.
Qed.

Lemma writepagesetup_stops_at_xform_witness :
  exists n,
    let c := Scenario.doc_chained in
    let here := fpos (infile (at_page Scenario.doc_chained 0)) in
    let ls := lines_at n c here in
    let stop := here + len (List.concat ls) in
    Forall (fun line => starts_with (str "PStoPSxform") line = false) ls
    /\ starts_with (str "PStoPSxform") (line_at c stop) = true
    /\ infile (Scenario.state_of (writepagesetup (at_page Scenario.doc_chained 0))
                 (at_page Scenario.doc_chained 0))
       = {| content := c; fpos := stop + len (line_at c stop) |}
    /\ written (outfile (Scenario.state_of
                           (writepagesetup (at_page Scenario.doc_chained 0))
                           (at_page Scenario.doc_chained 0)))
       = written (outfile (at_page Scenario.doc_chained 0))
         ++ List.concat (map cstring ls)
    /\ bytes (Scenario.state_of (writepagesetup (at_page Scenario.doc_chained 0))
                (at_page Scenario.doc_chained 0))
       = bytes (at_page Scenario.doc_chained 0)
         + len (List.concat (map cstring ls)).
Proof.
  apply (writepagesetup_stops_at_xform (at_page Scenario.doc_chained 0)).
  - split; vm_compute; discriminate.
  - vm_compute. discriminate.
  - vm_compute. reflexivity.
Defined.

(** *** The header with a [%%Pages:] comment *)

Lemma copy_chunks_cursor fuel : forall bl g r g',
  copy_chunks fuel bl g = (r, g') -> r <> 0 -> (Z.to_nat bl <= fuel)%nat ->
  fpos (infile g') = fpos (infile g) + Z.max 0 bl.
Proof.
  induction fuel as [|fuel IH]; intros bl g r g'; cbn [copy_chunks];
    destruct (Z.leb_spec bl 0) as [Hle|Hgt].
  - intros E _ _. injection E as _ <-. lia.
  - intros _ _ Hf. lia.
  - intros E _ _. injection E as _ <-. lia.
  - unfold fread, fwrite.
    set (n := if BUFSIZ <? bl then BUFSIZ else bl).
    assert (Hn : 0 < n <= bl).
    { unfold n, BUFSIZ. destruct (Z.ltb_spec 8192 bl); lia. }
    set (buf := firstn (Z.to_nat n) (rest (infile g))).
    assert (Hb : len buf <= n).
    { unfold buf. rewrite len_firstn by lia. lia. }
    set (g1 := set_infile _ g).
    destruct (Z.ltb_spec (len buf) n) as [Hs|Hfull].
    { intros E Hr. injection E as <- _. contradiction. }
    set (g2 := set_outfile _ g1).
    match goal with |- context [if ?a <? n then _ else _] =>
      destruct (Z.ltb_spec a n) as [Hs|Hfull2] end.
    { intros E Hr. injection E as <- _. contradiction. }
    intros E Hr Hf. apply IH in E; [|exact Hr|lia].
    rewrite E. unfold g2, g1. destruct g; fields. lia.
Qed.

Lemma fcopy_cursor upto ign g r g' :
  fcopy upto ign g = (r, g') -> r <> 0 -> upto <= fpos (infile g').
Proof.
  assert (P : forall g0, fcopy_plain upto g0 = (r, g') -> r <> 0 ->
                upto <= fpos (infile g')).
  { intros g0 E Hr. unfold fcopy_plain in E.
    apply copy_chunks_cursor in E; [|exact Hr|lia]. unfold ftello in E. lia. }
  destruct ign as [ign|]; cbn [fcopy]; [|apply P].
  destruct (ignore_loop _ _ _ _) as [r1 g1].
  destruct (Z.eqb_spec r1 0).
  - intros E Hr. injection E as <- _. contradiction.
  - apply P.
Qed.

Lemma writestring_full s g : 0 < room (outfile (writestring s g)) ->
  0 < room (outfile g)
  /\ writestring s g = after g (fpos (infile g)) (cstring s).
Proof.
  intros H.
  assert (Hr : 0 < room (outfile g)).
  { revert H. unfold writestring, fputs, fwrite. destruct g as [i [w r]]. fields.
    destruct (Z.leb_spec 0 r);
      [intros H0; rewrite len_firstn in H0 by lia;
       pose proof (len_nonneg (cstring s)); lia|].
    replace (Z.to_nat r) with 0%nat by lia. cbn [firstn len List.length Z.of_nat].
    lia. }
  split; [exact Hr|]. apply writestring_after; [lia|].
  pose proof (writestring_room s g ltac:(lia) H). lia.
Qed.

Lemma writestring_wf s g : wf g -> wf (writestring s g).
Proof.
  intros [H1 H2]. unfold wf, writestring, fputs, fwrite.
  destruct g as [[c p] [w r]]. fields. rewrite len_firstn by assumption. lia.
Qed.

Lemma fpos_after g p w : fpos (infile (after g p w)) = p.
Proof. destruct (after_fields g p w) as (-> & _). reflexivity. Qed.

Lemma content_after g p w : content (infile (after g p w)) = content (infile g).
Proof. destruct (after_fields g p w) as (-> & _). reflexivity. Qed.

Lemma written_after g p w :
  written (outfile (after g p w)) = written (outfile g) ++ w.
Proof. destruct (after_fields g p w) as (_ & -> & _). reflexivity. Qed.

Lemma bytes_after g p w : bytes (after g p w) = bytes g + len w.
Proof. destruct (after_fields g p w) as (_ & _ & ->). reflexivity. Qed.

Lemma no_nul_media w h : no_nul (media_lines w h) = true.
Proof. unfold media_lines. rewrite !no_nul_app, !no_nul_fmt_d. reflexivity. Qed.

Lemma no_nul_pages_line p : no_nul (pages_line p) = true.
Proof. unfold pages_line. rewrite !no_nul_app, no_nul_fmt_d. reflexivity. Qed.

Lemma writeheadermedia_rewrites p ign W H g g' :
  wf g -> ascending (entries ign) -> 0 < pagescmt g ->
  writeheadermedia p ign W H g = Ok tt g' -> 0 < room (outfile g') ->
  let c := content (infile g) in
  exists q media,
    pagescmt g <= q /\ (ign = None -> q = pagescmt g)
    /\ media = (if PrimFloat.ltb (-1)%float W && PrimFloat.ltb (-1)%float H
                then match int_of_double W, int_of_double H with
                     | Some w, Some h => media_lines w h
                     | _, _ => []
                     end
                else [])
    /\ written (outfile g')
       = written (outfile g)
         ++ copy_range c (entries ign) 0 (pagescmt g)
         ++ media ++ pages_line p
         ++ copy_range c (entries ign) (q + len (line_at c q)) (headerpos g)
    /\ bytes g'
       = bytes g
         + len (copy_range c (entries ign) 0 (pagescmt g)
                  ++ media ++ pages_line p
                  ++ copy_range c (entries ign) (q + len (line_at c q))
                       (headerpos g)).
Proof.
  intros Hwf Hasc Hpc Hrun Hroom c.
  pose proof Hwf as [Hp0 Hr0].
  unfold writeheadermedia in Hrun.
  set (g0 := set_infile (fseeko 0 (infile g)) g) in *.
  assert (E0 : infile g0 = {| content := c; fpos := 0 |}
               /\ outfile g0 = outfile g /\ pagescmt g0 = pagescmt g
               /\ headerpos g0 = headerpos g /\ bytes g0 = bytes g).
  { unfold g0, fseeko. cbn [Z.ltb Z.compare]. destruct g; repeat split. }
  destruct E0 as (Ei0 & Eo0 & Ec0 & Eh0 & Eb0).
  assert (Hwf0 : wf g0) by (split; [rewrite Ei0; cbn; lia|rewrite Eo0; assumption]).
  assert (A0 : forall q w, after g0 q w = after g q w).
  { intros. unfold g0. apply after_set_infile. unfold fseeko.
    destruct (0 <? 0); reflexivity. }
  bind_inv Hrun x g4 H4.
  rewrite Ec0 in H4. destruct (Z.eqb_spec (pagescmt g) 0) as [|_]; [lia|].
  revert H4.
  destruct (fcopy (pagescmt g) ign g0) as [r1 g1] eqn:E1.
  destruct (Z.eqb_spec r1 0) as [|Hr1]; [discriminate|]. intros H4.
  pose proof (fcopy_cursor _ _ _ _ _ E1 Hr1) as Hcur.
  destruct (fcopy_ok _ _ _ _ _ Hwf0 Hasc E1 Hr1) as (_ & (_ & Hcan) & q & Eg1).
  rewrite Ei0 in Eg1, Hcan. cbn [content fpos] in Eg1, Hcan. rewrite Eo0 in Hcan.
  set (w1 := copy_range c (entries ign) 0 (pagescmt g)) in *.
  rewrite A0 in Eg1. subst g1. rewrite fpos_after in Hcur.
  assert (Hq : ign = None -> q = pagescmt g).
  { intros ->. cbn [fcopy] in E1.
    destruct (fcopy_plain_ok _ _ _ _ Hwf0 E1 Hr1) as [E _].
    apply (f_equal (fun s => fpos (infile s))) in E.
    rewrite A0, !fpos_after, Ei0 in E. cbn [fpos] in E. lia. }
  assert (Ei1 : infile (after g q w1) = {| content := c; fpos := q |}).
  { destruct (after_fields g q w1) as (-> & _). reflexivity. }
  rewrite Ei1 in H4.
  destruct (Z_lt_le_dec q (len c)) as [Hin|Hout].
  2:{ rewrite fgets_none in H4 by (cbn [fpos content]; lia). discriminate. }
  rewrite fgets_some in H4 by (cbn [fpos content]; lia).
  cbn [content fpos] in H4.
  set (L := len (line_at c q)) in *.
  change ({| content := c; fpos := q + L |})
    with ({| content := content (infile g); fpos := q + L |}) in H4.
  rewrite set_infile_after in H4.
  bind_inv H4 y g3 H3.
  assert (E4' : g4 = writestring (pages_line p) g3)
    by (unfold pages_line; congruence).
  subst g4. clear H4.
  set (media := if PrimFloat.ltb (-1)%float W && PrimFloat.ltb (-1)%float H
                then match int_of_double W, int_of_double H with
                     | Some w, Some h => media_lines w h
                     | _, _ => []
                     end
                else []).
  assert (Hwf2 : wf (after g (q + L) w1)).
  { pose proof (len_nonneg (line_at c q)). apply wf_after; [exact Hwf|lia|exact Hcan]. }
  revert Hrun.
  destruct (fcopy (headerpos (writestring (pages_line p) g3)) ign
              (writestring (pages_line p) g3)) as [r5 g5] eqn:E5.
  destruct (Z.eqb_spec r5 0) as [|Hr5]; [discriminate|].
  intros Hrun. injection Hrun as <-.
  assert (Hwf3 : wf g3).
  { revert H3. destruct (_ && _).
    - destruct (int_of_double W), (int_of_double H); try discriminate.
      intros E. injection E as _ <-. now do 2 apply writestring_wf.
    - intros E. injection E as _ <-. exact Hwf2. }
  pose proof (writestring_wf (pages_line p) g3 Hwf3) as Hwf4.
  destruct (fcopy_ok _ _ _ _ _ Hwf4 Hasc E5 Hr5) as (_ & _ & q5 & Eg5).
  assert (R4 : 0 < room (outfile (writestring (pages_line p) g3))).
  { rewrite Eg5, room_after in Hroom.
    pose proof (len_nonneg (copy_range
      (content (infile (writestring (pages_line p) g3))) (entries ign)
      (fpos (infile (writestring (pages_line p) g3)))
      (headerpos (writestring (pages_line p) g3)))). lia. }
  destruct (writestring_full _ _ R4) as [R3 E4].
  rewrite (cstring_no_nul _ (no_nul_pages_line p)) in E4.
  assert (E3 : g3 = after g (q + L) (w1 ++ media)).
  { revert H3 R3. unfold media. destruct (_ && _).
    - destruct (int_of_double W) as [w|], (int_of_double H) as [h|];
        try discriminate.
      intros E R.
      match type of E with Ok tt ?t = _ => assert (E' : g3 = t) by congruence end.
      clear E. subst g3.
      destruct (writestring_full _ _ R) as [Ra Ea].
      destruct (writestring_full _ _ Ra) as [_ Eb].
      rewrite Ea, Eb, !fpos_after, !after_after.
      f_equal. f_equal. unfold media_lines.
      rewrite !cstring_no_nul; [reflexivity|..];
        rewrite !no_nul_app, !no_nul_fmt_d; reflexivity.
    - intros E _. injection E as _ <-. now rewrite app_nil_r. }
  rewrite E3 in E4. rewrite fpos_after, after_after in E4.
  rewrite E3 in Eg5. rewrite E4 in Eg5.
  rewrite content_after, fpos_after, after_after in Eg5.
  destruct (after_index g (q + L) ((w1 ++ media) ++ pages_line p))
    as (_ & Ehp & _).
  rewrite Ehp in Eg5. fold c in Eg5.
  exists q, media. split; [exact Hcur|]. split; [exact Hq|].
  split; [reflexivity|].
  rewrite Eg5, written_after, bytes_after, <- !app_assoc. split; reflexivity.
Qed.

(** X13. With a [%%Pages:] comment in the input, the header goes out with
    that line replaced: the header up to the comment (size comments of the
    ignore list dropped), then, when both [width] and [height] are above
    -1, the two media comments for their integer parts, then
    [%%Pages: p 0], then the rest of the header from behind the replaced
    line on.  The replaced line is the one at [pagescmt] itself whenever no
    dropped line reaches over it, and always with a NULL ignore list.
    [writeheader] is the case without media comments. *)
Theorem header_pages_rewritten p ign W H g g' :
  wf g -> ascending (entries ign) -> 0 < pagescmt g ->
  writeheadermedia p ign W H g = Ok tt g' -> 0 < room (outfile g') ->
  let c := content (infile g) in
  exists q media,
    pagescmt g <= q /\ (ign = None -> q = pagescmt g)
    /\ media = (if PrimFloat.ltb (-1)%float W && PrimFloat.ltb (-1)%float H
                then match int_of_double W, int_of_double H with
                     | Some w, Some h => media_lines w h
                     | _, _ => []
                     end
                else [])
    /\ written (outfile g')
       = written (outfile g)
         ++ copy_range c (entries ign) 0 (pagescmt g)
         ++ media ++ pages_line p
         ++ copy_range c (entries ign) (q + len (line_at c q)) (headerpos g)
    /\ bytes g'
       = bytes g
         + len (copy_range c (entries ign) 0 (pagescmt g)
                  ++ media ++ pages_line p
                  ++ copy_range c (entries ign) (q + len (line_at c q))
                       (headerpos g)).
Proof. exact (writeheadermedia_rewrites p ign W H g g'). Qed.

Lemma header_pages_rewritten_witness :
  let g := Scenario.scanned Scenario.doc4 in
  let g' := Scenario.state_of (writeheadermedia 2 (Some [26]) 595 842 g) g in
  let c := Scenario.doc4 in
  exists q media,
    15 <= q /\ (Some [26] = None -> q = 15)
    /\ media = media_lines 595 842
    /\ written (outfile g')
       = written (outfile g) ++ copy_range c [26] 0 15 ++ media ++ pages_line 2
         ++ copy_range c [26] (q + len (line_at c q)) 81
    /\ bytes g'
       = bytes g
         + len (copy_range c [26] 0 15 ++ media ++ pages_line 2
                  ++ copy_range c [26] (q + len (line_at c q)) 81).
Proof.
  apply (header_pages_rewritten 2 (Some [26]) 595 842
           (Scenario.scanned Scenario.doc4)).
  - split; vm_compute; discriminate.
  - split; repeat constructor.
  - vm_compute. reflexivity.
  - vm_compute. reflexivity.
  - vm_compute. reflexivity.
Defined.

(** *** A whole page *)

Lemma seekpage_state p g g1 off :
  seekpage p g = Ok tt g1 -> load p (pageptr g) = Some off -> 0 <= off ->
  exists lab no,
    g1 = set_pageno no (set_pagelabel lab
           (set_infile {| content := content (infile g);
                          fpos := off + len (line_at (content (infile g)) off) |} g)).
Proof.
  intros H El Ho. unfold seekpage in H. rewrite El in H.
  set (g0 := set_infile (fseeko off (infile g)) g) in *.
  assert (E0 : infile g0 = {| content := content (infile g); fpos := off |}).
  { unfold g0, fseeko. destruct (Z.ltb_spec off 0); [lia|]. destruct g; reflexivity. }
  rewrite E0 in H.
  destruct (Z_lt_le_dec off (len (content (infile g)))) as [Hin|Hout].
  2:{ rewrite fgets_none in H by (cbn [fpos content]; lia). discriminate. }
  rewrite fgets_some in H by (cbn [fpos content]; lia).
  cbn [content fpos] in H.
  assert (Eg : forall f, set_infile f g0 = set_infile f g)
    by (intros; unfold g0; destruct g; reflexivity).
  rewrite Eg in H.
  destruct (iscomment _ _); [|discriminate].
  destruct (Byte.eqb _ _).
  - destruct (paren_label _ _) as [[lab aft]|]; [|discriminate].
    injection H as <-. eauto.
  - destruct (word_label _) as [[lab aft]|]; [|discriminate].
    injection H as <-. eauto.
Qed.

Lemma label_no_nul label body :
  (label = body /\ word_label_ok body = true)
  \/ (label = "("%byte :: body ++ [")"%byte] /\ paren_body_ok body = true) ->
  no_nul label = true.
Proof.
  intros [[-> Hw]|[-> Hb]].
  - unfold word_label_ok in Hw. apply andb_prop in Hw as [_ Hw].
    unfold no_nul. apply forallb_forall. intros x Hx.
    rewrite forallb_forall in Hw.
    specialize (Hw x Hx). apply andb_prop in Hw. tauto.
  - assert (Hbody : no_nul body = true).
    { unfold paren_body_ok in Hb. unfold no_nul. apply forallb_forall.
      intros x Hx. rewrite forallb_forall in Hb.
      specialize (Hb x Hx). apply andb_prop in Hb as [Hb _].
      apply andb_prop in Hb. tauto. }
    change ("("%byte :: body ++ [")"%byte]) with (["("%byte] ++ body ++ [")"%byte]).
    rewrite !no_nul_app, Hbody. reflexivity.
Qed.

Lemma writepage_parts p g g' off next :
  wf g -> load p (pageptr g) = Some off -> 0 <= off ->
  load (p + 1) (pageptr g) = Some next ->
  writepage p g = Ok tt g' -> 0 < room (outfile g') ->
  let c := content (infile g) in
  let body := between c (off + len (line_at c off)) next in
  (exists g1, seekpage p g = Ok tt g1 /\ pagelabel g' = pagelabel g1)
  /\ outputpage g' = outputpage g + 1
  /\ written (outfile g')
     = written (outfile g)
       ++ page_comment (cstring (pagelabel g')) (outputpage g') ++ body
  /\ bytes g'
     = bytes g + len (page_comment (cstring (pagelabel g')) (outputpage g') ++ body)
  /\ fpos (infile g') = Z.max (off + len (line_at c off)) next.
Proof.
  intros Hwf El Ho En Hrun Hroom c body.
  pose proof Hwf as [Hp0 Hr0].
  unfold writepage in Hrun. bind_inv Hrun x g1 H1.
  destruct x. destruct (seekpage_state _ _ _ _ H1 El Ho) as (lab & no & Eg1).
  fold c in Eg1. set (L := len (line_at c off)) in *.
  pose proof (len_nonneg (line_at c off)) as HL. fold L in HL.
  destruct (Z.ltb_spec INT_MAX (p + 1)); [discriminate|].
  bind_inv Hrun y g2 H2.
  unfold writepageheader in H2.
  set (g1' := set_outputpage (outputpage g1 + 1) g1) in *.
  revert H2. case_if; [discriminate|]. intros H2.
  assert (F1 : pagelabel g1' = lab /\ outputpage g1' = outputpage g + 1
               /\ infile g1' = {| content := c; fpos := off + L |}
               /\ outfile g1' = outfile g /\ bytes g1' = bytes g
               /\ pageptr g1' = pageptr g).
  { unfold g1'. rewrite Eg1. destruct g; repeat split. }
  destruct F1 as (Fl & Fo & Fi & Fw & Fb & Fp).
  assert (Flab : pagelabel g1 = lab) by (rewrite Eg1; destruct g; reflexivity).
  rewrite Flab, Fo in H2.
  change (str "%%Page: " ++ cstring lab ++ str " " ++ fmt_d (outputpage g + 1) ++ [nl])
    with (page_comment (cstring lab) (outputpage g + 1)) in H2.
  set (text := page_comment (cstring lab) (outputpage g + 1)) in *.
  assert (E2 : g2 = writestring text g1') by congruence. clear H2.
  unfold writepagebody in Hrun.
  assert (Ep2 : pageptr g2 = pageptr g).
  { rewrite E2. unfold writestring. destruct (fputs _ _). rewrite <- Fp.
    destruct g1'; reflexivity. }
  rewrite Ep2, En in Hrun. revert Hrun.
  destruct (fcopy next None g2) as [r g3] eqn:E3.
  destruct (Z.eqb_spec r 0) as [|Hr]; [discriminate|].
  intros Hrun. assert (g3 = g') by congruence. subst g3. clear Hrun.
  assert (Hwf1 : wf g1').
  { split; [rewrite Fi; cbn [fpos]; lia|rewrite Fw; exact Hr0]. }
  assert (Hwf2 : wf g2) by (rewrite E2; apply writestring_wf; exact Hwf1).
  cbn [fcopy] in E3.
  destruct (fcopy_plain_ok _ _ _ _ Hwf2 E3 Hr) as [Eg' _].
  assert (R2 : 0 < room (outfile g2)).
  { rewrite Eg', room_after in Hroom.
    pose proof (len_nonneg (between (content (infile g2)) (fpos (infile g2)) next)).
    lia. }
  rewrite E2 in R2. destruct (writestring_full _ _ R2) as [_ Ew].
  assert (Hnn : no_nul text = true).
  { unfold text, page_comment.
    rewrite !no_nul_app, no_nul_cstring, no_nul_fmt_d. reflexivity. }
  rewrite (cstring_no_nul _ Hnn), Fi in Ew. cbn [fpos] in Ew.
  rewrite <- E2 in Ew. rewrite Ew in Eg'.
  rewrite content_after, fpos_after, after_after, Fi in Eg'. cbn [content] in Eg'.
  fold body in Eg'.
  assert (Elab : pagelabel g' = lab /\ outputpage g' = outputpage g + 1).
  { rewrite Eg'. unfold after. rewrite <- Fl, <- Fo. destruct g1'; split; reflexivity. }
  destruct Elab as [Elab ->].
  split; [exists g1; split; [exact H1|congruence]|].
  rewrite Elab.
  rewrite Eg', written_after, bytes_after, fpos_after, Fw, Fb.
  repeat split; reflexivity.
Qed.

(** X14. [writepage(p)] writes page [p] with a fresh comment.  Where the
    page table points at the line [%%Page: label n] (the label one word, or
    a text without parentheses between one pair of them), the comment
    written carries that same [label], read from the page's own line, and
    as its number the running count of output pages (neither [n] nor
    [p+1], which only goes to the log); the body, the input from behind
    that line up to the next page's offset, follows unchanged. *)
Theorem writepage_renumbers p g g' off next label lbody n :
  wf g -> load p (pageptr g) = Some off -> 0 <= off ->
  line_at (content (infile g)) off = page_comment label n ->
  0 <= n <= INT_MAX ->
  (label = lbody /\ word_label_ok lbody = true)
  \/ (label = "("%byte :: lbody ++ [")"%byte] /\ paren_body_ok lbody = true) ->
  load (p + 1) (pageptr g) = Some next ->
  writepage p g = Ok tt g' -> 0 < room (outfile g') ->
  let c := content (infile g) in
  let body := between c (off + len (page_comment label n)) next in
  pagelabel g' = label
  /\ outputpage g' = outputpage g + 1
  /\ written (outfile g')
     = written (outfile g) ++ page_comment label (outputpage g + 1) ++ body
  /\ bytes g'
     = bytes g + len (page_comment label (outputpage g + 1) ++ body)
  /\ fpos (infile g') = Z.max (off + len (page_comment label n)) next.
Proof.
  intros Hwf El Ho Hline Hn Hlab En Hrun Hroom. cbv zeta.
  pose proof (writepage_parts p g g' off next Hwf El Ho En Hrun Hroom) as H.
  cbv zeta in H. destruct H as ((g1 & Es & Ep) & Eo & Ew & Eb & Ef).
  destruct (seekpage_page_comment p off label lbody n g El Ho Hline Hn Hlab)
    as (g1' & Es' & Epl & _).
  assert (g1' = g1) by congruence. subst g1'.
  assert (Epl' : pagelabel g' = label) by congruence.
  rewrite Hline in Ew, Eb, Ef.
  rewrite Epl', Eo, (cstring_no_nul _ (label_no_nul _ _ Hlab)) in Ew, Eb.
  repeat split; assumption.
Qed.

Lemma writepage_renumbers_witness :
  let g := Scenario.scanned Scenario.doc4 in
  let g' := Scenario.state_of (writepage 1 g) g in
  let c := content (infile g) in
  let body := between c (157 + len (page_comment (str "2") 2)) 188 in
  pagelabel g' = str "2"
  /\ outputpage g' = outputpage g + 1
  /\ written (outfile g')
     = written (outfile g) ++ page_comment (str "2") (outputpage g + 1) ++ body
  /\ bytes g'
     = bytes g + len (page_comment (str "2") (outputpage g + 1) ++ body)
  /\ fpos (infile g') = Z.max (157 + len (page_comment (str "2") 2)) 188.
Proof.
  apply (writepage_renumbers 1 (Scenario.scanned Scenario.doc4)
           (Scenario.state_of (writepage 1 (Scenario.scanned Scenario.doc4))
              (Scenario.scanned Scenario.doc4)) 157 188 (str "2") (str "2") 2).
  - split; vm_compute; discriminate.
  - vm_compute. reflexivity.
  - lia.
  - vm_compute. reflexivity.
  - unfold INT_MAX. lia.
  - left. split; vm_compute; reflexivity.
  - vm_compute. reflexivity.
  - vm_compute. reflexivity.
  - vm_compute. reflexivity.
Defined.

(** *** [writeheader] *)

Lemma writeheadermedia_plain p ignorelist (w h : float) g g' :
  wf g -> ascending (entries ignorelist) -> pagescmt g = 0 ->
  writeheadermedia p ignorelist w h g = Ok tt g' ->
  written (outfile g')
  = written (outfile g)
    ++ copy_range (content (infile g)) (entries ignorelist) 0 (headerpos g)
  /\ bytes g'
     = bytes g
       + len (copy_range (content (infile g)) (entries ignorelist) 0 (headerpos g)).
Proof.
  intros Hwf Hasc Hp. unfold writeheadermedia.
  set (g0 := set_infile (fseeko 0 (infile g)) g).
  assert (E0 : pagescmt g0 = 0 /\ headerpos g0 = headerpos g
               /\ infile g0 = {| content := content (infile g); fpos := 0 |}
               /\ outfile g0 = outfile g /\ bytes g0 = bytes g).
  { unfold g0, fseeko. destruct g as [[c p0] o]. cbn. cbn in Hp. auto. }
  destruct E0 as (E1 & E2 & E3 & E4 & E5). rewrite E1. cbn [Z.eqb bind]. rewrite E2.
  destruct (fcopy (headerpos g) ignorelist g0) as [r g1] eqn:E.
  destruct (Z.eqb_spec r 0) as [|Hr]; [discriminate|]. intros H. injection H as <-.
  assert (Hwf0 : wf g0) by (unfold wf; rewrite E3, E4; cbn [fpos]; split; [lia|apply Hwf]).
  destruct (fcopy_ok _ _ _ _ _ Hwf0 Hasc E Hr) as (_ & _ & p' & ->).
  rewrite written_after, bytes_after, E3, E4, E5. split; reflexivity.
Qed.

(** X15. [writeheader(p, ignore)] writes the header without any size
    comment of its own: with no [%%Pages:] comment in the input the header
    goes out as it is (the ignored lines dropped), with one the only change
    is that line, replaced by [%%Pages: p 0]. *)
Theorem writeheader_replaces_count p ign g g' :
  wf g -> ascending (entries ign) -> 0 <= pagescmt g ->
  writeheader p ign g = Ok tt g' -> 0 < room (outfile g') ->
  let c := content (infile g) in
  exists q,
    (pagescmt g <> 0 -> pagescmt g <= q /\ (ign = None -> q = pagescmt g))
    /\ written (outfile g')
       = written (outfile g)
         ++ (if pagescmt g =? 0
             then copy_range c (entries ign) 0 (headerpos g)
             else copy_range c (entries ign) 0 (pagescmt g) ++ pages_line p
                  ++ copy_range c (entries ign) (q + len (line_at c q))
                       (headerpos g)).
Proof.
  intros Hwf Hasc Hp Hrun Hroom c. unfold writeheader in Hrun.
  destruct (Z.eqb_spec (pagescmt g) 0) as [E0|E0].
  - exists 0. split; [contradiction|].
    apply (writeheadermedia_plain _ _ _ _ _ _ Hwf Hasc E0 Hrun).
  - destruct (writeheadermedia_rewrites _ _ _ _ _ _ Hwf Hasc ltac:(lia) Hrun Hroom)
      as (q & media & Hq & Hn & Em & Ew & _).
    exists q. split; [intros _; split; assumption|].
    rewrite Ew, Em. reflexivity.
Qed.

Lemma writeheader_replaces_count_witness :
  let g := Scenario.scanned Scenario.doc4 in
  let g' := Scenario.state_of (writeheader 7 None g) g in
  let c := content (infile g) in
  exists q,
    (pagescmt g <> 0 -> pagescmt g <= q /\ (@None (list Z) = None -> q = pagescmt g))
    /\ written (outfile g')
       = written (outfile g)
         ++ (if pagescmt g =? 0
             then copy_range c (entries None) 0 (headerpos g)
             else copy_range c (entries None) 0 (pagescmt g) ++ pages_line 7
                  ++ copy_range c (entries None) (q + len (line_at c q))
                       (headerpos g)).
Proof.
  apply (writeheader_replaces_count 7 None (Scenario.scanned Scenario.doc4)).
  - split; vm_compute; discriminate.
  - split; constructor.
  - vm_compute. discriminate.
  - vm_compute. reflexivity.
  - vm_compute. reflexivity.
Defined.

(** *** The sheet count and the labels *)

(** X17. The number of page slots [pstops] fills is the page count rounded
    up to a whole number of sheets: for [pages >= 0] and [modulo >= 1]
    with [pages + modulo <= INT_MAX] it is the multiple [m] of [modulo] with
    [pages <= m < pages + modulo]; when [pages + modulo] is above [INT_MAX]
    the first sum of the expression already leaves [int]. *)
Theorem maxpage_rounds_up pages modulo : 0 <= pages -> 1 <= modulo ->
  if pages + modulo <=? INT_MAX
  then exists m, maxpage_of pages modulo = Some m
         /\ pages <= m < pages + modulo /\ Z.rem m modulo = 0
         /\ m = (pages + modulo - 1) / modulo * modulo
  else maxpage_of pages modulo = None.
Proof.
  intros Hp Hm. unfold maxpage_of, opt_bind, int_div, in_int.
  unfold INT_MIN, INT_MAX.
  destruct (Z.leb_spec (pages + modulo) 2147483647) as [Hle|Hgt].
  - destruct (Z.leb_spec (-2147483648) (pages + modulo)); [|lia]. cbn [andb].
    destruct (Z.leb_spec (-2147483648) (pages + modulo - 1)); [|lia].
    destruct (Z.leb_spec (pages + modulo - 1) 2147483647); [|lia]. cbn [andb].
    destruct (Z.eqb_spec modulo 0); [lia|].
    rewrite Z.quot_div_nonneg by lia.
    set (q := (pages + modulo - 1) / modulo).
    assert (Hq : q * modulo <= pages + modulo - 1 < q * modulo + modulo).
    { unfold q. pose proof (Z.div_mod (pages + modulo - 1) modulo ltac:(lia)).
      pose proof (Z.mod_pos_bound (pages + modulo - 1) modulo ltac:(lia)). lia. }
    assert (Hq0 : 0 <= q) by (apply Z.div_pos; lia).
    destruct (Z.leb_spec (-2147483648) q); [|lia].
    destruct (Z.leb_spec q 2147483647); [|nia]. cbn [andb].
    destruct (Z.leb_spec (-2147483648) (q * modulo)); [|nia].
    destruct (Z.leb_spec (q * modulo) 2147483647); [|lia]. cbn [andb].
    exists (q * modulo). repeat split; try lia.
    rewrite Z.rem_mod_nonneg by nia. apply Z.mod_mul. lia.
  - destruct (Z.leb_spec (-2147483648) (pages + modulo)); reflexivity.
Qed.

Lemma maxpage_rounds_up_witness :
  exists m, maxpage_of 5 4 = Some m /\ 5 <= m < 5 + 4 /\ Z.rem m 4 = 0
            /\ m = (5 + 4 - 1) / 4 * 4.
Proof. apply (maxpage_rounds_up 5 4); lia. Defined.

Section Labels.
Variable h : psspec_h.
Variable cfg : config.
Variables ppwid pphgt : float.
Variable l : layout.
Variables column leftright topbottom : bool.
Hypothesis Hd : distinct_flags h.
Hypothesis Hn : nup cfg <= INT_MAX.

Lemma nth_spec_label maxpage thispg modulo page : 0 <= page ->
  page < nup cfg ->
  let ps := nth_spec h cfg ppwid pphgt l column leftright topbottom page in
  actual_page h maxpage thispg modulo ps = thispg + page
  /\ has (sp_flags ps) (ADD_NEXT h) = (page + 1 <? nup cfg).
Proof.
  intros Hp Hlt ps.
  destruct (nth_spec_fields h cfg ppwid pphgt l column leftright topbottom page)
    as (Ef & Epn & _).
  fold ps in Ef, Epn.
  destruct (built_flags_tests h (rotate l) (negb (page + 1 <? nup cfg)) Hd)
    as (_ & _ & Ha & _ & _ & _ & Hr).
  unfold actual_page. rewrite Ef, Hr, Ha, Epn, negb_involutive.
  split; [|reflexivity]. rewrite to_int_small; [reflexivity|].
  unfold INT_MIN, INT_MAX in *. lia.
Qed.

Lemma build_from_label maxpage thispg modulo fuel : forall page sep,
  0 <= page -> page < nup cfg -> (Z.to_nat (nup cfg - page) <= fuel)%nat ->
  label_chain h sep maxpage thispg modulo
    (build_from h cfg ppwid pphgt l column leftright topbottom fuel page newspec)
  = label_numbers sep (thispg + page) (Z.to_nat (nup cfg - page)).
Proof.
  induction fuel as [|fuel IH]; intros page sep Hp Hlt Hf; [lia|].
  cbn [build_from]. destruct (Z.ltb_spec page (nup cfg)); [|lia].
  destruct (nth_spec_label maxpage thispg modulo page Hp Hlt) as [Ea Eh].
  unfold nth_spec in Ea, Eh.
  replace (Z.to_nat (nup cfg - page)) with (S (Z.to_nat (nup cfg - (page + 1)))) by lia.
  cbn [label_numbers].
  destruct (Z.ltb_spec (page + 1) (nup cfg)) as [Hmore|Hlast].
  - cbn [label_chain]. rewrite Ea, Eh. f_equal. f_equal.
    rewrite IH by lia. f_equal. lia.
  - cbn [label_chain]. rewrite Ea, Eh.
    replace (Z.to_nat (nup cfg - (page + 1))) with 0%nat by lia. reflexivity.
Qed.

End Labels.

(** X18. The label [pstops] composes for a sheet of the N-up specs names
    the [nup] page slots of the sheet in order: for the sheet that starts at
    [thispg] it is [(thispg,thispg+1,..,thispg+nup-1)] (the text before the
    closing parenthesis is what the chain of ADD_NEXT specs contributes). *)
Theorem builder_sheet_label h cfg ppwid pphgt l column leftright topbottom
    maxpage thispg modulo :
  distinct_flags h -> 1 <= nup cfg <= INT_MAX ->
  label_chain h "("%byte maxpage thispg modulo
    (build_specs h cfg ppwid pphgt l column leftright topbottom)
  = label_numbers "("%byte thispg (Z.to_nat (nup cfg)).
Proof.
  intros Hd Hn. unfold build_specs.
  rewrite (build_from_label h cfg ppwid pphgt l column leftright topbottom Hd)
    by lia.
  f_equal; [lia|f_equal; lia].
Qed.

Lemma builder_sheet_label_witness :
  label_chain flag_bits "("%byte 8 4 4 (Scenario.a4_specs 4) = str "(4,5,6,7".
Proof.
  exact (builder_sheet_label flag_bits (default_config 4) 595 842
           (Scenario.a4_layout 4)
           (fst (fst (traversal (default_config 4) (Scenario.a4_layout 4))))
           (snd (fst (traversal (default_config 4) (Scenario.a4_layout 4))))
           (snd (traversal (default_config 4) (Scenario.a4_layout 4)))
           8 4 4 flag_bits_distinct ltac:(cbn; unfold INT_MAX; lia)).
Defined.

(* ================================================================== *)
(** ** The page count and the page comments of the emitter *)

Lemma ceil_bounds pages modulo : 1 <= modulo ->
  let n := (pages + modulo - 1) / modulo in
  (n - 1) * modulo < pages <= n * modulo.
Proof.
  intros Hm n. pose proof (Z.div_mod (pages + modulo - 1) modulo ltac:(lia)) as E.
  pose proof (Z.mod_pos_bound (pages + modulo - 1) modulo ltac:(lia)) as B.
  fold n in E. nia.
Qed.

Lemma seekpage_quiet p g a g' : seekpage p g = Ok a g' ->
  outfile g' = outfile g /\ outputpage g' = outputpage g.
Proof.
  unfold seekpage. destruct (load p (pageptr g)); [|intros; discriminate].
  destruct (fgets _) as [[buffer|] fin]; [|intros; discriminate].
  destruct (iscomment buffer _); [|intros; discriminate].
  destruct (Byte.eqb _ _).
  - destruct (paren_label _ _) as [[lab aft]|]; [|intros; discriminate].
    intros E; injection E as _ <-. destruct g; split; reflexivity.
  - destruct (word_label _) as [[lab aft]|]; [|intros; discriminate].
    intros E; injection E as _ <-. destruct g; split; reflexivity.
Qed.

Lemma no_nul_label_chain h maxpage thispg modulo : forall nps sep,
  Byte.eqb sep NUL = false ->
  no_nul (label_chain h sep maxpage thispg modulo nps) = true.
Proof.
  induction nps as [|np rest IH]; intros sep Hs; [reflexivity|].
  cbn [label_chain].
  change (sep :: ?x) with ([sep] ++ x).
  rewrite !no_nul_app, no_nul_fmt_d.
  assert (E : no_nul [sep] = true).
  { unfold no_nul. cbn [forallb]. rewrite Hs. reflexivity. }
  rewrite E. cbn [andb].
  destruct (has _ _); [apply IH; reflexivity|reflexivity].
Qed.

Lemma emit_spec_header h maxpage thispg modulo draw ps rest pi g r g' :
  emit_spec h maxpage thispg modulo draw ps rest false pi g = Ok r g' ->
  0 < room (outfile g') ->
  exists t,
    written (outfile g')
    = written (outfile g)
      ++ page_comment (label_chain h "("%byte maxpage thispg modulo (ps :: rest)
                         ++ str ")") (outputpage g + 1)
      ++ t.
Proof.
  unfold emit_spec. intros H Hroom.
  bind_inv H x g1 H1. bind_inv H pi' g2 H2. bind_inv H y g3 H3.
  assert (Eg' : g' = writestring (str "PStoPSsaved restore" ++ [nl]) g3)
    by congruence.
  subst g'. clear H.
  assert (Q1 : outfile g1 = outfile g /\ outputpage g1 = outputpage g).
  { revert H1. case_if; [apply seekpage_quiet|].
    intros E; injection E as _ <-. split; reflexivity. }
  destruct Q1 as [Qo Qp].
  set (label := label_chain h "("%byte maxpage thispg modulo (ps :: rest) ++ str ")") in *.
  assert (F3 : frame 0 g2 (writestring (str "PStoPSsaved restore" ++ [nl]) g3)).
  { eapply frame_then; [|apply writestring_frame].
    match type of H3 with ?m = _ => match m with context [pages ?gg] => set (g5 := gg) in * end end.
    assert (F5 : frame 0 g2 g5).
    { unfold g5. repeat first
        [ apply frame_refl | apply writestring_frame | apply write_transform_frame
        | match goal with
          | |- frame 0 ?g (if ?c then _ else _) => destruct c
          | |- frame 0 ?g (writestring _ ?g1) =>
              eapply frame_then; [|apply writestring_frame]
          | |- frame 0 ?g (write_transform _ _ _ ?g1) =>
              eapply frame_then; [|apply write_transform_frame]
          end ]. }
    eapply frame_step; [exact F5|]. clearbody g5.
    revert H3. case_if.
    - intros H3. bind_inv H3 z g6 H6. apply writepagesetup_frame in H6.
      apply writepagebody_frame in H3.
      eapply frame_step; [exact H6|]. eapply frame_step; [apply writestring_frame|exact H3].
    - intros E; injection E as _ <-. apply writestring_frame. }
  destruct (frame_written _ _ _ F3) as [t Et].
  pose proof (fr_room _ _ _ F3) as Hr.
  assert (R2 : 0 < room (outfile g2)) by lia.
  revert H2. case_if; [intros; discriminate|]. intros H2.
  bind_inv H2 z g4 H4. assert (g4 = g2) by congruence. subst g4. clear H2.
  unfold writepageheader in H4.
  set (gl := set_pagelabel label g1) in *.
  assert (E1 : pagelabel gl = label) by (unfold gl; destruct g1; reflexivity).
  assert (E2 : outputpage (set_outputpage (outputpage gl + 1) gl) = outputpage g + 1)
    by (rewrite <- Qp; unfold gl; destruct g1; reflexivity).
  assert (E3 : outfile (set_outputpage (outputpage gl + 1) gl) = outfile g)
    by (rewrite <- Qo; unfold gl; destruct g1; reflexivity).
  cbv zeta in H4. rewrite E1, E2 in H4.
  assert (Hl : no_nul label = true).
  { unfold label. rewrite no_nul_app, no_nul_label_chain by reflexivity. reflexivity. }
  rewrite (cstring_no_nul _ Hl) in H4.
  change (str "%%Page: " ++ label ++ str " " ++ fmt_d (outputpage g + 1) ++ [nl])
    with (page_comment label (outputpage g + 1)) in H4.
  set (text := page_comment label (outputpage g + 1)) in *.
  revert H4. case_if; [intros; discriminate|]. intros H4.
  assert (Eg2 : g2 = writestring text (set_outputpage (outputpage gl + 1) gl))
    by congruence.
  clear H4. rewrite Eg2 in R2.
  destruct (writestring_full _ _ R2) as [_ Ew].
  exists t. rewrite Et, Eg2, Ew, written_after, E3.
  rewrite <- app_assoc. f_equal. f_equal.
  apply cstring_no_nul. unfold text, page_comment.
  rewrite !no_nul_app, Hl, no_nul_fmt_d. reflexivity.
Qed.

Lemma spec_loop_header h maxpage thispg modulo draw specs pi g pi' g' :
  one_group h specs ->
  spec_loop h maxpage thispg modulo draw specs false pi g = Ok pi' g' ->
  0 < room (outfile g') ->
  outputpage g' = outputpage g + 1
  /\ room (outfile g') <= room (outfile g)
  /\ exists t,
       written (outfile g')
       = written (outfile g)
         ++ page_comment (label_chain h "("%byte maxpage thispg modulo specs
                            ++ str ")") (outputpage g + 1)
         ++ t.
Proof.
  intros Hg H Hroom.
  pose proof (spec_loop_frame _ _ _ _ _ _ _ _ _ _ _ Hg H) as F. cbv iota in F.
  split; [apply F|]. split; [apply F|].
  destruct specs as [|ps rest]; [destruct Hg|].
  cbn [spec_loop] in H. bind_inv H r g1 H1.
  pose proof (emit_spec_frame _ _ _ _ _ _ _ _ _ _ _ _ H1) as [_ Er].
  destruct rest as [|ps2 rest].
  - cbn [spec_loop] in H. assert (g1 = g') by congruence. subst g1.
    exact (emit_spec_header _ _ _ _ _ _ _ _ _ _ _ H1 Hroom).
  - destruct Hg as [Ha Hg]. rewrite Er, Ha in H.
    apply spec_loop_frame in H; [|exact Hg]. cbv iota in H.
    pose proof (fr_room _ _ _ H) as Hr.
    destruct (emit_spec_header _ _ _ _ _ _ _ _ _ _ _ H1 ltac:(lia)) as [t1 E1].
    destruct (frame_written _ _ _ H) as [t2 E2].
    exists (t1 ++ t2). rewrite E2, E1, <- !app_assoc. reflexivity.
Qed.

Lemma page_loop_sheets h maxpage modulo draw specs : 1 <= modulo ->
  one_group h specs ->
  forall fuel thispg pi g a g',
  thispg <= maxpage -> (modulo | maxpage - thispg) ->
  page_loop h fuel maxpage thispg modulo draw specs pi g = Ok a g' ->
  0 < room (outfile g') ->
  exists bodies,
    List.length bodies = Z.to_nat ((maxpage - thispg) / modulo)
    /\ written (outfile g')
       = written (outfile g)
         ++ sheets (fun p => label_chain h "("%byte maxpage p modulo specs
                               ++ str ")")
              (outputpage g) thispg modulo bodies.
Proof.
  intros Hm Hg. induction fuel as [|fuel IH]; intros thispg pi g a g' Hle [k Hk];
    cbn [page_loop]; destruct (Z.ltb_spec thispg maxpage) as [Hlt|Hge].
  - discriminate.
  - intros E _. assert (g' = g) by congruence. subst g'.
    exists []. replace (maxpage - thispg) with 0 by lia.
    rewrite Z.div_0_l by lia. cbn [sheets]. rewrite app_nil_r. split; reflexivity.
  - intros H Hroom. bind_inv H pi' g1 H1.
    assert (1 <= k) by nia.
    pose proof (page_loop_frame h maxpage modulo draw specs Hm Hg fuel
                  (thispg + modulo) pi' g1 a g' ltac:(nia)
                  ltac:(exists (k - 1); lia) H) as F.
    pose proof (fr_room _ _ _ F) as Hr.
    destruct (spec_loop_header _ _ _ _ _ _ _ _ _ _ Hg H1 ltac:(lia))
      as (Eo & _ & t & Et).
    destruct (IH (thispg + modulo) pi' g1 a g' ltac:(nia)
                ltac:(exists (k - 1); lia) H Hroom) as (bodies & El & Ew).
    exists (t :: bodies). split.
    + cbn [List.length]. rewrite El.
      replace (maxpage - thispg) with (1 * modulo + (maxpage - (thispg + modulo))) by lia.
      rewrite Z.div_add_l by lia.
      assert (0 <= (maxpage - (thispg + modulo)) / modulo)
        by (apply Z.div_pos; nia).
      lia.
    + cbn [sheets]. rewrite Ew, Et, Eo, <- !app_assoc. reflexivity.
  - intros E _. assert (g' = g) by congruence. subst g'.
    exists []. replace (maxpage - thispg) with 0 by lia.
    rewrite Z.div_0_l by lia. cbn [sheets]. rewrite app_nil_r. split; reflexivity.
Qed.

Lemma sheets_ext f1 f2 modulo : (forall p, f1 p = f2 p) ->
  forall bodies count thispg,
  sheets f1 count thispg modulo bodies = sheets f2 count thispg modulo bodies.
Proof.
  intros E. induction bodies as [|b r IH]; intros count thispg; [reflexivity|].
  cbn [sheets]. rewrite E, IH. reflexivity.
Qed.

Lemma maxpage_of_bound pages modulo m :
  maxpage_of pages modulo = Some m -> pages + modulo <= INT_MAX.
Proof.
  unfold maxpage_of, opt_bind.
  destruct (in_int (pages + modulo)) as [a|] eqn:Ea; [|discriminate].
  apply in_int_some in Ea as [_ Hb]. intros _. lia.
Qed.

Lemma pstops_sheets h modulo pps nobind specs draw ign g g' :
  one_group h specs -> 1 <= pages g -> 1 <= modulo ->
  pstops h modulo pps nobind specs draw ign g = Ok tt g' ->
  0 < room (outfile g') ->
  let n := (pages g + modulo - 1) / modulo in
  exists pre bodies post,
    List.length bodies = Z.to_nat n
    /\ written (outfile g')
       = pre
         ++ sheets (fun p => label_chain h "("%byte (n * modulo) p modulo specs
                               ++ str ")")
              (outputpage g) 0 modulo bodies
         ++ post.
Proof.
  intros Hg Hp Hm H Hroom n. unfold pstops in H.
  destruct (maxpage_of (pages g) modulo) as [m|] eqn:Em; [|discriminate].
  destruct (maxpage_of_ceil _ _ _ Hp Hm Em) as [-> Ed]. rewrite Ed in H.
  cbn [opt_bind] in H.
  destruct (in_int _) as [total|] eqn:Et; [|discriminate].
  fold n in H.
  bind_inv H x1 g1 H1. bind_inv H x2 g2 H2. bind_inv H x3 g3 H3.
  bind_inv H x4 g4 H4.
  match type of H2 with write_prolog_xform ?gg = _ => set (g1' := gg) in * end.
  assert (F1' : frame 0 g1 g1').
  { unfold g1'. repeat first
      [ apply frame_refl | apply writestring_frame
      | match goal with
        | |- frame 0 ?g (if ?c then _ else _) => destruct c
        | |- frame 0 ?g (writestring _ ?g1) =>
            eapply frame_then; [|apply writestring_frame]
        end ]. }
  clearbody g1'.
  pose proof (writeheadermedia_frame _ _ _ _ _ _ _ H1) as F1.
  apply write_prolog_xform_frame in H2. apply writesetup_frame in H3.
  apply writetrailer_frame in H.
  assert (F03 : frame 0 g g3).
  { eapply frame_step; [exact F1|]. eapply frame_step; [exact F1'|].
    eapply frame_step; eassumption. }
  pose proof (fr_room _ _ _ H) as Hr.
  assert (Hn0 : 0 <= n) by (apply Z.div_pos; lia).
  assert (Hdiv : (modulo | n * modulo - 0)) by (exists n; lia).
  assert (Hle : 0 <= n * modulo) by nia.
  assert (R4 : 0 < room (outfile g4)) by lia.
  destruct (page_loop_sheets h (n * modulo) modulo draw specs Hm Hg _ _ _ _ _ _
              Hle Hdiv H4 R4) as (bodies & El & Ew).
  destruct (frame_written _ _ _ H) as [post Ep].
  exists (written (outfile g3)), bodies, post. split.
  - rewrite El, Z.sub_0_r, Z.div_mul by lia. reflexivity.
  - rewrite Ep, Ew, (fr_outputpage _ _ _ F03), Z.add_0_r, <- app_assoc. reflexivity.
Qed.

(** C4.  For every input with [pages >= 1] and every [nup >= 1], a run of
    [pstops] over the builder's specs that comes to its end has written
    exactly [n = ceil(pages / nup)] page comments, with
    [maxpage = n * nup]: the counter [outputpage] has grown by [n], and
    where the output took every byte it holds [n] sheets one after the
    other, each opened by its comment [%%Page: (p,p+1,..,p+nup-1) k], [p]
    the first page slot of the sheet and [k] the next output page number;
    and where the input has a [%%Pages:] comment, the output holds the line
    [%%Pages: (maxpage / modulo) * pps 0]. *)
Theorem pstops_page_count h cfg ppwid pphgt l column leftright topbottom
    pps nobind drw ign g g' :
  distinct_flags h -> 1 <= pages g -> 1 <= nup cfg ->
  pstops h (nup cfg) pps nobind
    (build_specs h cfg ppwid pphgt l column leftright topbottom) drw ign g
  = Ok tt g' ->
  let n := (pages g + nup cfg - 1) / nup cfg in
  (n - 1) * nup cfg < pages g <= n * nup cfg
  /\ maxpage_of (pages g) (nup cfg) = Some (n * nup cfg)
  /\ outputpage g' = outputpage g + n
  /\ (0 < room (outfile g') ->
      exists pre bodies post,
        List.length bodies = Z.to_nat n
        /\ written (outfile g')
           = pre
             ++ sheets (fun p => sheet_label p (Z.to_nat (nup cfg)))
                  (outputpage g) 0 (nup cfg) bodies
             ++ post)
  /\ (pagescmt g <> 0 -> 0 <= room (outfile g) -> 0 < room (outfile g') ->
      exists pre post,
        written (outfile g') = pre ++ pages_line (n * pps) ++ post).
Proof.
  intros Hd Hp Hn H n. split; [apply ceil_bounds; assumption|].
  pose proof (build_specs_one_group h cfg ppwid pphgt l column leftright topbottom
                Hd Hn) as Hg.
  destruct (pstops_pages _ _ _ _ _ _ _ _ _ Hg Hp Hn H) as (Em & Eo & Epg).
  fold n in Em, Eo, Epg.
  split; [exact Em|]. split; [exact Eo|]. split; [|exact Epg].
  intros Hroom.
  destruct (pstops_sheets _ _ _ _ _ _ _ _ _ Hg Hp Hn H Hroom)
    as (pre & bodies & post & El & Ew).
  fold n in El, Ew. exists pre, bodies, post. split; [exact El|].
  rewrite Ew. f_equal. f_equal. apply sheets_ext. intros p.
  unfold sheet_label, build_specs. f_equal.
  pose proof (maxpage_of_bound _ _ _ Em) as Hb.
  rewrite (build_from_label h cfg ppwid pphgt l column leftright topbottom Hd)
    by lia.
  f_equal; [lia|f_equal; lia].
Qed.

Lemma pstops_page_count_witness :
  let g := Scenario.scanned Scenario.doc3 in
  let specs := build_specs flag_bits (default_config 2) 595 842 (Scenario.a4_layout 2)
                 true true false in
  let g' := Scenario.state_of (pstops flag_bits 2 1 false specs 0 (Some []) g) g in
  pages g = 3
  /\ outputpage g' = 2
  /\ (exists pre bodies post,
        List.length bodies = 2%nat
        /\ written (outfile g')
           = pre ++ sheets (fun p => sheet_label p 2) 0 0 2 bodies ++ post)
  /\ Scenario.page_comments (written (outfile g'))
     = [str "%%Page: (0,1) 1"; str "%%Page: (2,3) 2"].
Proof.
  intros g specs g'.
  assert (Hp : 1 <= pages g) by (vm_compute; discriminate).
  assert (Hn : 1 <= nup (default_config 2)) by (vm_compute; discriminate).
  assert (Hok : pstops flag_bits (nup (default_config 2)) 1 false specs 0
                  (Some []) g = Ok tt g')
    by (vm_compute; reflexivity).
  assert (Hr : 0 < room (outfile g')) by (vm_compute; reflexivity).
  pose proof (pstops_page_count flag_bits (default_config 2) 595 842 (Scenario.a4_layout 2)
                true true false 1 false 0%float (Some []) g g'
                flag_bits_distinct Hp Hn Hok) as H.
  cbv zeta in H. destruct H as (_ & _ & Ho & Hs & _).
  split; [vm_compute; reflexivity|].
  split; [vm_cast_no_check Ho|].
  split; [vm_cast_no_check (Hs Hr)|].
  vm_compute. reflexivity.
Defined.

(** *** The procset behind the header *)

Lemma spec_loop_extends h maxpage thispg modulo draw :
  forall specs add_last pi g pi' g',
  spec_loop h maxpage thispg modulo draw specs add_last pi g = Ok pi' g' ->
  exists d, frame d g g'.
Proof.
  induction specs as [|ps rest IH]; intros add_last pi g pi' g' H;
    cbn [spec_loop] in H.
  - injection H as _ <-. exists 0. apply frame_refl.
  - bind_inv H r g1 H1. apply emit_spec_frame in H1 as [F1 _].
    apply IH in H as [d F]. eexists. eapply frame_trans; eassumption.
Qed.

Lemma page_loop_extends h maxpage modulo draw specs :
  forall fuel thispg pi g a g',
  page_loop h fuel maxpage thispg modulo draw specs pi g = Ok a g' ->
  exists d, frame d g g'.
Proof.
  induction fuel as [|fuel IH]; intros thispg pi g a g' H; cbn [page_loop] in H;
    destruct (thispg <? maxpage); try discriminate;
    try (injection H as _ <-; exists 0; apply frame_refl).
  bind_inv H pi1 g1 H1. apply spec_loop_extends in H1 as [d1 F1].
  apply IH in H as [d F]. eexists. eapply frame_trans; eassumption.
Qed.

Lemma no_nul_prologue : no_nul prologue = true.
Proof. vm_compute. reflexivity. Qed.

(** X19. Whatever the specs, [pstops] puts the PStoPS procset right behind
    the header: the comment [%%BeginProcSet: PStoPS 1 15] (with [-nobind]
    after the name when [nobind] is set), the [prologue] text, the line
    [/bind{}def] when [nobind] is set, and [%%EndProcSet]; the prolog of the
    input, the pages and the trailer come after it. *)
Theorem pstops_writes_procset h modulo pps nobind specs draw ign g g' :
  pstops h modulo pps nobind specs draw ign g = Ok tt g' ->
  0 < room (outfile g') ->
  exists total g1 post,
    writeheadermedia total ign (width g) (height g) g = Ok tt g1
    /\ written (outfile g')
       = written (outfile g1) ++ procset_text nobind ++ post.
Proof.
  unfold pstops.
  destruct (maxpage_of (pages g) modulo) as [m|]; [|discriminate].
  destruct (opt_bind _ _) as [total|]; [|discriminate].
  intros H Hroom.
  bind_inv H x1 g1 H1. destruct x1.
  bind_inv H x2 g2 H2. bind_inv H x3 g3 H3. bind_inv H x4 g4 H4.
  match type of H2 with write_prolog_xform ?gg = _ => set (g1' := gg) in * end.
  apply write_prolog_xform_frame in H2. apply writesetup_frame in H3.
  apply page_loop_extends in H4 as [d H4]. apply writetrailer_frame in H.
  assert (F : frame d g1' g').
  { eapply frame_step; [exact H2|]. eapply frame_step; [exact H3|].
    eapply frame_then; eassumption. }
  destruct (frame_written _ _ _ F) as [post Ep].
  pose proof (fr_room _ _ _ F) as Hr.
  assert (R : 0 < room (outfile g1')) by lia.
  exists total, g1, post. split; [exact H1|].
  rewrite Ep, (app_assoc (written (outfile g1))). f_equal.
  clear - R. unfold g1' in *. unfold procset_text.
  destruct nobind.
  - repeat match type of R with
      | 0 < room (outfile (writestring ?s ?g)) =>
          let R' := fresh "R" in let E := fresh "E" in
          destruct (writestring_full s g R) as [R' E]; rewrite E; clear E;
          clear R; rename R' into R
      end.
    rewrite !fpos_after, !after_after, written_after.
    rewrite (cstring_no_nul _ no_nul_prologue).
    reflexivity.
  - repeat match type of R with
      | 0 < room (outfile (writestring ?s ?g)) =>
          let R' := fresh "R" in let E := fresh "E" in
          destruct (writestring_full s g R) as [R' E]; rewrite E; clear E;
          clear R; rename R' into R
      end.
    rewrite !fpos_after, !after_after, written_after.
    rewrite (cstring_no_nul _ no_nul_prologue).
    reflexivity.
Qed.

Lemma pstops_writes_procset_witness :
  let g := Scenario.scanned Scenario.doc4 in
  let g' := Scenario.state_of
              (pstops flag_bits 2 1 false (Scenario.a4_specs 2) 0 (Some [26]) g) g in
  exists total g1 post,
    writeheadermedia total (Some [26]) (width g) (height g) g = Ok tt g1
    /\ written (outfile g') = written (outfile g1) ++ procset_text false ++ post.
Proof.
  apply (pstops_writes_procset flag_bits 2 1 false (Scenario.a4_specs 2) 0
           (Some [26]) (Scenario.scanned Scenario.doc4)).
  - vm_compute. reflexivity.
  - vm_compute. reflexivity.
Defined.

(** *** The divisor search *)

Lemma nextdiv_loop_next fuel : forall n m, 0 <= n ->
  (Z.to_nat (m - n) <= fuel)%nat ->
  (nextdiv_loop fuel n m = 0 /\ forall k, n < k <= m -> Z.rem m k <> 0)
  \/ (n < nextdiv_loop fuel n m <= m
      /\ Z.rem m (nextdiv_loop fuel n m) = 0
      /\ forall k, n < k < nextdiv_loop fuel n m -> Z.rem m k <> 0).
Proof.
  induction fuel as [|fuel IH]; intros n m Hn Hf; cbn [nextdiv_loop].
  - left. split; [reflexivity|]. intros k Hk. lia.
  - destruct (Z.leb_spec (n + 1) m) as [Hle|Hgt].
    + destruct (Z.eqb_spec (Z.rem m (n + 1)) 0) as [Hr|Hr].
      * right. repeat split; try lia. 
      * destruct (IH (n + 1) m ltac:(lia) ltac:(lia)) as [[E Hk]|(Hd & Hz & Hk)].
        -- left. split; [exact E|]. intros k Hk1.
           destruct (Z.eq_dec k (n + 1)) as [->|]; [exact Hr|apply Hk; lia].
        -- right. repeat split; try lia. intros k Hk1.
           destruct (Z.eq_dec k (n + 1)) as [->|]; [exact Hr|apply Hk; lia].
    + left. split; [reflexivity|]. intros k Hk. lia.
Qed.

(** X20. [nextdiv(n, m)] for [n >= 0] is the least exact divisor of [m]
    above [n], and 0 exactly when [m] has no divisor above [n] (so always
    when [m <= n]). *)
Theorem nextdiv_least_divisor n m : 0 <= n ->
  (nextdiv n m = 0 /\ forall k, n < k <= m -> Z.rem m k <> 0)
  \/ (n < nextdiv n m <= m
      /\ Z.rem m (nextdiv n m) = 0
      /\ forall k, n < k < nextdiv n m -> Z.rem m k <> 0).
Proof.
  intros Hn. unfold nextdiv. apply nextdiv_loop_next; [exact Hn|lia].
Qed.

Lemma nextdiv_least_divisor_witness :
  (nextdiv 3 12 = 0 /\ forall k, 3 < k <= 12 -> Z.rem 12 k <> 0)
  \/ (3 < nextdiv 3 12 <= 12
      /\ Z.rem 12 (nextdiv 3 12) = 0
      /\ forall k, 3 < k < nextdiv 3 12 -> Z.rem 12 k <> 0).
Proof. apply (nextdiv_least_divisor 3 12). lia. Defined.

Lemma divisors_in_none n : forall count a,
  (forall k, Z.of_nat a <= k < Z.of_nat a + Z.of_nat count -> Z.rem n k <> 0) ->
  divisors_in n a count = [].
Proof.
  unfold divisors_in. induction count as [|count IH]; intros a H; [reflexivity|].
  cbn [seq map filter].
  destruct (Z.eqb_spec (Z.rem n (Z.of_nat a)) 0) as [E|E].
  - exfalso. apply (H (Z.of_nat a)); [lia|exact E].
  - apply IH. intros k Hk. apply H. lia.
Qed.

Lemma divisors_in_app n a c1 c2 :
  divisors_in n a (c1 + c2) = divisors_in n a c1 ++ divisors_in n (a + c1) c2.
Proof.
  unfold divisors_in. rewrite seq_app, map_app, filter_app. reflexivity.
Qed.

Section SearchDivisors.
Variable cfg : config.
Variables ppwid pphgt w h : float.

Lemma search_divisors fuel : forall hor l,
  1 <= hor <= nup cfg -> Z.rem (nup cfg) hor = 0 ->
  (Z.to_nat (nup cfg - hor) < fuel)%nat ->
  search cfg ppwid pphgt w h fuel hor l
  = fold_left (fun l d => try_layout cfg ppwid pphgt w h d l)
      (divisors_in (nup cfg) (Z.to_nat hor) (S (Z.to_nat (nup cfg - hor)))) l.
Proof.
  induction fuel as [|fuel IH]; intros hor l Hh Hr Hf; [lia|].
  cbn [search]. destruct (Z.eqb_spec hor 0) as [E|_]; [lia|].
  unfold divisors_in at 1. cbn [seq map filter]. rewrite Z2Nat.id by lia.
  rewrite Hr. cbn [Z.eqb fold_left]. fold (divisors_in (nup cfg) (S (Z.to_nat hor)) (Z.to_nat (nup cfg - hor))).
  destruct (nextdiv_loop_next (Z.to_nat (nup cfg - hor)) hor (nup cfg) ltac:(lia) ltac:(lia)) as [[E Hk]|(Hd & Hz & Hk)].
  - fold (nextdiv hor (nup cfg)) in E. rewrite E. rewrite divisors_in_none.
    + destruct fuel; reflexivity.
    + intros k Hk1. apply Hk. lia.
  - fold (nextdiv hor (nup cfg)) in *. set (d := nextdiv hor (nup cfg)) in *.
    rewrite IH by (try assumption; lia).
    f_equal.
    replace (Z.to_nat (nup cfg - hor))
      with (Z.to_nat (d - hor - 1) + S (Z.to_nat (nup cfg - d)))%nat by lia.
    rewrite divisors_in_app.
    rewrite (divisors_in_none _ (Z.to_nat (d - hor - 1)) (S (Z.to_nat hor))).
    + cbn [app]. f_equal. lia.
    + intros k Hk1. apply Hk. lia.
Qed.

End SearchDivisors.

Lemma divisors_spec n d : In d (divisors n) <-> 1 <= d <= n /\ Z.rem n d = 0.
Proof.
  unfold divisors, divisors_in. rewrite filter_In, in_map_iff. split.
  - intros [(k & <- & Hk) E]. apply in_seq in Hk.
    apply Z.eqb_eq in E. split; [lia|exact E].
  - intros [Hd E]. split; [|apply Z.eqb_eq; exact E].
    exists (Z.to_nat d). split; [lia|]. apply in_seq. lia.
Qed.

(** X21. The layout search tries the exact divisors of [nup], every one
    once and in ascending order, as the number of columns [hor]. *)
Theorem find_layout_over_divisors cfg ppwid pphgt w h : 1 <= nup cfg ->
  find_layout cfg ppwid pphgt w h
  = fold_left (fun l d => try_layout cfg ppwid pphgt w h d l)
      (divisors (nup cfg)) (mkLayout (tolerance cfg) 1 0 0 0 0 false)
  /\ StronglySorted Z.lt (divisors (nup cfg))
  /\ forall d, In d (divisors (nup cfg)) <-> 1 <= d <= nup cfg /\ Z.rem (nup cfg) d = 0.
Proof.
  intros Hn. split; [|split].
  - unfold find_layout. rewrite search_divisors by (try rewrite Z.rem_1_r; lia).
    unfold divisors. do 2 f_equal. lia.
  - unfold divisors, divisors_in. generalize 1%nat as a.
    induction (Z.to_nat (nup cfg)) as [|c IH]; intros a; cbn [seq map filter];
      [constructor|].
    case_if.
    + constructor; [apply IH|].
      apply Forall_forall. intros x Hx. apply filter_In in Hx as [Hx _].
      apply in_map_iff in Hx as (k & <- & Hk). apply in_seq in Hk. lia.
    + apply IH.
  - intros d. apply divisors_spec.
Qed.

Lemma find_layout_over_divisors_witness :
  find_layout (default_config 6) 595 842 595 842
  = fold_left (fun l d => try_layout (default_config 6) 595 842 595 842 d l)
      [1; 2; 3; 6] (mkLayout 100000 1 0 0 0 0 false).
Proof.
  exact (proj1 (find_layout_over_divisors (default_config 6) 595 842 595 842
                  ltac:(cbn; lia))).
Defined.

(** *** The layout search and the tolerance *)

Lemma eqb_self_nan x : PrimFloat.eqb x x = false -> Prim2SF x = S754_nan.
Proof.
  rewrite FloatAxioms.eqb_spec. unfold SFeqb, SFcompare.
  destruct (Prim2SF x) as [s|s| |s m e]; try (destruct s); try discriminate;
    try reflexivity; rewrite Z.compare_refl, Pos.compare_cont_refl; discriminate.
Qed.

Lemma ltb_nan_r x y : Prim2SF y = S754_nan -> PrimFloat.ltb x y = false.
Proof.
  intros E. rewrite FloatAxioms.ltb_spec, E. unfold SFltb, SFcompare.
  destruct (Prim2SF x); reflexivity.
Qed.

Section Tolerance.
Variable cfg : config.
Variables ppwid pphgt w h : float.

Lemma try_layout_kept hor l :
  1 <= hor <= nup cfg -> nup cfg <= INT_MAX -> Z.rem (nup cfg) hor = 0 ->
  let l' := try_layout cfg ppwid pphgt w h hor l in
  l' = l \/ (0 < horiz l' /\ 0 < vert l' /\ horiz l' * vert l' = nup cfg).
Proof.
  intros Hh Hn Hr.
  pose proof (Z.quot_rem' (nup cfg) hor) as E. rewrite Hr, Z.add_0_r in E.
  assert (Hv : 1 <= Z.quot (nup cfg) hor <= nup cfg) by nia.
  assert (E1 : to_int hor = hor) by (apply to_int_small; unfold INT_MIN; lia).
  assert (E2 : to_int (Z.quot (nup cfg) hor) = Z.quot (nup cfg) hor)
    by (apply to_int_small; unfold INT_MIN; lia).
  unfold try_layout. rewrite E1, E2.
  repeat match goal with |- context [if ?c then _ else _] => destruct c end;
    (left; reflexivity) || (right; cbn [horiz vert]; lia).
Qed.

Lemma search_kept : 1 <= nup cfg <= INT_MAX ->
  forall fuel hor l l0,
  hor = 0 \/ (1 <= hor <= nup cfg /\ Z.rem (nup cfg) hor = 0) ->
  l = l0 \/ (0 < horiz l /\ 0 < vert l /\ horiz l * vert l = nup cfg) ->
  let l' := search cfg ppwid pphgt w h fuel hor l in
  l' = l0 \/ (0 < horiz l' /\ 0 < vert l' /\ horiz l' * vert l' = nup cfg).
Proof.
  intros Hn. induction fuel as [|fuel IH]; intros hor l l0 Hh Hl; cbn [search];
    destruct (Z.eqb_spec hor 0); try assumption.
  destruct Hh as [Hh|[Hh Hr]]; [contradiction|].
  apply IH.
  - unfold nextdiv.
    destruct (nextdiv_loop_range (Z.to_nat (nup cfg - hor)) hor (nup cfg) ltac:(lia))
      as [E|E]; [now left|right; lia].
  - destruct (try_layout_kept hor l Hh ltac:(lia) Hr) as [->|G]; [exact Hl|right; exact G].
Qed.

Lemma try_layout_nan hor l : Prim2SF (best l) = S754_nan ->
  try_layout cfg ppwid pphgt w h hor l = l.
Proof.
  intros E. unfold try_layout. rewrite !(ltb_nan_r _ _ E). reflexivity.
Qed.

Lemma search_nan fuel : forall hor l, Prim2SF (best l) = S754_nan ->
  search cfg ppwid pphgt w h fuel hor l = l.
Proof.
  induction fuel as [|fuel IH]; intros hor l E; cbn [search];
    destruct (hor =? 0); try reflexivity.
  rewrite try_layout_nan by exact E. apply IH. exact E.
Qed.

End Tolerance.

(** X22. With a tolerance that is a number, a search result that passes
    the test [best == tolerance] of [main] is a grid for [nup]: [horiz]
    and [vert] are positive with [horiz * vert = nup], so the spec builder
    divides by neither. *)
Theorem accepted_layout_is_grid cfg ppwid pphgt w h :
  1 <= nup cfg <= INT_MAX ->
  PrimFloat.eqb (tolerance cfg) (tolerance cfg) = true ->
  PrimFloat.eqb (best (find_layout cfg ppwid pphgt w h)) (tolerance cfg) = false ->
  0 < horiz (find_layout cfg ppwid pphgt w h)
  /\ 0 < vert (find_layout cfg ppwid pphgt w h)
  /\ horiz (find_layout cfg ppwid pphgt w h) * vert (find_layout cfg ppwid pphgt w h)
     = nup cfg
  /\ cells_defined cfg (find_layout cfg ppwid pphgt w h) = true.
Proof.
  intros Hn Ht Hb.
  destruct (search_kept cfg ppwid pphgt w h Hn (S (Z.to_nat (nup cfg))) 1
              (mkLayout (tolerance cfg) 1 0 0 0 0 false)
              (mkLayout (tolerance cfg) 1 0 0 0 0 false)) as [E|(H1 & H2 & H3)].
  - right. split; [lia|]. apply Z.rem_1_r.
  - left. reflexivity.
  - fold (find_layout cfg ppwid pphgt w h) in E. rewrite E in Hb. cbn [best] in Hb.
    rewrite Ht in Hb. discriminate.
  - fold (find_layout cfg ppwid pphgt w h) in H1, H2, H3.
    repeat split; try assumption. unfold cells_defined.
    destruct (Z.eqb_spec (horiz (find_layout cfg ppwid pphgt w h)) 0); [lia|].
    destruct (Z.eqb_spec (vert (find_layout cfg ppwid pphgt w h)) 0); [lia|].
    apply orb_true_r.
Qed.

Lemma accepted_layout_is_grid_witness :
  0 < horiz (Scenario.a4_layout 4) /\ 0 < vert (Scenario.a4_layout 4)
  /\ horiz (Scenario.a4_layout 4) * vert (Scenario.a4_layout 4) = 4
  /\ cells_defined (default_config 4) (Scenario.a4_layout 4) = true.
Proof.
  apply (accepted_layout_is_grid (default_config 4) 595 842 595 842).
  - cbn. unfold INT_MAX. lia.
  - vm_compute. reflexivity.
  - vm_compute. reflexivity.
Defined.

(** X23. With a tolerance that is not a number (as [atof] reads "nan") the
    search accepts no candidate, the test [best == tolerance] of [main]
    does not stop the run, and the spec builder is reached with
    [horiz = vert = 0]: the run divides by zero. *)
Theorem nan_tolerance_divides_by_zero hf cfg iwidth iheight g szs g1 :
  PrimFloat.eqb (tolerance cfg) (tolerance cfg) = false ->
  1 <= nup cfg ->
  PrimFloat.leb (width g - margin cfg * 2) 0
    || PrimFloat.leb (height g - margin cfg * 2) 0 = false ->
  scanpages (Some 20) g = Ok szs g1 ->
  (forall ppwid pphgt w h,
     find_layout cfg ppwid pphgt w h = mkLayout (tolerance cfg) 1 0 0 0 0 false)
  /\ run hf cfg iwidth iheight g = Undefined "division by zero".
Proof.
  intros Ht Hn Hm Hs.
  assert (F : forall ppwid pphgt w h,
     find_layout cfg ppwid pphgt w h = mkLayout (tolerance cfg) 1 0 0 0 0 false).
  { intros. unfold find_layout. apply search_nan. cbn [best].
    apply eqb_self_nan. exact Ht. }
  split; [exact F|].
  unfold run. rewrite Hm, Hs. cbn [bind]. rewrite F. cbn [best]. rewrite Ht.
  unfold cells_defined. cbn [horiz vert].
  destruct (Z.leb_spec (nup cfg) 0); [lia|]. reflexivity.
Qed.

Lemma nan_tolerance_divides_by_zero_witness :
  run flag_bits (mkConfig 2 0 0 0 0 nan false false true true) (-1) (-1)
      (Scenario.start Scenario.doc4)
  = Undefined "division by zero".
Proof.
  refine (proj2 (nan_tolerance_divides_by_zero flag_bits
            (mkConfig 2 0 0 0 0 nan false false true true) (-1) (-1)
            (Scenario.start Scenario.doc4)
            (match scanpages (Some 20) (Scenario.start Scenario.doc4) with
             | Ok a _ => a | _ => [] end)
            (Scenario.scanned Scenario.doc4) _ _ _ _)).
  - vm_compute. reflexivity.
  - cbn. lia.
  - vm_compute. reflexivity.
  - vm_compute. reflexivity.
Defined.

(** *** A whole run *)

Lemma push_page_output record g a g' : push_page record g = Ok a g' ->
  outputpage g' = outputpage g /\ outfile g' = outfile g /\ bytes g' = bytes g
  /\ width g' = width g /\ height g' = height g.
Proof.
  intros H. apply push_page_inv in H as (g1 & t & [->| ->] & _ & ->);
    destruct g; repeat split.
Qed.

Lemma scan_line_output record buffer l g r g' :
  scan_line record buffer l g = Ok r g' ->
  outputpage g' = outputpage g /\ outfile g' = outfile g /\ bytes g' = bytes g
  /\ width g' = width g /\ height g' = height g.
Proof.
  unfold scan_line, push_sizeheader.
  repeat match goal with
         | |- context [if ?c then _ else _] => destruct c
         end;
    try (destruct (szcap l); [case_if|]); cbn [bind];
    try (destruct (push_page record g) as [a g1| |] eqn:E; cbn [bind];
         [apply push_page_output in E|..]);
    intros H; try discriminate H; injection H as _ <-;
    try assumption; destruct g; repeat split.
Qed.

Lemma scan_loop_output fuel : forall l g l' g',
  scan_loop fuel l g = Ok l' g' ->
  outputpage g' = outputpage g /\ outfile g' = outfile g /\ bytes g' = bytes g
  /\ width g' = width g /\ height g' = height g.
Proof.
  induction fuel as [|fuel IH]; intros l g l' g'; cbn [scan_loop].
  - intros E; injection E as _ <-. repeat split.
  - destruct (fgets (infile g)) as [[b|] fin].
    2:{ intros E; injection E as _ <-. repeat split. }
    intros H. bind_inv H r g1 H1.
    apply scan_line_output in H1.
    assert (H0 : outputpage g1 = outputpage g /\ outfile g1 = outfile g
                 /\ bytes g1 = bytes g /\ width g1 = width g /\ height g1 = height g).
    { destruct g; exact H1. }
    destruct (fst r).
    + injection H as _ <-. exact H0.
    + apply IH in H. destruct H as (A1 & A2 & A3 & A4 & A5).
      destruct H0 as (B1 & B2 & B3 & B4 & B5).
      repeat split; congruence.
Qed.

Lemma scanpages_output sizeheaders g szs g' :
  scanpages sizeheaders g = Ok szs g' ->
  outputpage g' = outputpage g /\ outfile g' = outfile g /\ bytes g' = bytes g
  /\ width g' = width g /\ height g' = height g.
Proof.
  intros H. unfold scanpages in H. bind_inv H l g1 H1. bind_inv H x g2 H2.
  injection H as _ <-.
  unfold scan in H1. revert H1. case_if; [discriminate|].
  case_if; [discriminate|]. intros H1.
  apply scan_loop_output in H1.
  assert (H0 : outputpage g1 = outputpage g /\ outfile g1 = outfile g
               /\ bytes g1 = bytes g /\ width g1 = width g /\ height g1 = height g).
  { destruct g; exact H1. }
  unfold finish in H2. destruct (store _ _ _); [|discriminate].
  destruct (load _ _); [|discriminate].
  revert H2. case_if; intros E; injection E as _ <-; destruct g1; exact H0.
Qed.

Lemma maxpage_of_whole pages modulo m : 0 <= pages -> 1 <= modulo ->
  maxpage_of pages modulo = Some m ->
  m = (pages + modulo - 1) / modulo * modulo
  /\ int_div m modulo = Some ((pages + modulo - 1) / modulo).
Proof.
  intros Hp Hm. unfold maxpage_of, opt_bind.
  destruct (in_int (pages + modulo)) as [a|] eqn:Ea; [|discriminate].
  apply in_int_some in Ea as [-> _].
  destruct (in_int (pages + modulo - 1)) as [b|] eqn:Eb; [|discriminate].
  apply in_int_some in Eb as [-> _].
  destruct (int_div (pages + modulo - 1) modulo) as [q|] eqn:Eq; [|discriminate].
  unfold int_div in Eq. destruct (Z.eqb_spec modulo 0); [lia|].
  pose proof Eq as Eq'. apply in_int_some in Eq' as [-> _].
  rewrite Z.quot_div_nonneg in * by lia.
  intros Em. apply in_int_some in Em as [-> _]. split; [reflexivity|].
  unfold int_div. destruct (Z.eqb_spec modulo 0); [lia|].
  rewrite Z.quot_div_nonneg.
  - rewrite Z.div_mul by lia. exact Eq.
  - apply Z.mul_nonneg_nonneg; [apply Z.div_pos|]; lia.
  - lia.
Qed.

Lemma pstops_outputpage h modulo pps nobind specs draw ign g g' :
  one_group h specs -> 0 <= pages g -> 1 <= modulo ->
  pstops h modulo pps nobind specs draw ign g = Ok tt g' ->
  outputpage g' = outputpage g + (pages g + modulo - 1) / modulo
  /\ pages g' = pages g.
Proof.
  intros Hg Hp Hm. unfold pstops.
  destruct (maxpage_of (pages g) modulo) as [m|] eqn:Em; [|discriminate].
  destruct (maxpage_of_whole _ _ _ Hp Hm Em) as [-> Ed]. rewrite Ed. cbn [opt_bind].
  destruct (in_int _) as [total|] eqn:Et; [|discriminate].
  intros H. set (n := (pages g + modulo - 1) / modulo) in *.
  bind_inv H x1 g1 H1. bind_inv H x2 g2 H2. bind_inv H x3 g3 H3.
  bind_inv H x4 g4 H4.
  match type of H2 with write_prolog_xform ?gg = _ => set (g1' := gg) in * end.
  assert (F1' : frame 0 g1 g1').
  { unfold g1'. repeat first
      [ apply frame_refl | apply writestring_frame
      | match goal with
        | |- frame 0 ?g (if ?c then _ else _) => destruct c
        | |- frame 0 ?g (writestring _ ?g1) =>
            eapply frame_then; [|apply writestring_frame]
        end ]. }
  clearbody g1'.
  pose proof (writeheadermedia_frame _ _ _ _ _ _ _ H1) as F1.
  apply write_prolog_xform_frame in H2. apply writesetup_frame in H3.
  apply writetrailer_frame in H.
  assert (F03 : frame 0 g g3).
  { eapply frame_step; [exact F1|]. eapply frame_step; [exact F1'|].
    eapply frame_step; eassumption. }
  apply page_loop_frame in H4; [|assumption|assumption| |].
  2:{ apply Z.mul_nonneg_nonneg; [apply Z.div_pos|]; lia. }
  2:{ exists ((pages g + modulo - 1) / modulo). lia. }
  rewrite Z.sub_0_r, Z.div_mul in H4 by lia.
  assert (F : frame n g g').
  { eapply frame_step; [exact F03|]. eapply frame_then; eassumption. }
  split; apply F.
Qed.

(** X24. A run of psnup that comes back has written one page comment for
    every [nup] pages the scan counted, the last sheet filled up: with
    [pages] the count the scan leaves (possibly 0), the counter of output
    pages ends [ceil(pages / nup)] higher, on every input and for all
    options. *)
Theorem run_page_count h cfg iwidth iheight g g' :
  distinct_flags h -> 1 <= nup cfg <= INT_MAX -> 1 <= maxpages g ->
  run h cfg iwidth iheight g = Ok tt g' ->
  exists szs g1,
    scanpages (Some 20) g = Ok szs g1
    /\ 0 <= pages g1 /\ pages g' = pages g1
    /\ outputpage g' = outputpage g + (pages g1 + nup cfg - 1) / nup cfg.
Proof.
  intros Hd Hn Hm. unfold run.
  destruct (_ || _); [discriminate|].
  pose proof (scanpages_defined (Some 20) g Hm) as Hdef.
  destruct (scanpages (Some 20) g) as [szs g1| |] eqn:Es; cbn [bind];
    try discriminate.
  clear Hdef.
  destruct (scanpages_output _ _ _ _ Es) as (O1 & _).
  set (g2 := if _ && _ then set_width iwidth g1 else g1).
  set (g3 := if _ && _ then set_height iheight g2 else g2).
  set (l := find_layout _ _ _ _ _).
  destruct (PrimFloat.eqb (best l) (tolerance cfg)); [discriminate|].
  set (g4 := if flip cfg then _ else g3).
  destruct (cells_defined cfg l); [|discriminate].
  intros H.
  assert (E4 : pages g4 = pages g1 /\ outputpage g4 = outputpage g1).
  { unfold g4, g3, g2.
    repeat match goal with |- context [if ?c then _ else _] => destruct c end;
      destruct g1; split; reflexivity. }
  destruct E4 as [Ep Eo].
  assert (Hp : 0 <= pages g1).
  { unfold scanpages in Es. bind_inv Es l0 ga H1. bind_inv Es x gb H2.
    injection Es as _ <-.
    assert (Hs : match scan (Some 20) g with Ok _ g' => table_ok g' | _ => True end).
    { unfold scan. case_if; [exact I|]. case_if; [exact I|].
      match goal with |- match scan_loop ?f ?l ?g with _ => _ end =>
        pose proof (scan_loop_table f l g) as T;
        destruct (scan_loop f l g); try exact I; apply T end.
      unfold table_ok. destruct g; fields. rewrite repeat_length. lia. }
    rewrite H1 in Hs. destruct Hs as (_ & _ & Hs).
    unfold finish in H2. destruct (store _ _ _); [|discriminate].
    destruct (load _ _); [|discriminate].
    revert H2. case_if; intros E; injection E as _ <-; destruct ga; fields; lia. }
  rewrite to_int_small in H by (unfold INT_MIN, INT_MAX in *; lia).
  apply pstops_outputpage in H; [| |lia|lia].
  - destruct H as [H1 H2]. exists szs, g1. repeat split; try assumption; congruence.
  - unfold main_specs. destruct (traversal cfg l) as [[c1 c2] c3].
    apply build_specs_one_group; [exact Hd|lia].
Qed.

Lemma run_page_count_witness :
  exists szs g1,
    scanpages (Some 20) (Scenario.start Scenario.doc4) = Ok szs g1
    /\ 0 <= pages g1
    /\ pages (Scenario.state_of (Scenario.psnup_2 Scenario.doc4)
                (Scenario.start Scenario.doc4)) = pages g1
    /\ outputpage (Scenario.state_of (Scenario.psnup_2 Scenario.doc4)
                     (Scenario.start Scenario.doc4))
       = 0 + (pages g1 + 2 - 1) / 2.
Proof.
  apply (run_page_count flag_bits (default_config 2) (-1) (-1)
           (Scenario.start Scenario.doc4)).
  - exact flag_bits_distinct.
  - cbn. unfold INT_MAX. lia.
  - cbn. lia.
  - vm_compute. reflexivity.
Defined.
